(** * SwapDust: the swap orchestration engine of [handleSwap]

    A shallow embedding of the swap pipeline of the SwapDust front end
    (component [SwapDustInterface]): plan construction
    ([buildConsistentArrays]), array validation, the two approval passes,
    quote validation, the minimum-receive computation, gas estimation and
    the swap submission.

    - bigints are [Z]; bigint division is truncating ([Z.quot]);
    - JS numbers are IEEE-754 binary64 values, [spec_float] at precision 53;
    - strings are [string]; [undefined] strings are folded into the empty
      string, which the source only ever tests for truthiness;
    - chain and wallet calls are oracle calls answered by a [World] that sees
      the whole history of earlier calls; every call is recorded, with its
      answer, in the trace of the run;
    - reads go through the public client and raise when they fail; writes go
      through the [writeContract] of [useWriteContract], which hands the
      request to the wallet and returns: the wallet's answer is recorded in
      the trace and reaches the hook's [error] state, never the caller;
    - exceptions are values of [Error] in an error-and-trace monad [M].

    Console logging, toasts and React status setters are not part of the
    model, nor are the components around the interface ([ClientOnly],
    [ErrorBoundary], [NetworkGuard]), which are not among the sources: the
    functions are modelled as they run once they are called.

    Besides the pipeline the development covers the selection controls
    ([toggleTokenSelection], [toggleSelectAll]), the maintenance and debug
    tools ([revokeApproval], [debugTokenState], [testSingleApproval],
    [checkAllAllowances]), the helpers of the swap that are defined and
    never called ([validateSwapInputs], [validateMinReceive],
    [calculateMinReceive], [scaleDownAmounts]) and the text of the failure
    toast, as a function of the message of the exception. *)

From Stdlib Require Import ZArith NArith List String Ascii Bool Lia.
From Stdlib Require Import Floats.SpecFloat.
Import ListNotations.

Local Open Scope string_scope.
Local Open Scope list_scope.
Local Open Scope Z_scope.

(** ** JavaScript numbers *)

Module JsNumber.

Definition prec : Z := 53.
Definition emax : Z := 1024.

(** [Number(b)] for a bigint [b]: the nearest binary64 value, ties to
    even, infinite past the largest finite double. *)
Definition ofBigInt (b : Z) : spec_float := binary_normalize prec emax b 0 false.

Definition div (x y : spec_float) : spec_float := SFdiv prec emax x y.

Definition isNaN (x : spec_float) : bool :=
  match x with S754_nan => true | _ => false end.

(** [x <= 0] and [x === 0] on numbers; both are false on NaN. *)
Definition leZero (x : spec_float) : bool := SFleb x (S754_zero false).
Definition eqZero (x : spec_float) : bool := SFeqb x (S754_zero false).
Definition gtZero (x : spec_float) : bool := SFltb (S754_zero false) x.

(** The integer [floor (z * 2^e)]. *)
Definition floorScaled (z e : Z) : Z :=
  match e with
  | Zneg p => z / 2 ^ Zpos p
  | _ => z * 2 ^ e
  end.

(** [BigInt(Math.floor(x))]: the floor of a finite number as a bigint;
    [None] is the RangeError that [BigInt] raises on NaN and on the
    infinities, which [Math.floor] leaves as they are. *)
Definition floorToBigInt (x : spec_float) : option Z :=
  match x with
  | S754_zero _ => Some 0
  | S754_finite s m e => Some (floorScaled (cond_Zopp s (Zpos m)) e)
  | S754_infinity _ => None
  | S754_nan => None
  end.

(** The sign of a number that is not NaN. *)
Definition signOf (x : spec_float) : option bool :=
  match x with
  | S754_zero s | S754_infinity s | S754_finite s _ _ => Some s
  | S754_nan => None
  end.

End JsNumber.

(** ** JavaScript strings *)

Module JsString.

(** [c.toLowerCase()] on one ASCII character. *)
Definition lowerAscii (c : ascii) : ascii :=
  let n := nat_of_ascii c in
  if (65 <=? n)%nat && (n <=? 90)%nat then ascii_of_nat (n + 32) else c.

(** [s.toLowerCase()]; the strings compared by the engine are hex
    addresses, so only the ASCII letters are mapped. *)
Fixpoint toLowerCase (s : string) : string :=
  match s with
  | EmptyString => EmptyString
  | String c r => String (lowerAscii c) (toLowerCase r)
  end.

(** [s.includes(sub)]. *)
Definition includes (s sub : string) : bool :=
  match String.index 0 sub s with Some _ => true | None => false end.

(** Truthiness of a string. *)
Definition truthy (s : string) : bool := negb (String.eqb s "").

(** [s || d]. *)
Definition orElse (s d : string) : string := if truthy s then s else d.

End JsString.

(** ** The dynamic guard buffer *)

(** [BigInt(Math.floor(Number(balanceWei) / 10000)) || BigInt(100000)], the
    expression of [safetyReduction] in [buildConsistentArrays] and of
    [dynamicBuffer] in the balance re-check; [None] when [BigInt] raises. *)
Definition dynamicBuffer (balanceWei : Z) : option Z :=
  match JsNumber.floorToBigInt
          (JsNumber.div (JsNumber.ofBigInt balanceWei) (JsNumber.ofBigInt 10000)) with
  | Some q => Some (if q =? 0 then 100000 else q)
  | None => None
  end.

(** ** Data model *)

(** A token of the discovery service's snapshot ([dustTokens]). *)
Record TokenRecord := {
  address : string;
  symbol : string;
  decimals : Z;
  balanceFormatted : string;
  valueUSD : spec_float;
  source : string
}.

(** The React state that one run of the pipeline closes over. *)
Record AppState := {
  walletAddress : string;          (* [address] of [useAccount] *)
  isConnected : bool;
  chainId : option Z;
  dustTokens : list TokenRecord;
  selectedTokens : list string
}.

(** What the repository takes from outside: the contract addresses of
    [@/lib/contracts], JS's [parseFloat] and viem's [parseUnits] ([None]
    when it throws). *)
Record Deps := {
  SPLIT_ROUTER : string;
  HIGHER_TOKEN : string;
  parseFloat : string -> spec_float;
  parseUnits : string -> Z -> option Z
}.

(** The exceptions the pipeline raises, one constructor per [throw]. *)
Inductive Error :=
| MissingContractOrWallet
| TokenNotFound (addr : string)
| InvalidBalance (sym balance : string)
| InvalidDecimalNumber (value : string)
| RangeError
| TypeError
| LengthMismatch (tokens addresses amounts : nat)
| AddressMismatch (index : nat)
| VerifyMismatch (operation : string) (index : nat)
| NoBalance (sym : string)
| WalletNotConnected
| ApprovalTxFailed (msg : string)
| FailedToApprove (sym : string) (cause : Error)
| AmountExceedsBalance (sym : string)
| NoPublicClient
| CallFailed (msg : string)
| SwapAmountTooSmall (sym : string)
| TotalOutputZero
| QuoteValidationFailed (sym : string) (cause : Error)
| BulkQuoteValidationFailed (cause : Error)
| HigherToHigher
| GasEstimationFailed (decoded : string)
| SwapFailed (decoded : string).

(** The spec's [DustTooSmall]: a per-token or the aggregate quote was zero. *)
Definition isDustTooSmall (e : Error) : bool :=
  match e with
  | QuoteValidationFailed _ (SwapAmountTooSmall _) => true
  | BulkQuoteValidationFailed TotalOutputZero => true
  | _ => false
  end.

(** The answer of a chain or wallet call. *)
Inductive Resp (A : Type) :=
| Returns (a : A)
| Rejects (msg : string).
Arguments Returns {A} a.
Arguments Rejects {A} msg.

(** The calls that leave the engine, each with the answer it got.  The
    [uint256] results are [N]. *)
Inductive Event :=
| EvGetChainId (r : Resp Z)
| EvGetCode (contract : string) (r : Resp string)
| EvAllowance (token owner spender : string) (r : Resp N)
| EvApprove (token spender : string) (amount : Z) (r : Resp unit)
| EvGetSwapQuote (token : string) (amountIn : Z) (r : Resp N)
| EvGetBulkSwapQuote (tokens : list string) (amounts : list Z) (r : Resp (N * list N))
| EvEstimateGas (tokens : list string) (amounts : list Z) (minReceive : Z) (r : Resp N)
| EvExecuteBulkSwap (tokens : list string) (amounts : list Z) (minReceive : Z) (r : Resp unit).

Definition Trace := list Event.

(** The chain, the node and the wallet: each answer may depend on everything
    that happened before in the run. *)
Record World := {
  hasPublicClient : bool;
  getChainId : Trace -> Resp Z;
  getCode : Trace -> string -> Resp string;
  allowance : Trace -> string -> string -> string -> Resp N;
  approve : Trace -> string -> string -> Z -> Resp unit;
  getSwapQuote : Trace -> string -> Z -> Resp N;
  getBulkSwapQuote : Trace -> list string -> list Z -> Resp (N * list N);
  estimateContractGas : Trace -> list string -> list Z -> Z -> Resp N;
  executeBulkSwap : Trace -> list string -> list Z -> Z -> Resp unit
}.

(** ** The error-and-trace monad *)

(** A computation reads the history of the run so far and returns a value or
    an exception together with the events it added. *)
Definition M (A : Type) : Type := Trace -> (Error + A) * Trace.

Definition ret {A} (a : A) : M A := fun _ => (inr a, []).

Definition throw {A} (e : Error) : M A := fun _ => (inl e, []).

Definition bind {A B} (m : M A) (f : A -> M B) : M B :=
  fun h =>
    match m h with
    | (inl e, es) => (inl e, es)
    | (inr a, es) => let (r, es') := f a (h ++ es) in (r, es ++ es')
    end.

(** [try { m } catch (e) { handler e }]. *)
Definition tryCatch {A} (m : M A) (handler : Error -> M A) : M A :=
  fun h =>
    match m h with
    | (inl e, es) => let (r, es') := handler e (h ++ es) in (r, es ++ es')
    | (inr a, es) => (inr a, es)
    end.

(** Runs [m] to its end and hands back how it ended; never throws. *)
Definition settle {A} (m : M A) : M (Error + A) :=
  fun h => let (r, es) := m h in (inr r, es).

(** One call to the outside: ask the world, record the call and its answer. *)
Definition call {A} (ask : Trace -> A) (ev : A -> Event) : M A :=
  fun h => let r := ask h in (inr r, [ev r]).

Declare Scope monad_scope.
Delimit Scope monad_scope with monad.
Notation "x <- m ;; k" := (bind m (fun x => k))
  (at level 100, m at next level, right associativity) : monad_scope.
Notation "m ;;; k" := (bind m (fun _ => k))
  (at level 100, right associativity) : monad_scope.
Local Open Scope monad_scope.

(** [for (const x of xs) body x]. *)
Fixpoint forEach {A} (body : A -> M unit) (xs : list A) : M unit :=
  match xs with
  | [] => ret tt
  | x :: rest => body x ;;; forEach body rest
  end.

(** [xs.map(async (x, i) => body i x)]: every callback is started and runs to
    its end whatever the others do.  The event loop is free to interleave
    the callbacks; the embedding fixes the schedule in which callback [i]
    finishes before callback [i + 1] starts. *)
Fixpoint mapAsync {A} (body : nat -> A -> M unit) (start : nat) (xs : list A)
  : M (list (Error + unit)) :=
  match xs with
  | [] => ret []
  | x :: rest =>
      r <- settle (body start x) ;;
      rs <- mapAsync body (S start) rest ;;
      ret (r :: rs)
  end.

(** [await Promise.all(promises)]: rejects with the first rejection. *)
Fixpoint promiseAll (rs : list (Error + unit)) : M unit :=
  match rs with
  | [] => ret tt
  | inl e :: _ => throw e
  | inr _ :: rest => promiseAll rest
  end.

(** [xs[i]] where the source goes on to format the element, which raises a
    TypeError on [undefined]. *)
Definition at_ {A} (xs : list A) (i : nat) : M A :=
  match nth_error xs i with
  | Some x => ret x
  | None => throw TypeError
  end.

(** [xs[i] = v] for [i <= xs.length]: replaces the element, or extends the
    array by one. *)
Definition arraySet {A} (xs : list A) (i : nat) (v : A) : list A :=
  firstn i xs ++ v :: skipn (S i) xs.

(** Lifting of pure results into [M]. *)
Definition liftE {A} (r : Error + A) : M A :=
  match r with
  | inl e => throw e
  | inr a => ret a
  end.

Definition orThrow {A} (o : option A) (e : Error) : M A :=
  match o with
  | Some a => ret a
  | None => throw e
  end.

(** ** The error signature decoder *)

Definition decodeErrorSignature (errorMessage : string) : string :=
  if JsString.includes errorMessage "0xfb8f41b2"
  then "ERC20: Insufficient allowance - please approve tokens first"
  else if JsString.includes errorMessage "0x4e487b71"
  then "Arithmetic overflow/underflow"
  else if JsString.includes errorMessage "0x4d5c4d5c"
  then "Invalid token address"
  else if JsString.includes errorMessage "0x8c5be1e5"
  then "ERC20: insufficient allowance"
  else if JsString.includes errorMessage "0xa9059cbb"
  then "ERC20: transfer amount exceeds balance"
  else "Unknown contract error".

(** ** Plan construction and validation *)

(** The three parallel arrays of [buildConsistentArrays]. *)
Record Arrays := {
  tokenData : list TokenRecord;
  addresses : list string;
  amounts : list Z
}.

(** [tokens.find(t => t.address === addr)]. *)
Definition findToken (addr : string) (tokens : list TokenRecord) : option TokenRecord :=
  find (fun t => String.eqb (address t) addr) tokens.

(** [token.balanceFormatted || '0']. *)
Definition balanceOrZero (token : TokenRecord) : string :=
  JsString.orElse (balanceFormatted token) "0".

(** Case-insensitive comparison of two addresses. *)
Definition sameAddress (a b : string) : bool :=
  String.eqb (JsString.toLowerCase a) (JsString.toLowerCase b).

(** The loop shared by [validateArrayConsistency] and
    [verifyArrayConsistency]: [tokens[i].address] against [addresses[i]]
    from index [i] on; [addr.toLowerCase()] on a missing element is a
    TypeError. *)
Fixpoint checkAligned (mismatch : nat -> Error) (i : nat)
         (tokens : list TokenRecord) (addrs : list string) : Error + unit :=
  match tokens with
  | [] => inr tt
  | token :: rest =>
      match nth_error addrs i with
      | None => inl TypeError
      | Some addr =>
          if sameAddress (address token) addr
          then checkAligned mismatch (S i) rest addrs
          else inl (mismatch i)
      end
  end.

Definition validateArrayConsistency (tokens : list TokenRecord) (addrs : list string)
           (amts : list Z) : Error + unit :=
  if negb (List.length tokens =? List.length addrs)%nat || negb (List.length addrs =? List.length amts)%nat
  then inl (LengthMismatch (List.length tokens) (List.length addrs) (List.length amts))
  else checkAligned AddressMismatch 0 tokens addrs.

Definition verifyArrayConsistency (operation : string) (tokens : list TokenRecord)
           (addrs : list string) (amts : list Z) : Error + unit :=
  checkAligned (VerifyMismatch operation) 0 tokens addrs.

(** [(totalQuote * BigInt(90)) / BigInt(100)]. *)
Definition minReceiveWei (totalQuote : Z) : Z := Z.quot (totalQuote * 90) 100.

(** How a run of [handleSwap] ends. *)
Inductive Outcome :=
| NotStarted
| Submitted
| Failed (e : Error).

Section Engine.

Context (D : Deps) (w : World) (st : AppState).

(** [dustTokens.filter(token => selectedTokens.includes(token.address))]. *)
Definition selectedTokensData : list TokenRecord :=
  filter (fun token => existsb (String.eqb (address token)) (selectedTokens st))
         (dustTokens st).

(** The body of the [forEach] of [buildConsistentArrays] after the token is
    found: the balance guard and the safe amount. *)
Definition safeAmountOf (token : TokenRecord) : Error + Z :=
  let balanceValue := parseFloat D (balanceOrZero token) in
  if JsNumber.isNaN balanceValue || JsNumber.leZero balanceValue
  then inl (InvalidBalance (symbol token) (balanceFormatted token))
  else
    match parseUnits D (balanceOrZero token) (decimals token) with
    | None => inl (InvalidDecimalNumber (balanceOrZero token))
    | Some balanceWei =>
        match dynamicBuffer balanceWei with
        | None => inl RangeError
        | Some safetyReduction => inr (balanceWei - safetyReduction)
        end
    end.

Definition buildStep (acc : Arrays) (index : nat) (addr : string) : Error + Arrays :=
  match findToken addr selectedTokensData with
  | None => inl (TokenNotFound addr)
  | Some token =>
      match safeAmountOf token with
      | inl e => inl e
      | inr safeAmount =>
          inr {| tokenData := arraySet (tokenData acc) index token;
                 addresses := arraySet (addresses acc) index addr;
                 amounts := arraySet (amounts acc) index safeAmount |}
      end
  end.

Fixpoint buildLoop (acc : Arrays) (index : nat) (selected : list string) : Error + Arrays :=
  match selected with
  | [] => inr acc
  | addr :: rest =>
      match buildStep acc index addr with
      | inl e => inl e
      | inr acc' => buildLoop acc' (S index) rest
      end
  end.

Definition buildConsistentArrays (selected : list string) : Error + Arrays :=
  buildLoop {| tokenData := []; addresses := []; amounts := [] |} 0%nat selected.

(** ** Allowances and approvals *)

(** [checkAllowance]: a failed read, like a missing client, counts as no
    allowance. *)
Definition checkAllowance (tokenAddress userAddress : string) : M Z :=
  if hasPublicClient w then
    r <- call (fun h => allowance w h tokenAddress userAddress (SPLIT_ROUTER D))
              (EvAllowance tokenAddress userAddress (SPLIT_ROUTER D)) ;;
    ret (match r with Returns a => Z.of_N a | Rejects _ => 0 end)
  else ret 0.

(** [approveToken]: the [amount] argument is overwritten by the buffered
    balance before anything is sent.  [writeContract] is the [mutate] of
    [useWriteContract]: it hands the request to the wallet and returns
    [undefined]; a refusal reaches the hook's [error] state and is never
    raised, so the [catch] around the call is not taken and the function
    goes on whatever the wallet answers. *)
Definition approveToken (tokenAddress : string) (amount : Z) : M bool :=
  let token := findToken tokenAddress (dustTokens st) in
  let tokenSymbol :=
    match token with
    | Some t => JsString.orElse (symbol t) "Unknown Token"
    | None => "Unknown Token"
    end in
  match token with
  | None => throw (NoBalance tokenSymbol)
  | Some token =>
      if negb (JsString.truthy (balanceFormatted token))
         || JsNumber.eqZero (parseFloat D (balanceFormatted token))
      then throw (NoBalance tokenSymbol)
      else
        balanceWei <- orThrow (parseUnits D (balanceOrZero token) (decimals token))
                              (InvalidDecimalNumber (balanceOrZero token)) ;;
        let bufferAmount := Z.quot (balanceWei * 1001) 1000 in
        let amount := bufferAmount in
        if negb (JsString.truthy (walletAddress st)) then throw WalletNotConnected
        else
          call (fun h => approve w h tokenAddress (SPLIT_ROUTER D) amount)
               (EvApprove tokenAddress (SPLIT_ROUTER D) amount) ;;;
          checkAllowance tokenAddress (walletAddress st) ;;;
          ret true
  end.

(** The callback of the concurrent approval pass (STEP 2). *)
Definition approvalCallback (A : Arrays) (index : nat) (token : TokenRecord) : M unit :=
  currentAllowance <- checkAllowance (address token) (walletAddress st) ;;
  requiredAmount <- at_ (amounts A) index ;;
  if currentAllowance <? requiredAmount then
    tryCatch (approveToken (address token) requiredAmount ;;; ret tt)
             (fun approvalError => throw (FailedToApprove (symbol token) approvalError))
  else ret tt.

Definition concurrentApprovals (A : Arrays) : M unit :=
  rs <- mapAsync (approvalCallback A) 0%nat (tokenData A) ;;
  promiseAll rs.

(** The logging loop "CHECKING CURRENT ALLOWANCES". *)
Definition logAllowances (A : Arrays) : M unit :=
  forEach (fun token => checkAllowance (address token) (walletAddress st) ;;; ret tt)
          (tokenData A).

(** The loop that fills [tokensNeedingApproval]. *)
Fixpoint collectNeedingApproval (A : Arrays) (i : nat) (tokens : list TokenRecord)
         (tokensNeedingApproval : list (TokenRecord * Z)) : M (list (TokenRecord * Z)) :=
  match tokens with
  | [] => ret tokensNeedingApproval
  | token :: rest =>
      allowance <- checkAllowance (address token) (walletAddress st) ;;
      amount <- at_ (amounts A) i ;;
      collectNeedingApproval A (S i) rest
        (if allowance <? amount
         then tokensNeedingApproval ++ [(token, amount)]
         else tokensNeedingApproval)
  end.

(** "Approve tokens one by one". *)
Definition approveOneByOne (tokensNeedingApproval : list (TokenRecord * Z)) : M unit :=
  forEach (fun '(token, amount) =>
             tryCatch (let bufferAmount := Z.quot (amount * 1001) 1000 in
                       approveToken (address token) bufferAmount ;;; ret tt)
                      (fun approvalError =>
                         throw (FailedToApprove (symbol token) approvalError)))
          tokensNeedingApproval.

Definition sequentialApprovals (A : Arrays) : M unit :=
  tokensNeedingApproval <- collectNeedingApproval A 0%nat (tokenData A) [] ;;
  approveOneByOne tokensNeedingApproval.

(** The balance re-check before the swap; it may overwrite
    [safeTokenAmounts[i]]. *)
Fixpoint recheckBalances (i : nat) (tokens : list TokenRecord)
         (safeTokenAmounts : list Z) : M (list Z) :=
  match tokens with
  | [] => ret safeTokenAmounts
  | token :: rest =>
      amount <- at_ safeTokenAmounts i ;;
      balanceWei <- orThrow (parseUnits D (balanceOrZero token) (decimals token))
                            (InvalidDecimalNumber (balanceOrZero token)) ;;
      buffer <- orThrow (dynamicBuffer balanceWei) RangeError ;;
      let maxSwappableAmount := balanceWei - buffer in
      let safeTokenAmounts' :=
        if amount >? maxSwappableAmount
        then arraySet safeTokenAmounts i maxSwappableAmount
        else safeTokenAmounts in
      if amount >? balanceWei then throw (AmountExceedsBalance (symbol token))
      else recheckBalances (S i) rest safeTokenAmounts'
  end.

(** ** Quotes *)

Definition quoteToken (amts : list Z) (i : nat) (token : TokenRecord) : M N :=
  tryCatch
    (if negb (hasPublicClient w) then throw NoPublicClient
     else
       amount <- at_ amts i ;;
       r <- call (fun h => getSwapQuote w h (address token) amount)
                 (EvGetSwapQuote (address token) amount) ;;
       match r with
       | Rejects msg => throw (CallFailed msg)
       | Returns quote =>
           if (quote =? 0)%N then throw (SwapAmountTooSmall (symbol token))
           else ret quote
       end)
    (fun error => throw (QuoteValidationFailed (symbol token) error)).

Fixpoint individualQuotes (amts : list Z) (i : nat) (tokens : list TokenRecord)
  : M (list N) :=
  match tokens with
  | [] => ret []
  | token :: rest =>
      quote <- quoteToken amts i token ;;
      quotes <- individualQuotes amts (S i) rest ;;
      ret (quote :: quotes)
  end.

Definition bulkQuote (addrs : list string) (amts : list Z) : M Z :=
  tryCatch
    (if negb (hasPublicClient w) then throw NoPublicClient
     else
       r <- call (fun h => getBulkSwapQuote w h addrs amts)
                 (EvGetBulkSwapQuote addrs amts) ;;
       match r with
       | Rejects msg => throw (CallFailed msg)
       | Returns (totalQuote, _) =>
           if (totalQuote =? 0)%N then throw TotalOutputZero
           else ret (Z.of_N totalQuote)
       end)
    (fun error => throw (BulkQuoteValidationFailed error)).

(** ** Gas estimate and submission *)

Definition hasHigherToken (addrs : list string) : bool :=
  existsb (fun addr => String.eqb (JsString.toLowerCase addr)
                                 (JsString.toLowerCase (HIGHER_TOKEN D))) addrs.

Definition estimateGas (addrs : list string) (amts : list Z) (minReceive : Z) : M unit :=
  tryCatch
    (if hasPublicClient w then
       r <- call (fun h => estimateContractGas w h addrs amts minReceive)
                 (EvEstimateGas addrs amts minReceive) ;;
       match r with
       | Rejects msg => throw (CallFailed msg)
       | Returns _ => ret tt
       end
     else ret tt)
    (fun gasError =>
       match gasError with
       | CallFailed msg => throw (GasEstimationFailed (decodeErrorSignature msg))
       | e => throw e
       end).

(** The swap is sent with the same [writeContract]: the call returns
    whatever the wallet answers, and the [catch] that decodes a failure is
    not taken.  The request names chain 8453 and the connected account;
    what a wallet on another chain does with it is part of its answer. *)
Definition submitSwap (addrs : list string) (amts : list Z) (minReceive : Z) : M unit :=
  tryCatch
    (call (fun h => executeBulkSwap w h addrs amts minReceive)
          (EvExecuteBulkSwap addrs amts minReceive) ;;;
     ret tt)
    (fun swapError =>
       match swapError with
       | CallFailed msg => throw (SwapFailed (decodeErrorSignature msg))
       | e => throw e
       end).

(** ** The pipeline *)

(** [handleSwap] from the validation of the freshly built arrays on. *)
Definition afterBuild (A : Arrays) : M unit :=
  liftE (validateArrayConsistency (tokenData A) (addresses A) (amounts A)) ;;;
  liftE (verifyArrayConsistency "SAFE" (tokenData A) (addresses A) (amounts A)) ;;;
  concurrentApprovals A ;;;
  logAllowances A ;;;
  sequentialApprovals A ;;;
  safeTokenAmounts <- recheckBalances 0%nat (tokenData A) (amounts A) ;;
  individualQuotes safeTokenAmounts 0%nat (tokenData A) ;;;
  totalQuote <- bulkQuote (addresses A) safeTokenAmounts ;;
  let minReceive := minReceiveWei totalQuote in
  if hasHigherToken (addresses A) then throw HigherToHigher
  else
    estimateGas (addresses A) safeTokenAmounts minReceive ;;;
    submitSwap (addresses A) safeTokenAmounts minReceive.

(** The [try] block of [handleSwap]. *)
Definition handleSwapBody : M unit :=
  if negb (JsString.truthy (SPLIT_ROUTER D)) || negb (JsString.truthy (walletAddress st))
  then throw MissingContractOrWallet
  else
    A <- liftE (buildConsistentArrays (selectedTokens st)) ;;
    afterBuild A.

(** [handleSwap], started after the history [h]. *)
Definition handleSwap (h : Trace) : Outcome * Trace :=
  if negb (isConnected st) || (List.length (selectedTokens st) =? 0)%nat
  then (NotStarted, [])
  else
    match handleSwapBody h with
    | (inl e, es) => (Failed e, es)
    | (inr _, es) => (Submitted, es)
    end.

(** ** Network verification (the "Verify" button) *)

Definition verifyNetworkAndContract : M bool :=
  tryCatch
    (chain <- (if hasPublicClient w then
                 r <- call (getChainId w) EvGetChainId ;;
                 match r with
                 | Returns c => ret (Some c)
                 | Rejects msg => throw (CallFailed msg)
                 end
               else ret None) ;;
     if negb (match chain with
              | Some c => (c =? 8453) || (c =? 84532)
              | None => false
              end)
     then ret false
     else
       contractCode <- (if hasPublicClient w then
                          r <- call (fun h => getCode w h (SPLIT_ROUTER D))
                                    (EvGetCode (SPLIT_ROUTER D)) ;;
                          match r with
                          | Returns c => ret c
                          | Rejects msg => throw (CallFailed msg)
                          end
                        else ret "") ;;
       if negb (JsString.truthy contractCode) || String.eqb contractCode "0x"
       then ret false
       else ret true)
    (fun _ => ret false).

End Engine.

(** ** Reference instances

    Executable stand-ins for what the theorems leave abstract, used to
    evaluate the pipeline on concrete inputs: [parseFloat] and [parseUnits]
    on plain decimal literals, and a few worlds. *)

Module Reference.

Definition digitOf (c : ascii) : option Z :=
  let n := nat_of_ascii c in
  if (48 <=? n)%nat && (n <=? 57)%nat then Some (Z.of_nat n - 48) else None.

(** The longest run of decimal digits at the head of [s]: its value, its
    length and the rest of the string. *)
Fixpoint readDigits (s : string) (value : Z) (count : nat) : Z * nat * string :=
  match s with
  | EmptyString => (value, count, s)
  | String c rest =>
      match digitOf c with
      | Some d => readDigits rest (10 * value + d) (S count)
      | None => (value, count, s)
      end
  end.

(** A decimal literal [-?digits(.digits)?]: the sign, the integer part, and
    the fraction as a numerator over [10 ^ fractionLength]. *)
Record Decimal := {
  negative : bool;
  integerPart : Z;
  fraction : Z;
  fractionLength : nat;
  digitCount : nat
}.

Definition readDecimal (s : string) : option Decimal :=
  let '(neg, body) :=
    match s with
    | String "-" rest => (true, rest)
    | _ => (false, s)
    end in
  let '(i, ni, afterInt) := readDigits body 0 0 in
  match afterInt with
  | EmptyString =>
      Some {| negative := neg; integerPart := i; fraction := 0;
              fractionLength := 0; digitCount := ni |}
  | String "." rest =>
      let '(f, nf, afterFrac) := readDigits rest 0 0 in
      match afterFrac with
      | EmptyString =>
          Some {| negative := neg; integerPart := i; fraction := f;
                  fractionLength := nf; digitCount := (ni + nf)%nat |}
      | _ => None
      end
  | _ => None
  end.

(** viem's [parseUnits] on a decimal literal: the fraction is padded to
    [decimals] digits, or rounded half up when it is longer. *)
Definition parseUnits (value : string) (decimals : Z) : option Z :=
  match readDecimal value with
  | None => None
  | Some d =>
      let len := Z.of_nat (fractionLength d) in
      let scaled :=
        if len <=? decimals
        then fraction d * 10 ^ (decimals - len)
        else
          let unit := 10 ^ (len - decimals) in
          fraction d / unit + (if 2 * (fraction d mod unit) >=? unit then 1 else 0) in
      let magnitude := integerPart d * 10 ^ decimals + scaled in
      Some (if negative d then - magnitude else magnitude)
  end.

(** The binary64 value nearest to [num / den], for positive [num], [den]. *)
Definition nearestDouble (neg : bool) (num den : Z) : spec_float :=
  match num with
  | Z0 => S754_zero neg
  | _ =>
      let '(q, e, l) := SFdiv_core_binary JsNumber.prec JsNumber.emax num 0 den 0 in
      binary_round_aux JsNumber.prec JsNumber.emax neg q e l
  end.

(** [parseFloat] on a decimal literal and on the spelled-out infinities;
    NaN on everything else. *)
Definition parseFloat (s : string) : spec_float :=
  if String.eqb s "Infinity" || String.eqb s "+Infinity" then S754_infinity false
  else if String.eqb s "-Infinity" then S754_infinity true
  else
    match readDecimal s with
    | None => S754_nan
    | Some d =>
        match digitCount d with
        | O => S754_nan
        | _ =>
            let den := 10 ^ Z.of_nat (fractionLength d) in
            nearestDouble (negative d) (integerPart d * den + fraction d) den
        end
    end.

Definition deps : Deps :=
  Build_Deps "0x5e41c6b6e2b9a8df1b3c2f7a9d0e4c8b7a6f5d43"
             "0x0578d8A44db98B23BF096A382e016e29a5Ce0ffe"
             parseFloat parseUnits.

(** Two tokens: A with 6 decimals and a balance of 1,000,000 units, B with
    18 decimals and a balance of 2 * 10^18 units. *)
Definition tokenA : TokenRecord :=
  {| address := "0xA0b86991c6218b36c1d19D4a2e9Eb0cE3606eB48"; symbol := "AAA";
     decimals := 6; balanceFormatted := "1";
     valueUSD := S754_zero false; source := "api" |}.

Definition tokenB : TokenRecord :=
  {| address := "0x4200000000000000000000000000000000000006"; symbol := "BBB";
     decimals := 18; balanceFormatted := "2";
     valueUSD := S754_zero false; source := "api" |}.

(** A token whose balance string is "Infinity". *)
Definition tokenInfinite : TokenRecord :=
  {| address := "0x833589fCD6eDb6E08f4c7C32D4f71b54bdA02913"; symbol := "INF";
     decimals := 18; balanceFormatted := "Infinity";
     valueUSD := S754_zero false; source := "api" |}.

Definition wallet : string := "0x1111111111111111111111111111111111111111".

Definition stateOf (tokens : list TokenRecord) : AppState :=
  {| walletAddress := wallet; isConnected := true; chainId := Some 8453;
     dustTokens := tokens; selectedTokens := map address tokens |}.

(** A world on chain [chain] whose router has bytecode [code], where every
    allowance read answers [allow], every per-token quote [quote] and the
    bulk quote [total], and every transaction is accepted. *)
Definition worldOf (chain : Z) (code : string) (allow quote total : N) : World :=
  {| hasPublicClient := true;
     getChainId := fun _ => Returns chain;
     getCode := fun _ _ => Returns code;
     allowance := fun _ _ _ _ => Returns allow;
     approve := fun _ _ _ _ => Returns tt;
     getSwapQuote := fun _ _ _ => Returns quote;
     getBulkSwapQuote := fun _ _ amts => Returns (total, map (fun _ => quote) amts);
     estimateContractGas := fun _ _ _ _ => Returns 210000%N;
     executeBulkSwap := fun _ _ _ _ => Returns tt |}.

(** Both tokens approved beforehand. *)
Definition preApproved : World :=
  worldOf 8453 "0x6080" (2 ^ 255)%N 500000%N 1000000%N.

(** Allowance reads that keep answering zero: the approval is accepted but
    not yet visible, or the read fails and falls back to zero. *)
Definition staleAllowance : World :=
  worldOf 8453 "0x6080" 0%N 500000%N 1000000%N.

(** A wallet on Ethereum mainnet, where the router has no code. *)
Definition wrongNetwork : World :=
  worldOf 1 "0x" 0%N 500000%N 1000000%N.

(** A router whose aggregate quote is one unit of the target token. *)
Definition oneUnitQuote : World :=
  worldOf 8453 "0x6080" (2 ^ 255)%N 1%N 1%N.

(** A router that quotes zero for every single token. *)
Definition zeroQuote : World :=
  worldOf 8453 "0x6080" (2 ^ 255)%N 0%N 1000000%N.

(** The target token itself, listed with a lower-case address. *)
Definition tokenHigher : TokenRecord :=
  {| address := "0x0578d8a44db98b23bf096a382e016e29a5ce0ffe"; symbol := "HIGHER";
     decimals := 18; balanceFormatted := "5";
     valueUSD := S754_zero false; source := "api" |}.

(** The plan of the selection [tokenA; tokenB]. *)
Definition planAB : Arrays :=
  {| tokenData := [tokenA; tokenB];
     addresses := [address tokenA; address tokenB];
     amounts := [999900; 1999800000000000000] |}.

(** The plan of the selection [tokenA]. *)
Definition planA : Arrays :=
  {| tokenData := [tokenA]; addresses := [address tokenA]; amounts := [999900] |}.

(** Arrays in which token A sits at the index of the address of token B. *)
Definition misaligned : Arrays :=
  {| tokenData := [tokenA]; addresses := [address tokenB]; amounts := [999900] |}.

(** The states in which exactly the listed tokens are detected and selected. *)
Definition stateA : AppState := stateOf [tokenA].
Definition stateAB : AppState := stateOf [tokenA; tokenB].
Definition stateHigher : AppState := stateOf [tokenA; tokenHigher].

End Reference.

(** ** A unary program logic for [M] *)

(** [emits P Q m]: whatever the history, every event [m] adds satisfies [P],
    and a returned value satisfies [Q]. *)
Definition emits {A} (P : Event -> Prop) (Q : A -> Prop) (m : M A) : Prop :=
  forall h,
    Forall P (snd (m h)) /\
    match fst (m h) with
    | inr a => Q a
    | inl _ => True
    end.

Definition anyValue {A} : A -> Prop := fun _ => True.

(** ** Predicates of the claims *)

(** Positional alignment: every token record sits at the index of its own
    address, compared case-insensitively. *)
Definition aligned (tokens : list TokenRecord) (addrs : list string) : Prop :=
  forall i t, nth_error tokens i = Some t ->
              exists addr, nth_error addrs i = Some addr /\ sameAddress (address t) addr = true.

Definition consistent (A : Arrays) : Prop :=
  List.length (tokenData A) = List.length (addresses A) /\
  List.length (addresses A) = List.length (amounts A) /\
  aligned (tokenData A) (addresses A).

(** The spec's [ArrayConsistencyMismatch]. *)
Definition isArrayConsistencyError (e : Error) : bool :=
  match e with
  | LengthMismatch _ _ _ => true
  | AddressMismatch _ => true
  | _ => false
  end.

(** What [checkAllowance] returns when it reads after the history [h]. *)
Definition allowanceSeen (D : Deps) (w : World) (h : Trace) (token owner : string) : Z :=
  if hasPublicClient w then
    match allowance w h token owner (SPLIT_ROUTER D) with
    | Returns a => Z.of_N a
    | Rejects _ => 0
    end
  else 0.

(** An approval of the router for the buffered balance of the token that
    [dustTokens] holds under [token]. *)
Definition approvalFromBalance (D : Deps) (st : AppState)
           (token spender : string) (amount : Z) : Prop :=
  spender = SPLIT_ROUTER D /\
  exists t balanceWei,
    findToken token (dustTokens st) = Some t /\
    parseUnits D (balanceOrZero t) (decimals t) = Some balanceWei /\
    amount = Z.quot (balanceWei * 1001) 1000.

(** [token] is the address of an entry of the plan whose required amount was
    read as not covered by the allowance. *)
Definition approvalForEntry (D : Deps) (w : World) (st : AppState) (A : Arrays)
           (token : string) : Prop :=
  exists i t required h,
    nth_error (tokenData A) i = Some t /\ address t = token /\
    nth_error (amounts A) i = Some required /\
    allowanceSeen D w h token (walletAddress st) < required.

Definition isApprovalOf (token : string) (ev : Event) : bool :=
  match ev with
  | EvApprove t _ _ _ => String.eqb t token
  | _ => false
  end.

(** The number of approval transactions sent for [token]. *)
Definition approvalsOf (token : string) (es : Trace) : nat :=
  List.length (filter (isApprovalOf token) es).

Definition isGasEstimate (ev : Event) : bool :=
  match ev with EvEstimateGas _ _ _ _ => true | _ => false end.

Definition isSwapSubmission (ev : Event) : bool :=
  match ev with EvExecuteBulkSwap _ _ _ _ => true | _ => false end.

Definition isNetworkCheck (ev : Event) : bool :=
  match ev with EvGetChainId _ | EvGetCode _ _ => true | _ => false end.

(** A per-token or aggregate quote that resolved to zero. *)
Definition isZeroQuote (ev : Event) : bool :=
  match ev with
  | EvGetSwapQuote _ _ (Returns q) => (q =? 0)%N
  | EvGetBulkSwapQuote _ _ (Returns (total, _)) => (total =? 0)%N
  | _ => false
  end.

(** An entry of [tokensNeedingApproval]. *)
Definition needsApproval (D : Deps) (w : World) (st : AppState) (A : Arrays)
           (entry : TokenRecord * Z) : Prop :=
  approvalForEntry D w st A (address (fst entry)).

Definition notGasNorSwap (ev : Event) : Prop :=
  isGasEstimate ev = false /\ isSwapSubmission ev = false.

(** [dustGuarded m]: when a quote of [m] resolves to zero, [m] ends in
    [DustTooSmall] without a gas estimate or a swap submission. *)
Definition dustGuarded {A} (m : M A) : Prop :=
  forall h,
    existsb isZeroQuote (snd (m h)) = true ->
    (exists e, fst (m h) = inl e /\ isDustTooSmall e = true) /\
    Forall notGasNorSwap (snd (m h)).

(** One when [addr] is [token], zero otherwise. *)
Definition unitCost (token addr : string) : nat :=
  if String.eqb addr token then 1%nat else 0%nat.

(** The number of plan entries and of [tokensNeedingApproval] entries that
    belong to [token]. *)
Definition countAddress (token : string) (tokens : list TokenRecord) : nat :=
  List.length (filter (fun t => String.eqb (address t) token) tokens).

Definition countNeeding (token : string) (needing : list (TokenRecord * Z)) : nat :=
  countAddress token (map fst needing).

(** [costs token n Q m]: [m] sends at most [n] approvals for [token], and a
    returned value satisfies [Q]. *)
Definition costs {A} (token : string) (n : nat) (Q : A -> Prop) (m : M A) : Prop :=
  forall h,
    (approvalsOf token (snd (m h)) <= n)%nat /\
    match fst (m h) with
    | inr a => Q a
    | inl _ => True
    end.

(** The reading of C2: no token gets more than one approval in a run. *)
Definition atMostOneApproval (D : Deps) (w : World) (st : AppState) : Prop :=
  forall token, (approvalsOf token (snd (handleSwap D w st [])) <= 1)%nat.

(** The reading of C5: the guard buffer is the larger of a ten-thousandth of
    the balance and the fixed minimum. *)
Definition spendByMaxFormula (D : Deps) (st : AppState) : Prop :=
  forall A i t amt,
    buildConsistentArrays D st (selectedTokens st) = inr A ->
    nth_error (tokenData A) i = Some t ->
    nth_error (amounts A) i = Some amt ->
    exists balanceWei,
      parseUnits D (balanceOrZero t) (decimals t) = Some balanceWei /\
      amt = balanceWei - Z.max (balanceWei / 10000) 100000.

(** The reading of C1: an approval is for the required amount of the plan
    with the 0.1% buffer. *)
Definition approvesBufferedRequired (D : Deps) (w : World) (st : AppState) : Prop :=
  forall A i t required spender amt r,
    buildConsistentArrays D st (selectedTokens st) = inr A ->
    nth_error (tokenData A) i = Some t ->
    nth_error (amounts A) i = Some required ->
    In (EvApprove (address t) spender amt r) (snd (handleSwap D w st [])) ->
    amt = Z.quot (required * 1001) 1000.

(** ** Selection controls *)

(** [toggleTokenSelection]: the update a token's checkbox applies to
    [selectedTokens]. *)
Definition toggleTokenSelection (tokenAddress : string) (prev : list string) : list string :=
  if existsb (String.eqb tokenAddress) prev
  then filter (fun addr => negb (String.eqb addr tokenAddress)) prev
  else prev ++ [tokenAddress].

(** [toggleSelectAll]: the update of the select-all button; it compares
    lengths only. *)
Definition toggleSelectAll (dust : list TokenRecord) (prev : list string) : list string :=
  let allAddresses := map address dust in
  if (List.length prev =? List.length allAddresses)%nat then [] else allAddresses.

Definition isAllSelected (st : AppState) : bool :=
  (List.length (selectedTokens st) =? List.length (dustTokens st))%nat.

(** What the user can click in the token list: the checkbox rendered for
    [dustTokens[index]], or the select-all button. *)
Inductive Click :=
| ClickToken (index : nat)
| ClickSelectAll.

Definition click (dust : list TokenRecord) (selected : list string) (c : Click)
  : list string :=
  match c with
  | ClickToken index =>
      match nth_error dust index with
      | Some token => toggleTokenSelection (address token) selected
      | None => selected
      end
  | ClickSelectAll => toggleSelectAll dust selected
  end.

(** The selection after a series of clicks, from the initial state
    [useState([])], while the token list stays [dust]. *)
Definition clicks (dust : list TokenRecord) (cs : list Click) : list string :=
  fold_left (click dust) cs [].

Definition withSelection (st : AppState) (selected : list string) : AppState :=
  {| walletAddress := walletAddress st; isConnected := isConnected st;
     chainId := chainId st; dustTokens := dustTokens st;
     selectedTokens := selected |}.

(** ** Maintenance and debug tools *)

Section Tools.

Context (D : Deps) (w : World) (st : AppState).

(** [address || ''], the owner the tools pass to [checkAllowance]. *)
Definition ownerOrEmpty : string := JsString.orElse (walletAddress st) "".

(** [revokeApproval]: an approval of zero for the router, sent with the
    same [writeContract]; the [catch] would swallow any failure. *)
Definition revokeApproval (tokenAddress : string) : M unit :=
  tryCatch
    (call (fun h => approve w h tokenAddress (SPLIT_ROUTER D) 0)
          (EvApprove tokenAddress (SPLIT_ROUTER D) 0) ;;;
     ret tt)
    (fun _ => ret tt).

(** [dustTokens.find(t => selectedTokens.includes(t.address))], the token
    the Revoke and Debug buttons act on. *)
Definition firstSelectedToken : option TokenRecord :=
  find (fun t => existsb (String.eqb (address t)) (selectedTokens st)) (dustTokens st).

(** The Revoke button. *)
Definition revokeButton : M unit :=
  match firstSelectedToken with
  | Some selectedToken => revokeApproval (address selectedToken)
  | None => ret tt
  end.

(** [debugTokenState]: reads the allowance and parses the balance of one
    token; every failure is caught. *)
Definition debugTokenState (tokenAddress : string) : M unit :=
  tryCatch
    (match findToken tokenAddress (dustTokens st) with
     | None => ret tt
     | Some token =>
         checkAllowance D w (address token) ownerOrEmpty ;;;
         orThrow (parseUnits D (balanceOrZero token) (decimals token))
                 (InvalidDecimalNumber (balanceOrZero token)) ;;;
         ret tt
     end)
    (fun _ => ret tt).

(** The Debug button. *)
Definition debugButton : M unit :=
  match firstSelectedToken with
  | Some selectedToken => debugTokenState (address selectedToken)
  | None => ret tt
  end.

(** The development button "Debug: Check ALL Allowances". *)
Definition checkAllButton : M unit :=
  forEach (fun tokenAddress =>
             match findToken tokenAddress (dustTokens st) with
             | Some _ => checkAllowance D w tokenAddress ownerOrEmpty ;;; ret tt
             | None => ret tt
             end)
          (selectedTokens st).

(** [testSingleApproval]: the balance of the first token of
    [selectedTokensData] is parsed outside the [try]; the reads and the
    approval run inside it. *)
Definition testSingleApproval : M unit :=
  match selectedTokensData st with
  | [] => ret tt
  | testToken :: _ =>
      amount <- orThrow (parseUnits D (balanceOrZero testToken) (decimals testToken))
                        (InvalidDecimalNumber (balanceOrZero testToken)) ;;
      tryCatch
        (checkAllowance D w (address testToken) ownerOrEmpty ;;;
         approveToken D w st (address testToken) amount ;;;
         checkAllowance D w (address testToken) ownerOrEmpty ;;;
         ret tt)
        (fun _ => ret tt)
  end.

(** An entry of [insufficientAllowances]. *)
Record Shortfall := {
  shortToken : string;
  shortSymbol : string;
  has : Z;
  needs : Z;
  shortfall : Z
}.

(** The loop of [checkAllAllowances] from index [i] on. *)
Fixpoint collectInsufficient (amts : list Z) (i : nat) (tokens : list string)
         (insufficientAllowances : list Shortfall) : M (list Shortfall) :=
  match tokens with
  | [] => ret insufficientAllowances
  | tokenAddress :: rest =>
      let token := findToken tokenAddress (dustTokens st) in
      allowance <- checkAllowance D w tokenAddress ownerOrEmpty ;;
      amount <- at_ amts i ;;
      collectInsufficient amts (S i) rest
        (if allowance <? amount
         then insufficientAllowances ++
              [{| shortToken := tokenAddress;
                  shortSymbol := match token with
                                 | Some t => JsString.orElse (symbol t) "Unknown"
                                 | None => "Unknown"
                                 end;
                  has := allowance; needs := amount;
                  shortfall := amount - allowance |}]
         else insufficientAllowances)
  end.

(** [checkAllAllowances]; its closing [throw], which reports how many
    allowances fall short, is the [inl] of the result. *)
Definition checkAllAllowances (tokens : list string) (amts : list Z)
  : M (list Shortfall + unit) :=
  insufficientAllowances <- collectInsufficient amts 0%nat tokens [] ;;
  if (0 <? List.length insufficientAllowances)%nat
  then ret (inl insufficientAllowances)
  else ret (inr tt).

End Tools.

(** ** Helpers of the swap that are defined and never called *)

(** [amounts.reduce((sum, amt) => sum + amt, BigInt(0))]. *)
Definition totalInput (amts : list Z) : Z := fold_left Z.add amts 0.

(** [calculateMinReceive], [calculateSafeMinReceive] and
    [tryProgressiveMinReceive]: 0.05% of the input. *)
Definition calculateMinReceive (tokenData : list TokenRecord) (amts : list Z) : Z :=
  Z.quot (totalInput amts) 2000.

Definition calculateSafeMinReceive (tokenData : list TokenRecord) (amts : list Z) : Z :=
  Z.quot (totalInput amts) 2000.

Definition tryProgressiveMinReceive (tokenData : list TokenRecord) (amts : list Z)
           (addrs : list string) : Z :=
  Z.quot (totalInput amts) 2000.

(** The exceptions of [validateSwapInputs]. *)
Inductive InputError :=
| InvalidAmount (index : nat) (amount : Z)
| AmountTooLarge (index : nat) (amount : Z)
| InvalidMinReceive (minReceive : Z)
| DivisionByZero.

(** The loop of [validateSwapInputs] over [amounts], from index [i] on. *)
Fixpoint checkAmounts (i : nat) (amts : list Z) : InputError + unit :=
  match amts with
  | [] => inr tt
  | amount :: rest =>
      if amount <=? 0 then inl (InvalidAmount i amount)
      else
        let maxSafeAmount := Z.shiftl 1 128 - 1 in
        if amount >? maxSafeAmount then inl (AmountTooLarge i amount)
        else checkAmounts (S i) rest
  end.

(** [validateSwapInputs]; the ratio it logs at the end divides by the total
    input, and a bigint division by zero is a RangeError. *)
Definition validateSwapInputs (tokens : list TokenRecord) (amts : list Z) (minReceive : Z)
  : InputError + bool :=
  match checkAmounts 0 amts with
  | inl e => inl e
  | inr _ =>
      if minReceive <=? 0 then inl (InvalidMinReceive minReceive)
      else if totalInput amts =? 0 then inl DivisionByZero
      else inr true
  end.

(** [validateMinReceive]; [None] is the RangeError of the division by a zero
    [estimatedOutput].  The ratio is a JS number, compared with the literals
    50 and 95. *)
Definition validateMinReceive (estimatedOutput minReceive : Z) : option Z :=
  if estimatedOutput =? 0 then None
  else
    let ratio := JsNumber.ofBigInt (Z.quot (minReceive * 100) estimatedOutput) in
    if SFltb ratio (JsNumber.ofBigInt 50)
    then Some (Z.quot (estimatedOutput * 70) 100)
    else if SFltb (JsNumber.ofBigInt 95) ratio
    then Some (Z.quot (estimatedOutput * 90) 100)
    else Some minReceive.

(** [a / b] on bigints; [None] is the RangeError of a division by zero. *)
Definition bigDiv (a b : Z) : option Z :=
  if b =? 0 then None else Some (Z.quot a b).

(** The callback of [scaleDownAmounts]. *)
Definition scaleAmount (maxAmountWei amount : Z) : option Z :=
  let minAmountWei := 1000000000000000000 in
  if amount >? maxAmountWei then
    match bigDiv amount maxAmountWei with
    | None => None
    | Some scaleFactor => bigDiv amount scaleFactor
    end
  else if amount <? minAmountWei then
    match bigDiv minAmountWei amount with
    | None => None
    | Some scaleUpFactor => Some (amount * scaleUpFactor)
    end
  else Some amount.

(** [scaleDownAmounts]: [amounts.map] of the callback; the first RangeError
    ends it. *)
Fixpoint scaleDownAmounts (amts : list Z) (maxAmountWei : Z) : option (list Z) :=
  match amts with
  | [] => Some []
  | amount :: rest =>
      match scaleAmount maxAmountWei amount with
      | None => None
      | Some scaledAmount =>
          match scaleDownAmounts rest maxAmountWei with
          | None => None
          | Some scaledAmounts => Some (scaledAmount :: scaledAmounts)
          end
      end
  end.

(** The default of [maxAmountWei]. *)
Definition defaultMaxAmountWei : Z := 1000000000000000000000.

(** ** Error reporting *)





(** ** Predicates on events and runs *)

Definition isAllowanceRead (ev : Event) : bool :=
  match ev with EvAllowance _ _ _ _ => true | _ => false end.

Definition isApproval (ev : Event) : bool :=
  match ev with EvApprove _ _ _ _ => true | _ => false end.

(** The events of the approval phase, and those of the quote and swap
    phase. *)
Definition isApprovalPhase (ev : Event) : bool :=
  isAllowanceRead ev || isApproval ev.

Definition isSwapPhase (ev : Event) : bool :=
  match ev with
  | EvGetSwapQuote _ _ _ | EvGetBulkSwapQuote _ _ _
  | EvEstimateGas _ _ _ _ | EvExecuteBulkSwap _ _ _ _ => true
  | _ => false
  end.

(** What precedes the aggregate quote in a run: allowance reads, approvals
    and per-token quotes. *)
Definition isPreparation (ev : Event) : bool :=
  match ev with
  | EvAllowance _ _ _ _ | EvApprove _ _ _ _ | EvGetSwapQuote _ _ _ => true
  | _ => false
  end.

(** The errors [approveToken] raises before it sends anything. *)
Definition isPreflightError (e : Error) : bool :=
  match e with
  | NoBalance _ | InvalidDecimalNumber _ | WalletNotConnected => true
  | _ => false
  end.

(** The last three calls of a run that reaches the submission: the aggregate
    quote, the gas estimate and the submission, all for the same arrays, the
    last two with 90% of the quoted total as minimum. *)
Definition submissionTail (addrs : list string) (amts : list Z) (total : N)
           (quotes : list N) (gas : N) (answer : Resp unit) : Trace :=
  [EvGetBulkSwapQuote addrs amts (Returns (total, quotes));
   EvEstimateGas addrs amts (minReceiveWei (Z.of_N total)) (Returns gas);
   EvExecuteBulkSwap addrs amts (minReceiveWei (Z.of_N total)) answer].

(** A run of [m] for the arrays [addrs] and [amts] fails without having
    sent the swap, or returns with [submissionTail] after nothing but
    preparation, whatever the wallet answers to the swap. *)
Definition reachesSubmission (D : Deps) (addrs : list string) (amts : list Z)
           (m : M unit) : Prop :=
  forall h,
    (exists e, fst (m h) = inl e /\
               Forall (fun ev => isSwapSubmission ev = false) (snd (m h))) \/
    (exists pre total quotes gas answer,
        snd (m h) = pre ++ submissionTail addrs amts total quotes gas answer /\
        Forall (fun ev => isPreparation ev = true) pre /\
        (0 < total)%N /\
        hasHigherToken D addrs = false /\
        fst (m h) = inr tt).

(** The events of a run of [m] come in two phases: first events of [P1]
    only, then events of [P2] only. *)
Definition inPhases (P1 P2 : Event -> Prop) {A} (m : M A) : Prop :=
  forall h, exists es1 es2,
    snd (m h) = es1 ++ es2 /\ Forall P1 es1 /\ Forall P2 es2.

(** The allowance an allowance read stands for: its answer, or zero when the
    read failed. *)
Definition readValue (ev : Event) : Z :=
  match ev with
  | EvAllowance _ _ _ (Returns a) => Z.of_N a
  | _ => 0
  end.

(** A per-token quote is asked for an entry of the arrays [A]. *)
Definition quotesPlanEntry (A : Arrays) (ev : Event) : Prop :=
  match ev with
  | EvGetSwapQuote token amountIn _ =>
      exists i t, nth_error (tokenData A) i = Some t /\ address t = token /\
                  nth_error (amounts A) i = Some amountIn
  | _ => True
  end.

(** [succeeds Q m]: whatever the history, [m] returns, with a value in
    [Q]. *)
Definition succeeds {A} (Q : A -> Prop) (m : M A) : Prop :=
  forall h, exists a, fst (m h) = inr a /\ Q a.

(** A chain and a wallet that let the plan [A] through: every allowance
    read covers the amount of its entry, every quote is answered and is not
    zero, the gas estimate and the submission are accepted. *)
Definition cooperative (D : Deps) (w : World) (st : AppState) (A : Arrays) : Prop :=
  hasPublicClient w = true /\
  (forall h i t amt,
      nth_error (tokenData A) i = Some t -> nth_error (amounts A) i = Some amt ->
      amt <= allowanceSeen D w h (address t) (walletAddress st)) /\
  (forall h token amountIn,
      exists quote, getSwapQuote w h token amountIn = Returns quote /\ quote <> 0%N) /\
  (forall h,
      exists total quotes,
        getBulkSwapQuote w h (addresses A) (amounts A) = Returns (total, quotes) /\
        total <> 0%N) /\
  (forall h minReceive,
      exists gas,
        estimateContractGas w h (addresses A) (amounts A) minReceive = Returns gas) /\
  (forall h minReceive,
      exists u, executeBulkSwap w h (addresses A) (amounts A) minReceive = Returns u).

(** [raises N Q m]: whatever the history, an exception of [m] satisfies
    [N] and a returned value satisfies [Q]. *)
Definition raises {A} (N : Error -> Prop) (Q : A -> Prop) (m : M A) : Prop :=
  forall h,
    match fst (m h) with
    | inl e => N e
    | inr a => Q a
    end.

(** The exceptions of a per-token quote and of the aggregate quote, before
    they are wrapped. *)
Definition isQuoteError (e : Error) : bool :=
  match e with
  | NoPublicClient | CallFailed _ | SwapAmountTooSmall _ => true
  | _ => false
  end.

Definition isBulkQuoteError (e : Error) : bool :=
  match e with
  | NoPublicClient | CallFailed _ | TotalOutputZero => true
  | _ => false
  end.

(** The exceptions a run of [handleSwap] can end in: those of the entry
    check and of the plan construction, a wrapped pre-flight failure of an
    approval, the balance re-check, a wrapped quote failure, the
    target-token check, and a decoded failure of the gas estimate.  A
    refusal of an approval or of the swap is not among them. *)
Definition isRunError (e : Error) : bool :=
  match e with
  | MissingContractOrWallet | TokenNotFound _ | InvalidBalance _ _
  | InvalidDecimalNumber _ | RangeError => true
  | FailedToApprove _ cause => isPreflightError cause
  | AmountExceedsBalance _ => true
  | QuoteValidationFailed _ cause => isQuoteError cause
  | BulkQuoteValidationFailed cause => isBulkQuoteError cause
  | HigherToHigher | GasEstimationFailed _ => true
  | _ => false
  end.

(** ** Further reference instances *)

(** A browser without a public client: the wallet still answers. *)
Definition clientless : World :=
  {| hasPublicClient := false;
     getChainId := getChainId Reference.staleAllowance;
     getCode := getCode Reference.staleAllowance;
     allowance := allowance Reference.staleAllowance;
     approve := approve Reference.staleAllowance;
     getSwapQuote := getSwapQuote Reference.staleAllowance;
     getBulkSwapQuote := getBulkSwapQuote Reference.staleAllowance;
     estimateContractGas := estimateContractGas Reference.staleAllowance;
     executeBulkSwap := executeBulkSwap Reference.staleAllowance |}.

(** Base, with a router address that holds no code: the tokens answer the
    allowance reads with zero and take the approvals, every call to the
    router fails. *)
Definition routerWithoutCode : World :=
  {| hasPublicClient := true;
     getChainId := fun _ => Returns 8453;
     getCode := fun _ _ => Returns "0x";
     allowance := fun _ _ _ _ => Returns 0%N;
     approve := fun _ _ _ _ => Returns tt;
     getSwapQuote := fun _ _ _ => Rejects "returned no data";
     getBulkSwapQuote := fun _ _ _ => Rejects "returned no data";
     estimateContractGas := fun _ _ _ _ => Rejects "returned no data";
     executeBulkSwap := fun _ _ _ _ => Returns tt |}.

(** A wallet that rejects the swap transaction. *)
Definition rejectingWallet : World :=
  {| hasPublicClient := true;
     getChainId := getChainId Reference.preApproved;
     getCode := getCode Reference.preApproved;
     allowance := allowance Reference.preApproved;
     approve := approve Reference.preApproved;
     getSwapQuote := getSwapQuote Reference.preApproved;
     getBulkSwapQuote := getBulkSwapQuote Reference.preApproved;
     estimateContractGas := estimateContractGas Reference.preApproved;
     executeBulkSwap := fun _ _ _ _ => Rejects "User rejected the request." |}.

(** A selection that holds token A and a token with an unusable balance. *)
Definition stateBlocked : AppState :=
  Reference.stateOf [Reference.tokenA; Reference.tokenInfinite].

(** A token whose balance, 0.005 with 6 decimals, is 5000 smallest units. *)
Definition tokenTiny : TokenRecord :=
  {| address := "0xd9aAEc86B65D86f6A7B5B1b0c42FFA531710b6CA"; symbol := "TINY";
     decimals := 6; balanceFormatted := "0.005";
     valueUSD := S754_zero false; source := "api" |}.

(** * Properties *)

Section ProgramLogic.

Context {A B : Type}.
Variable P : Event -> Prop.

Lemma emits_ret (Q : A -> Prop) (a : A) : Q a -> emits P Q (ret a).
Proof. intros Ha h; cbn; auto. Qed.

Lemma emits_throw (Q : A -> Prop) (e : Error) : emits P Q (throw e).
Proof. intros h; cbn; auto. Qed.

Lemma emits_bind (Q1 : A -> Prop) (Q : B -> Prop) (m : M A) (f : A -> M B) :
  emits P Q1 m -> (forall a, Q1 a -> emits P Q (f a)) -> emits P Q (bind m f).
Proof.
  intros Hm Hf h. unfold bind.
  destruct (Hm h) as [Hes Hq]. destruct (m h) as [[e | a] es]; cbn in *.
  - auto.
  - destruct (Hf a Hq (h ++ es)) as [Hes' Hq'].
    destruct (f a (h ++ es)) as [r es']; cbn in *.
    split; [apply Forall_app; auto | exact Hq'].
Qed.

Lemma emits_tryCatch (Q : A -> Prop) (m : M A) (handler : Error -> M A) :
  emits P Q m -> (forall e, emits P Q (handler e)) -> emits P Q (tryCatch m handler).
Proof.
  intros Hm Hh h. unfold tryCatch.
  destruct (Hm h) as [Hes Hq]. destruct (m h) as [[e | a] es]; cbn in *.
  - destruct (Hh e (h ++ es)) as [Hes' Hq'].
    destruct (handler e (h ++ es)) as [r es']; cbn in *.
    split; [apply Forall_app; auto | exact Hq'].
  - auto.
Qed.

Lemma emits_settle (Q : A -> Prop) (m : M A) :
  emits P Q m -> emits P anyValue (settle m).
Proof.
  intros Hm h. unfold settle. destruct (Hm h) as [Hes _].
  destruct (m h) as [r es]; cbn in *. split; [exact Hes | exact I].
Qed.

Lemma emits_call (Q : A -> Prop) (ask : Trace -> A) (ev : A -> Event) :
  (forall h, P (ev (ask h)) /\ Q (ask h)) -> emits P Q (call ask ev).
Proof. intros H h; cbn. destruct (H h); auto. Qed.

Lemma emits_liftE (Q : A -> Prop) (r : Error + A) :
  (forall a, r = inr a -> Q a) -> emits P Q (liftE r).
Proof. intros H h. destruct r; cbn; auto. Qed.

Lemma emits_orThrow (Q : A -> Prop) (o : option A) (e : Error) :
  (forall a, o = Some a -> Q a) -> emits P Q (orThrow o e).
Proof. intros H h. destruct o; cbn; auto. Qed.

Lemma emits_at (Q : A -> Prop) (xs : list A) (i : nat) :
  (forall a, nth_error xs i = Some a -> Q a) -> emits P Q (at_ xs i).
Proof. intros H h. unfold at_. destruct (nth_error xs i); cbn; auto. Qed.

End ProgramLogic.

Lemma bind_ret_l {A B} (a : A) (f : A -> M B) (h : Trace) :
  bind (ret a) f h = f a (h ++ []).
Proof. unfold bind, ret. destruct (f a (h ++ [])); reflexivity. Qed.

Lemma bind_trace_after {A B} (m : M A) (f : A -> M B) (h : Trace) (a : A) (es : Trace) :
  m h = (inr a, es) -> snd (bind m f h) = es ++ snd (f a (h ++ es)).
Proof.
  intros Hm. unfold bind. rewrite Hm. destruct (f a (h ++ es)) as [r es']. reflexivity.
Qed.

Lemma emits_weaken {A} (P P' : Event -> Prop) (Q Q' : A -> Prop) (m : M A) :
  emits P Q m -> (forall ev, P ev -> P' ev) -> (forall a, Q a -> Q' a) -> emits P' Q' m.
Proof.
  intros Hm HP HQ h. destruct (Hm h) as [Hes Hq]. split.
  - eapply Forall_impl; eauto.
  - destruct (fst (m h)); auto.
Qed.

Lemma emits_forEach {A} (P : Event -> Prop) (body : A -> M unit) (xs : list A) :
  (forall x, In x xs -> emits P anyValue (body x)) -> emits P anyValue (forEach body xs).
Proof.
  induction xs as [| x rest IH]; intros Hb; cbn [forEach].
  - apply emits_ret; exact I.
  - apply emits_bind with (Q1 := anyValue).
    + apply Hb; left; reflexivity.
    + intros _ _. apply IH. intros y Hy. apply Hb; right; exact Hy.
Qed.

Lemma emits_mapAsync {A} (P : Event -> Prop) (body : nat -> A -> M unit)
      (xs : list A) (start : nat) :
  (forall j x, nth_error xs j = Some x -> emits P anyValue (body (start + j)%nat x)) ->
  emits P anyValue (mapAsync body start xs).
Proof.
  revert start. induction xs as [| x rest IH]; intros start Hb; cbn [mapAsync].
  - apply emits_ret; exact I.
  - apply emits_bind with (Q1 := anyValue).
    + eapply emits_settle. specialize (Hb 0%nat x eq_refl).
      rewrite Nat.add_0_r in Hb. exact Hb.
    + intros r _. apply emits_bind with (Q1 := anyValue).
      * apply IH. intros j y Hj. specialize (Hb (S j) y Hj).
        rewrite Nat.add_succ_r in Hb. exact Hb.
      * intros rs _. apply emits_ret; exact I.
Qed.

Lemma emits_promiseAll (P : Event -> Prop) (rs : list (Error + unit)) :
  emits P anyValue (promiseAll rs).
Proof.
  induction rs as [| [e | u] rest IH]; cbn [promiseAll].
  - apply emits_ret; exact I.
  - apply emits_throw.
  - exact IH.
Qed.

(** ** Lists and arrays *)

Lemma arraySet_at_length {A} (xs : list A) (v : A) :
  arraySet xs (List.length xs) v = xs ++ [v].
Proof.
  unfold arraySet. rewrite firstn_all.
  rewrite skipn_all2 by (apply Nat.le_succ_diag_r). reflexivity.
Qed.

Lemma Forall2_nth_error_l {A B} (R : A -> B -> Prop) (l1 : list A) (l2 : list B) :
  Forall2 R l1 l2 ->
  forall i a, nth_error l1 i = Some a -> exists b, nth_error l2 i = Some b /\ R a b.
Proof.
  induction 1 as [| x y l1 l2 Hxy _ IH]; intros [| i] a Hi; cbn in *; try discriminate.
  - inversion Hi; subst. eauto.
  - eauto.
Qed.

Lemma Forall2_nth_error_r {A B} (R : A -> B -> Prop) (l1 : list A) (l2 : list B) :
  Forall2 R l1 l2 ->
  forall i b, nth_error l2 i = Some b -> exists a, nth_error l1 i = Some a /\ R a b.
Proof.
  induction 1 as [| x y l1 l2 Hxy _ IH]; intros [| i] b Hi; cbn in *; try discriminate.
  - inversion Hi; subst. eauto.
  - eauto.
Qed.

Lemma findToken_some addr tokens t :
  findToken addr tokens = Some t -> address t = addr /\ In t tokens.
Proof.
  unfold findToken. intros H. apply find_some in H. destruct H as [Hin Heq].
  apply String.eqb_eq in Heq. auto.
Qed.

(** Looking a selected address up in [selectedTokensData] is looking it up in
    [dustTokens]: the filter keeps every token whose address is selected. *)
Lemma findToken_selected (st : AppState) addr :
  In addr (selectedTokens st) ->
  findToken addr (selectedTokensData st) = findToken addr (dustTokens st).
Proof.
  intros Hin. unfold selectedTokensData, findToken.
  induction (dustTokens st) as [| t rest IH]; cbn; [reflexivity |].
  destruct (String.eqb (address t) addr) eqn:E.
  - apply String.eqb_eq in E.
    assert (Hk : existsb (String.eqb (address t)) (selectedTokens st) = true).
    { apply existsb_exists. exists addr. split; [exact Hin |].
      apply String.eqb_eq; exact E. }
    rewrite Hk. cbn. apply String.eqb_eq in E. rewrite E. reflexivity.
  - destruct (existsb (String.eqb (address t)) (selectedTokens st)); cbn.
    + rewrite E. exact IH.
    + exact IH.
Qed.

(** ** Plan construction *)

Section Plan.

Context (D : Deps) (st : AppState).

(** What [buildLoop] adds to arrays that are filled up to [index]. *)
Lemma buildLoop_spec (selected : list string) :
  forall acc index A,
    List.length (tokenData acc) = index ->
    List.length (addresses acc) = index ->
    List.length (amounts acc) = index ->
    buildLoop D st acc index selected = inr A ->
    exists ts ams,
      tokenData A = tokenData acc ++ ts /\
      addresses A = addresses acc ++ selected /\
      amounts A = amounts acc ++ ams /\
      Forall2 (fun addr t => findToken addr (selectedTokensData st) = Some t) selected ts /\
      Forall2 (fun t amt => safeAmountOf D t = inr amt) ts ams.
Proof.
  induction selected as [| addr rest IH]; intros acc index A L1 L2 L3 Hb; cbn in Hb.
  - inversion Hb; subst. exists [], []. rewrite !app_nil_r. auto.
  - unfold buildStep in Hb.
    destruct (findToken addr (selectedTokensData st)) as [t |] eqn:Ef; [| discriminate].
    destruct (safeAmountOf D t) as [e | amt] eqn:Es; [discriminate |].
    rewrite <- L1 in Hb at 1. rewrite <- L2 in Hb at 1. rewrite <- L3 in Hb at 1.
    rewrite !arraySet_at_length in Hb.
    apply IH in Hb; cbn; [| rewrite length_app; cbn; lia ..].
    destruct Hb as (ts & ams & Ht & Ha & Hm & F1 & F2). cbn in *.
    exists (t :: ts), (amt :: ams).
    rewrite Ht, Ha, Hm, <- !app_assoc. cbn.
    repeat split; try constructor; auto.
Qed.

Lemma buildConsistentArrays_spec (selected : list string) (A : Arrays) :
  buildConsistentArrays D st selected = inr A ->
  addresses A = selected /\
  Forall2 (fun addr t => findToken addr (selectedTokensData st) = Some t)
          selected (tokenData A) /\
  Forall2 (fun t amt => safeAmountOf D t = inr amt) (tokenData A) (amounts A).
Proof.
  intros Hb. unfold buildConsistentArrays in Hb.
  apply buildLoop_spec in Hb; [| reflexivity ..].
  destruct Hb as (ts & ams & Ht & Ha & Hm & F1 & F2). cbn in *.
  rewrite Ht, Ha, Hm. auto.
Qed.

End Plan.

(** ** Array validation *)

Lemma sameAddress_refl a : sameAddress a a = true.
Proof. unfold sameAddress. apply String.eqb_refl. Qed.

(** [checkAligned] ends in one of three ways, and well exactly on aligned
    arrays. *)
Lemma checkAligned_cases (mismatch : nat -> Error) (tokens : list TokenRecord)
      (addrs : list string) :
  forall i,
    (i + List.length tokens <= List.length addrs)%nat ->
    (checkAligned mismatch i tokens addrs = inr tt /\
     forall j t, nth_error tokens j = Some t ->
                 exists addr, nth_error addrs (i + j) = Some addr /\
                              sameAddress (address t) addr = true) \/
    (exists k t addr,
        checkAligned mismatch i tokens addrs = inl (mismatch k) /\
        (i <= k)%nat /\
        nth_error tokens (k - i) = Some t /\ nth_error addrs k = Some addr /\
        sameAddress (address t) addr = false).
Proof.
  induction tokens as [| token rest IH]; intros i Hlen; cbn [checkAligned].
  - left. split; [reflexivity |]. intros [| j] t Hj; discriminate.
  - cbn [List.length] in Hlen.
    destruct (nth_error addrs i) as [addr |] eqn:Ea.
    2:{ apply nth_error_None in Ea. lia. }
    destruct (sameAddress (address token) addr) eqn:Es.
    + destruct (IH (S i)) as [[Hok Hall] | (k & t & a & Hk & Hle & Ht & Ha & Hs)]; [lia | |].
      * left. split; [exact Hok |]. intros [| j] t Hj; cbn in Hj.
        -- inversion Hj; subst. rewrite Nat.add_0_r. eauto.
        -- rewrite Nat.add_succ_r. apply Hall; exact Hj.
      * right. exists k, t, a. repeat split; auto; try lia.
        replace (k - i)%nat with (S (k - S i)) by lia. exact Ht.
    + right. exists i, token, addr. rewrite Nat.sub_diag. repeat split; auto.
Qed.

Lemma validateArrayConsistency_cases (A : Arrays) :
  (validateArrayConsistency (tokenData A) (addresses A) (amounts A) = inr tt /\ consistent A) \/
  (exists e, validateArrayConsistency (tokenData A) (addresses A) (amounts A) = inl e /\
             isArrayConsistencyError e = true /\ ~ consistent A).
Proof.
  unfold validateArrayConsistency, consistent.
  destruct (List.length (tokenData A) =? List.length (addresses A))%nat eqn:E1; cbn [negb orb].
  2:{ right. eexists; split; [reflexivity |]. split; [reflexivity |].
      apply Nat.eqb_neq in E1. tauto. }
  destruct (List.length (addresses A) =? List.length (amounts A))%nat eqn:E2; cbn [negb orb].
  2:{ right. eexists; split; [reflexivity |]. split; [reflexivity |].
      apply Nat.eqb_neq in E2. tauto. }
  apply Nat.eqb_eq in E1, E2.
  destruct (checkAligned_cases AddressMismatch (tokenData A) (addresses A) 0%nat)
    as [[Hok Hall] | (k & t & a & Hk & _ & Ht & Ha & Hs)]; [lia | |].
  - left. split; [exact Hok |]. repeat split; auto.
  - right. exists (AddressMismatch k). split; [exact Hk |]. split; [reflexivity |].
    intros (_ & _ & Hal). rewrite Nat.sub_0_r in Ht.
    destruct (Hal k t Ht) as (a' & Ha' & Hs'). congruence.
Qed.

Lemma buildConsistentArrays_consistent (D : Deps) (st : AppState) selected A :
  buildConsistentArrays D st selected = inr A ->
  consistent A /\ addresses A = selected.
Proof.
  intros Hb. apply buildConsistentArrays_spec in Hb. destruct Hb as (Ha & F1 & F2).
  split; [| exact Ha]. unfold consistent. rewrite Ha.
  split; [symmetry; eapply Forall2_length; eauto |].
  split; [rewrite (Forall2_length F1); eapply Forall2_length; eauto |].
  intros i t Hi.
  destruct (Forall2_nth_error_r _ _ _ F1 i t Hi) as (addr & Hs & Hf).
  apply findToken_some in Hf. destruct Hf as [Hf _].
  exists addr. split; [exact Hs |]. rewrite Hf. apply sameAddress_refl.
Qed.

(** C4: the arrays [buildConsistentArrays] returns have equal lengths, the
    address array is the selection itself and every token record carries the
    address of its own index (case-insensitively); arrays that violate this
    make the run end in an array-consistency error, with no call made. *)
Theorem C4_plan_arrays_aligned (D : Deps) (w : World) (st : AppState) :
  (forall selected A,
      buildConsistentArrays D st selected = inr A ->
      consistent A /\ addresses A = selected) /\
  (forall A h,
      ~ consistent A ->
      exists e, afterBuild D w st A h = (inl e, []) /\ isArrayConsistencyError e = true).
Proof.
  split.
  - intros selected A. apply buildConsistentArrays_consistent.
  - intros A h Hbad. unfold afterBuild.
    destruct (validateArrayConsistency_cases A) as [[_ Hok] | (e & He & Hk & _)];
      [contradiction |].
    exists e. split; [| exact Hk]. unfold bind. rewrite He. reflexivity.
Qed.

(** ** The events of each stage *)

Section Stages.

Context (D : Deps) (w : World) (st : AppState).
Variable P : Event -> Prop.

Hypothesis P_allowance : forall token owner spender r, P (EvAllowance token owner spender r).

Lemma allowanceSeen_nonneg h token owner : 0 <= allowanceSeen D w h token owner.
Proof.
  unfold allowanceSeen. destruct (hasPublicClient w); [| lia].
  destruct (allowance w h token owner (SPLIT_ROUTER D)); lia.
Qed.

Lemma checkAllowance_emits token owner :
  emits P (fun v => exists h, v = allowanceSeen D w h token owner)
        (checkAllowance D w token owner).
Proof.
  intros h. unfold checkAllowance, allowanceSeen.
  destruct (hasPublicClient w) eqn:Ec; cbn.
  - split; [repeat constructor; apply P_allowance |].
    exists h. reflexivity.
  - split; [constructor |]. exists h. reflexivity.
Qed.

Lemma checkAllowance_emits_any token owner :
  emits P anyValue (checkAllowance D w token owner).
Proof.
  eapply emits_weaken; [apply checkAllowance_emits | auto | intros; exact I].
Qed.

Lemma approveToken_emits tokenAddress amount :
  (forall spender amt r,
      approvalFromBalance D st tokenAddress spender amt ->
      P (EvApprove tokenAddress spender amt r)) ->
  emits P anyValue (approveToken D w st tokenAddress amount).
Proof.
  intros HP. unfold approveToken.
  destruct (findToken tokenAddress (dustTokens st)) as [t |] eqn:Ef;
    [| apply emits_throw].
  destruct (negb (JsString.truthy (balanceFormatted t))
            || JsNumber.eqZero (parseFloat D (balanceFormatted t)));
    [apply emits_throw |].
  apply emits_bind
    with (Q1 := fun b => parseUnits D (balanceOrZero t) (decimals t) = Some b).
  { apply emits_orThrow. auto. }
  intros balanceWei Hb.
  destruct (negb (JsString.truthy (walletAddress st))); [apply emits_throw |].
  apply emits_bind with (Q1 := anyValue).
  { apply emits_call. intros h. split; [| exact I].
    apply HP. split; [reflexivity |]. exists t, balanceWei. auto. }
  intros _ _.
  apply emits_bind with (Q1 := anyValue); [apply checkAllowance_emits_any |].
  intros _ _. apply emits_ret; exact I.
Qed.

Section WithArrays.

Variable A : Arrays.

Hypothesis P_approve :
  forall token spender amt r,
    approvalFromBalance D st token spender amt ->
    approvalForEntry D w st A token ->
    P (EvApprove token spender amt r).

Lemma approvalCallback_emits index token :
  nth_error (tokenData A) index = Some token ->
  emits P anyValue (approvalCallback D w st A index token).
Proof.
  intros Ht. unfold approvalCallback.
  eapply emits_bind; [apply checkAllowance_emits |].
  intros v [h Hv]. cbn beta in Hv.
  apply emits_bind with (Q1 := fun r => nth_error (amounts A) index = Some r).
  { apply emits_at; auto. }
  intros required Hr.
  destruct (v <? required) eqn:Elt; [| apply emits_ret; exact I].
  apply Z.ltb_lt in Elt.
  apply emits_tryCatch; [| intros e; apply emits_throw].
  apply emits_bind with (Q1 := anyValue); [| intros _ _; apply emits_ret; exact I].
  apply approveToken_emits. intros spender amt r Hfb. apply P_approve; [exact Hfb |].
  exists index, token, required, h. subst v. auto.
Qed.

Lemma concurrentApprovals_emits : emits P anyValue (concurrentApprovals D w st A).
Proof.
  unfold concurrentApprovals.
  apply emits_bind with (Q1 := anyValue).
  - apply emits_mapAsync. intros j x Hj. apply approvalCallback_emits. exact Hj.
  - intros rs _. apply emits_promiseAll.
Qed.

Lemma logAllowances_emits : emits P anyValue (logAllowances D w st A).
Proof.
  unfold logAllowances. apply emits_forEach. intros x _.
  apply emits_bind with (Q1 := anyValue); [apply checkAllowance_emits_any |].
  intros _ _. apply emits_ret; exact I.
Qed.

Lemma collectNeedingApproval_emits (tokens : list TokenRecord) :
  forall i acc,
    (forall j t, nth_error tokens j = Some t -> nth_error (tokenData A) (i + j) = Some t) ->
    Forall (needsApproval D w st A) acc ->
    emits P (Forall (needsApproval D w st A)) (collectNeedingApproval D w st A i tokens acc).
Proof.
  induction tokens as [| token rest IH]; intros i acc Hsuf Hacc; cbn [collectNeedingApproval].
  - apply emits_ret; exact Hacc.
  - eapply emits_bind; [apply checkAllowance_emits |].
    intros v [h Hv]. cbn beta in Hv.
    apply emits_bind with (Q1 := fun r => nth_error (amounts A) i = Some r).
    { apply emits_at; auto. }
    intros amount Ha. apply IH.
    + intros j t Hj. replace (S i + j)%nat with (i + S j)%nat by lia.
      apply Hsuf. exact Hj.
    + destruct (v <? amount) eqn:Elt; [| exact Hacc].
      apply Z.ltb_lt in Elt. apply Forall_app. split; [exact Hacc |].
      constructor; [| constructor]. unfold needsApproval; cbn.
      exists i, token, amount, h. subst v. repeat split; auto.
      specialize (Hsuf 0%nat token eq_refl). rewrite Nat.add_0_r in Hsuf. exact Hsuf.
Qed.

Lemma approveOneByOne_emits (needing : list (TokenRecord * Z)) :
  Forall (needsApproval D w st A) needing ->
  emits P anyValue (approveOneByOne D w st needing).
Proof.
  intros Hn. unfold approveOneByOne. apply emits_forEach.
  intros [token amount] Hin.
  rewrite Forall_forall in Hn. specialize (Hn _ Hin). unfold needsApproval in Hn; cbn in Hn.
  apply emits_tryCatch; [| intros e; apply emits_throw].
  apply emits_bind with (Q1 := anyValue); [| intros _ _; apply emits_ret; exact I].
  apply approveToken_emits. intros spender amt r Hfb. apply P_approve; assumption.
Qed.

Lemma sequentialApprovals_emits : emits P anyValue (sequentialApprovals D w st A).
Proof.
  unfold sequentialApprovals.
  eapply emits_bind.
  - apply collectNeedingApproval_emits; [intros j t Hj; exact Hj | constructor].
  - intros needing Hn. apply approveOneByOne_emits. exact Hn.
Qed.

End WithArrays.

(** The balance re-check talks to nobody. *)
Lemma recheckBalances_emits (tokens : list TokenRecord) :
  forall i amts, emits P anyValue (recheckBalances D i tokens amts).
Proof.
  induction tokens as [| token rest IH]; intros i amts; cbn [recheckBalances].
  - apply emits_ret; exact I.
  - apply emits_bind with (Q1 := anyValue); [apply emits_at; intros; exact I |].
    intros amount _.
    apply emits_bind with (Q1 := anyValue); [apply emits_orThrow; intros; exact I |].
    intros balanceWei _.
    apply emits_bind with (Q1 := anyValue); [apply emits_orThrow; intros; exact I |].
    intros buffer _.
    destruct (amount >? balanceWei); [apply emits_throw | apply IH].
Qed.

Hypothesis P_quote : forall token amountIn r, P (EvGetSwapQuote token amountIn r).
Hypothesis P_bulk : forall tokens amts r, P (EvGetBulkSwapQuote tokens amts r).

Lemma quoteToken_emits amts i token : emits P anyValue (quoteToken w amts i token).
Proof.
  unfold quoteToken. apply emits_tryCatch; [| intros e; apply emits_throw].
  destruct (negb (hasPublicClient w)); [apply emits_throw |].
  apply emits_bind with (Q1 := anyValue); [apply emits_at; intros; exact I |].
  intros amount _.
  apply emits_bind with (Q1 := anyValue).
  { apply emits_call. intros h; split; [apply P_quote | exact I]. }
  intros [quote | msg] _; [| apply emits_throw].
  destruct (quote =? 0)%N; [apply emits_throw | apply emits_ret; exact I].
Qed.

Lemma individualQuotes_emits amts (tokens : list TokenRecord) :
  forall i, emits P anyValue (individualQuotes w amts i tokens).
Proof.
  induction tokens as [| token rest IH]; intros i; cbn [individualQuotes].
  - apply emits_ret; exact I.
  - apply emits_bind with (Q1 := anyValue); [apply quoteToken_emits |].
    intros quote _.
    apply emits_bind with (Q1 := anyValue); [apply IH |].
    intros quotes _. apply emits_ret; exact I.
Qed.

Lemma bulkQuote_emits addrs amts : emits P (fun q => 0 < q) (bulkQuote w addrs amts).
Proof.
  unfold bulkQuote. apply emits_tryCatch; [| intros e; apply emits_throw].
  destruct (negb (hasPublicClient w)); [apply emits_throw |].
  apply emits_bind with (Q1 := anyValue).
  { apply emits_call. intros h; split; [apply P_bulk | exact I]. }
  intros [[totalQuote perToken] | msg] _; [| apply emits_throw].
  destruct (totalQuote =? 0)%N eqn:E; [apply emits_throw |].
  apply emits_ret. apply N.eqb_neq in E. lia.
Qed.

End Stages.

Lemma estimateGas_emits (w : World) (P : Event -> Prop) addrs amts minReceive :
  (forall r, P (EvEstimateGas addrs amts minReceive r)) ->
  emits P anyValue (estimateGas w addrs amts minReceive).
Proof.
  intros HP. unfold estimateGas. apply emits_tryCatch.
  - destruct (hasPublicClient w); [| apply emits_ret; exact I].
    apply emits_bind with (Q1 := anyValue).
    { apply emits_call. intros h; split; [apply HP | exact I]. }
    intros [g | msg] _; [apply emits_ret; exact I | apply emits_throw].
  - intros e. destruct e; apply emits_throw.
Qed.

Lemma submitSwap_emits (w : World) (P : Event -> Prop) addrs amts minReceive :
  (forall r, P (EvExecuteBulkSwap addrs amts minReceive r)) ->
  emits P anyValue (submitSwap w addrs amts minReceive).
Proof.
  intros HP. unfold submitSwap. apply emits_tryCatch.
  - apply emits_bind with (Q1 := anyValue).
    { apply emits_call. intros h; split; [apply HP | exact I]. }
    intros _ _. apply emits_ret; exact I.
  - intros e. destruct e; apply emits_throw.
Qed.

(** The events of a whole run: allowance reads, approvals for plan entries
    read as under-approved, quotes, and, only when the selection does not
    hold the target token, the gas estimate and the swap. *)
Lemma afterBuild_emits (D : Deps) (w : World) (st : AppState) (A : Arrays)
      (P : Event -> Prop) :
  (forall token owner spender r, P (EvAllowance token owner spender r)) ->
  (forall token spender amt r,
      approvalFromBalance D st token spender amt ->
      approvalForEntry D w st A token ->
      P (EvApprove token spender amt r)) ->
  (forall token amountIn r, P (EvGetSwapQuote token amountIn r)) ->
  (forall tokens amts r, P (EvGetBulkSwapQuote tokens amts r)) ->
  (hasHigherToken D (addresses A) = false ->
   forall amts total r, 0 < total ->
     P (EvEstimateGas (addresses A) amts (minReceiveWei total) r)) ->
  (hasHigherToken D (addresses A) = false ->
   forall amts total r, 0 < total ->
     P (EvExecuteBulkSwap (addresses A) amts (minReceiveWei total) r)) ->
  emits P (fun _ => hasHigherToken D (addresses A) = false) (afterBuild D w st A).
Proof.
  intros Hal Hap Hq Hb Hg Hs. unfold afterBuild.
  apply emits_bind with (Q1 := anyValue); [apply emits_liftE; intros; exact I |].
  intros _ _.
  apply emits_bind with (Q1 := anyValue); [apply emits_liftE; intros; exact I |].
  intros _ _.
  apply emits_bind with (Q1 := anyValue); [apply concurrentApprovals_emits; assumption |].
  intros _ _.
  apply emits_bind with (Q1 := anyValue); [apply logAllowances_emits; assumption |].
  intros _ _.
  apply emits_bind with (Q1 := anyValue); [apply sequentialApprovals_emits; assumption |].
  intros _ _.
  apply emits_bind with (Q1 := anyValue); [apply recheckBalances_emits |].
  intros safeTokenAmounts _.
  apply emits_bind with (Q1 := anyValue); [apply individualQuotes_emits; assumption |].
  intros _ _.
  eapply emits_bind; [apply bulkQuote_emits; assumption |].
  intros totalQuote Hpos. cbn beta in Hpos. cbn zeta.
  destruct (hasHigherToken D (addresses A)) eqn:Eh; [apply emits_throw |].
  apply emits_bind with (Q1 := anyValue).
  { apply estimateGas_emits. intros r. apply Hg; [reflexivity | exact Hpos]. }
  intros _ _.
  eapply emits_weaken.
  - apply submitSwap_emits. intros r. apply Hs; [reflexivity | exact Hpos].
  - auto.
  - auto.
Qed.

Lemma handleSwapBody_emits (D : Deps) (w : World) (st : AppState) (P : Event -> Prop) :
  (forall token owner spender r, P (EvAllowance token owner spender r)) ->
  (forall A token spender amt r,
      buildConsistentArrays D st (selectedTokens st) = inr A ->
      approvalFromBalance D st token spender amt ->
      approvalForEntry D w st A token ->
      P (EvApprove token spender amt r)) ->
  (forall token amountIn r, P (EvGetSwapQuote token amountIn r)) ->
  (forall tokens amts r, P (EvGetBulkSwapQuote tokens amts r)) ->
  (hasHigherToken D (selectedTokens st) = false ->
   forall amts total r, 0 < total ->
     P (EvEstimateGas (selectedTokens st) amts (minReceiveWei total) r)) ->
  (hasHigherToken D (selectedTokens st) = false ->
   forall amts total r, 0 < total ->
     P (EvExecuteBulkSwap (selectedTokens st) amts (minReceiveWei total) r)) ->
  emits P (fun _ => hasHigherToken D (selectedTokens st) = false) (handleSwapBody D w st).
Proof.
  intros Hal Hap Hq Hb Hg Hs. unfold handleSwapBody.
  destruct (negb (JsString.truthy (SPLIT_ROUTER D))
            || negb (JsString.truthy (walletAddress st))); [apply emits_throw |].
  apply emits_bind
    with (Q1 := fun A => buildConsistentArrays D st (selectedTokens st) = inr A).
  { apply emits_liftE. auto. }
  intros A HA.
  destruct (buildConsistentArrays_consistent D st _ A HA) as [_ Haddr].
  rewrite <- Haddr in *.
  apply afterBuild_emits; eauto.
Qed.

(** From the body of [handleSwap] to [handleSwap] itself. *)
Lemma handleSwap_events (D : Deps) (w : World) (st : AppState) (P : Event -> Prop) h :
  Forall P (snd (handleSwapBody D w st h)) -> Forall P (snd (handleSwap D w st h)).
Proof.
  intros H. unfold handleSwap.
  destruct (negb (isConnected st) || (List.length (selectedTokens st) =? 0)%nat);
    [constructor |].
  destruct (handleSwapBody D w st h) as [[e | u] es]; exact H.
Qed.

(** ** The target token in the selection *)

(** C10: a run whose selection holds the HIGHER address, in any letter case,
    never estimates gas and never submits the swap; once past the entry guard
    it ends in an error. *)
Theorem C10_higher_token_rejected (D : Deps) (w : World) (st : AppState) (h : Trace) :
  hasHigherToken D (selectedTokens st) = true ->
  Forall notGasNorSwap (snd (handleSwap D w st h)) /\
  fst (handleSwap D w st h) <> Submitted /\
  (isConnected st = true -> exists e, fst (handleSwap D w st h) = Failed e).
Proof.
  intros Hh.
  assert (Hbody : emits notGasNorSwap
                        (fun _ => hasHigherToken D (selectedTokens st) = false)
                        (handleSwapBody D w st)).
  { apply handleSwapBody_emits; try (intros; split; reflexivity);
      intros Hf; congruence. }
  destruct (Hbody h) as [Hes Hq].
  split; [apply handleSwap_events; exact Hes |].
  unfold handleSwap.
  destruct (handleSwapBody D w st h) as [[e | u] es]; cbn in Hq; [| congruence].
  destruct (isConnected st); cbn [negb orb].
  - destruct (List.length (selectedTokens st) =? 0)%nat eqn:El.
    + apply Nat.eqb_eq in El. apply length_zero_iff_nil in El.
      rewrite El in Hh. discriminate.
    + cbn. split; [discriminate |]. eauto.
  - cbn. split; [discriminate | discriminate].
Qed.

(** ** Network verification *)

Lemma verifyNetworkAndContract_result (D : Deps) (w : World) (h : Trace) :
  fst (verifyNetworkAndContract D w h) =
  inr (hasPublicClient w &&
       match getChainId w h with
       | Returns c =>
           ((c =? 8453) || (c =? 84532)) &&
           match getCode w (h ++ [EvGetChainId (getChainId w h)]) (SPLIT_ROUTER D) with
           | Returns code => JsString.truthy code && negb (String.eqb code "0x")
           | Rejects _ => false
           end
       | Rejects _ => false
       end).
Proof.
  unfold verifyNetworkAndContract, tryCatch, bind, call, ret, throw.
  destruct (hasPublicClient w); cbn; [| reflexivity].
  destruct (getChainId w h) as [c | msg]; cbn; [| reflexivity].
  destruct ((c =? 8453) || (c =? 84532)); cbn; [| reflexivity].
  destruct (getCode w (h ++ [EvGetChainId (Returns c)]) (SPLIT_ROUTER D)) as [code | msg];
    cbn; [| reflexivity].
  destruct (JsString.truthy code); cbn; [| reflexivity].
  destruct (String.eqb code "0x"); reflexivity.
Qed.

(** C6: the code has the check and does not use it.
    [verifyNetworkAndContract] answers [true] exactly on chain 8453 or
    84532 with non-empty router code, and [false] in every other case,
    failed reads included; but only the Verify button runs it.
    [handleSwap] never does: no run reads the chain id or the router code.
    So on Base, with a router address that holds no code, the check answers
    [false] and a run for token A still reads the allowance and sends two
    approvals for that address before its first quote fails. *)
Theorem C6_network_check_is_not_a_gate (D : Deps) (w : World) (st : AppState) (h : Trace) :
  (fst (verifyNetworkAndContract D w h) = inr true <->
   hasPublicClient w = true /\
   exists c code,
     getChainId w h = Returns c /\ (c = 8453 \/ c = 84532) /\
     getCode w (h ++ [EvGetChainId (Returns c)]) (SPLIT_ROUTER D) = Returns code /\
     code <> "" /\ code <> "0x") /\
  (fst (verifyNetworkAndContract D w h) = inr true \/
   fst (verifyNetworkAndContract D w h) = inr false) /\
  Forall (fun ev => isNetworkCheck ev = false) (snd (handleSwap D w st h)) /\
  fst (verifyNetworkAndContract Reference.deps routerWithoutCode []) = inr false /\
  handleSwap Reference.deps routerWithoutCode Reference.stateA [] =
  (let token := address Reference.tokenA in
   let router := SPLIT_ROUTER Reference.deps in
   let read := EvAllowance token Reference.wallet router (Returns 0%N) in
   let approval := EvApprove token router 1001000 (Returns tt) in
   (Failed (QuoteValidationFailed "AAA" (CallFailed "returned no data")),
    [read; approval; read; read; read; approval; read;
     EvGetSwapQuote token 999900 (Rejects "returned no data")])).
Proof.
  rewrite verifyNetworkAndContract_result. split; [| split; [| split; [| split]]].
  - split.
    + intros H. injection H as Hb.
      apply andb_prop in Hb. destruct Hb as [Hc Hb]. split; [exact Hc |].
      destruct (getChainId w h) as [c | msg]; [| discriminate].
      apply andb_prop in Hb. destruct Hb as [Hchain Hb].
      destruct (getCode w (h ++ [EvGetChainId (Returns c)]) (SPLIT_ROUTER D))
        as [code | msg] eqn:Ecode; [| discriminate].
      apply andb_prop in Hb. destruct Hb as [Ht Hx].
      exists c, code. split; [reflexivity |]. split.
      { apply orb_prop in Hchain. destruct Hchain as [E | E]; apply Z.eqb_eq in E; auto. }
      split; [exact Ecode |]. split.
      * unfold JsString.truthy in Ht. apply negb_true_iff in Ht.
        apply String.eqb_neq in Ht. exact Ht.
      * apply negb_true_iff in Hx. apply String.eqb_neq in Hx. exact Hx.
    + intros (Hc & c & code & Echain & Hchain & Ecode & Hne & Hnx).
      rewrite Hc, Echain, Ecode. cbn [andb].
      assert (Hk : (c =? 8453) || (c =? 84532) = true).
      { destruct Hchain; subst c; reflexivity. }
      rewrite Hk. cbn [andb]. unfold JsString.truthy.
      apply String.eqb_neq in Hne, Hnx. rewrite Hne, Hnx. reflexivity.
  - match goal with |- inr ?b = _ \/ _ => destruct b end; auto.
  - apply handleSwap_events.
    assert (Hbody : emits (fun ev => isNetworkCheck ev = false)
                          (fun _ => hasHigherToken D (selectedTokens st) = false)
                          (handleSwapBody D w st)).
    { apply handleSwapBody_emits; intros; reflexivity. }
    apply (Hbody h).
  - vm_compute. reflexivity.
  - vm_compute. reflexivity.
Qed.

(** ** The approval amount *)

(** C3: what [approveToken] submits does not depend on its [amount]
    argument; for a token with a positive parsed balance it is one approval
    of [parseUnits(balanceFormatted, decimals) * 1001 / 1000]. *)
Theorem C3_approval_ignores_amount (D : Deps) (w : World) (st : AppState)
        (tokenAddress : string) (h : Trace) :
  (forall amount1 amount2,
      approveToken D w st tokenAddress amount1 h =
      approveToken D w st tokenAddress amount2 h) /\
  (forall token balanceWei amount,
      findToken tokenAddress (dustTokens st) = Some token ->
      balanceFormatted token <> "" ->
      JsNumber.gtZero (parseFloat D (balanceFormatted token)) = true ->
      parseUnits D (balanceFormatted token) (decimals token) = Some balanceWei ->
      walletAddress st <> "" ->
      exists r rest,
        snd (approveToken D w st tokenAddress amount h) =
        EvApprove tokenAddress (SPLIT_ROUTER D) (Z.quot (balanceWei * 1001) 1000) r :: rest /\
        Forall (fun ev => isApprovalOf tokenAddress ev = false) rest).
Proof.
  split; [reflexivity |].
  intros token balanceWei amount Hf Hne Hpos Hparse Hw.
  unfold approveToken. rewrite Hf.
  apply String.eqb_neq in Hne, Hw.
  unfold balanceOrZero, JsString.orElse, JsString.truthy. rewrite Hne, Hw. cbn [negb orb].
  assert (Hz : JsNumber.eqZero (parseFloat D (balanceFormatted token)) = false).
  { unfold JsNumber.gtZero, JsNumber.eqZero, SFltb, SFeqb in *.
    destruct (parseFloat D (balanceFormatted token)) as [s | s | | s m e];
      try destruct s; cbn in *; try discriminate; reflexivity. }
  rewrite Hz, Hparse. unfold bind at 1. cbn [orThrow ret].
  unfold bind at 1. cbn [call].
  set (amt := Z.quot (balanceWei * 1001) 1000).
  set (r := approve w (h ++ []) tokenAddress (SPLIT_ROUTER D) amt).
  cbn.
  pose proof (checkAllowance_emits_any D w
                (fun ev => isApprovalOf tokenAddress ev = false)
                (fun _ _ _ _ => eq_refl) tokenAddress (walletAddress st)
                ((h ++ []) ++ [EvApprove tokenAddress (SPLIT_ROUTER D) amt r]))
    as [Hes _].
  unfold bind.
  destruct (checkAllowance D w tokenAddress (walletAddress st)
              ((h ++ []) ++ [EvApprove tokenAddress (SPLIT_ROUTER D) amt r]))
    as [[e | v] es]; cbn in *.
  - exists r, es. split; [reflexivity | exact Hes].
  - exists r, (es ++ []). split; [reflexivity |].
    rewrite app_nil_r. exact Hes.
Qed.

(** ** Zero quotes *)

Lemma dustGuarded_of_emits {A} (Q : A -> Prop) (m : M A) :
  emits (fun ev => isZeroQuote ev = false) Q m -> dustGuarded m.
Proof.
  intros Hm h Hz. destruct (Hm h) as [Hes _].
  apply existsb_exists in Hz. destruct Hz as (ev & Hin & Hev).
  rewrite Forall_forall in Hes. rewrite (Hes ev Hin) in Hev. discriminate.
Qed.

Lemma dustGuarded_bind {A B} (Q : A -> Prop) (m : M A) (f : A -> M B) :
  dustGuarded m -> emits notGasNorSwap Q m -> (forall a, dustGuarded (f a)) ->
  dustGuarded (bind m f).
Proof.
  intros Hm Hem Hf h. unfold bind.
  specialize (Hm h). destruct (Hem h) as [Hes _].
  destruct (m h) as [[e | a] es]; cbn in *.
  { intros Hz. destruct (Hm Hz) as [(e' & He & Hd) Hes'].
    inversion He; subst. split; [eauto | exact Hes']. }
  specialize (Hf a (h ++ es)).
  destruct (f a (h ++ es)) as [r es']; cbn in *.
  rewrite existsb_app. intros Hz. apply orb_prop in Hz. destruct Hz as [Hz | Hz].
  - destruct (Hm Hz) as [(e & He & _) _]. discriminate.
  - destruct (Hf Hz) as [Hr Hes']. split; [exact Hr |].
    apply Forall_app. auto.
Qed.

Lemma quoteToken_dustGuarded (w : World) amts i token :
  dustGuarded (quoteToken w amts i token).
Proof.
  intros h. unfold quoteToken, tryCatch, bind, call, at_, ret, throw.
  destruct (negb (hasPublicClient w)); cbn; [discriminate |].
  destruct (nth_error amts i) as [amount |]; cbn; [| discriminate].
  destruct (getSwapQuote w (h ++ []) (address token) amount) as [quote | msg] eqn:Eq; cbn.
  - destruct quote as [| q]; cbn; [| discriminate].
    intros _. split; [eauto |]. repeat constructor.
  - discriminate.
Qed.

Lemma individualQuotes_dustGuarded (w : World) amts (tokens : list TokenRecord) :
  forall i, dustGuarded (individualQuotes w amts i tokens).
Proof.
  induction tokens as [| token rest IH]; intros i; cbn [individualQuotes].
  - intros h; cbn; discriminate.
  - apply dustGuarded_bind with (Q := anyValue).
    + apply quoteToken_dustGuarded.
    + apply quoteToken_emits; intros; split; reflexivity.
    + intros quote. apply dustGuarded_bind with (Q := anyValue).
      * apply IH.
      * apply individualQuotes_emits; intros; split; reflexivity.
      * intros quotes h; cbn; discriminate.
Qed.

Lemma bulkQuote_dustGuarded (w : World) addrs amts (B : Type) (k : Z -> M B) :
  (forall q, emits (fun ev => isZeroQuote ev = false) anyValue (k q)) ->
  dustGuarded (bind (bulkQuote w addrs amts) k).
Proof.
  intros Hk h. unfold bind at 1. unfold bulkQuote, tryCatch, bind, call, ret, throw.
  destruct (negb (hasPublicClient w)); cbn; [discriminate |].
  destruct (getBulkSwapQuote w h addrs amts) as [[total perToken] | msg] eqn:Eq; cbn.
  - destruct total as [| total]; cbn.
    + intros _. split; [eauto |]. repeat constructor.
    + match goal with |- context [k ?q ?h'] => destruct (Hk q h') as [Hes _];
        destruct (k q h') as [r es] end. cbn in *.
      intros Hz.
      apply existsb_exists in Hz. destruct Hz as (ev & Hin & Hev).
      rewrite Forall_forall in Hes. rewrite (Hes ev Hin) in Hev. discriminate.
  - discriminate.
Qed.

Lemma afterBuild_dustGuarded (D : Deps) (w : World) (st : AppState) (A : Arrays) :
  dustGuarded (afterBuild D w st A).
Proof.
  unfold afterBuild.
  apply dustGuarded_bind with (Q := anyValue);
    [eapply dustGuarded_of_emits | |]; try (apply emits_liftE; intros; exact I).
  intros _.
  apply dustGuarded_bind with (Q := anyValue);
    [eapply dustGuarded_of_emits | |]; try (apply emits_liftE; intros; exact I).
  intros _.
  apply dustGuarded_bind with (Q := anyValue);
    [eapply dustGuarded_of_emits | |];
    try (apply concurrentApprovals_emits; intros; first [reflexivity | split; reflexivity]).
  intros _.
  apply dustGuarded_bind with (Q := anyValue);
    [eapply dustGuarded_of_emits | |];
    try (apply logAllowances_emits; intros; first [reflexivity | split; reflexivity]).
  intros _.
  apply dustGuarded_bind with (Q := anyValue);
    [eapply dustGuarded_of_emits | |];
    try (apply sequentialApprovals_emits; intros; first [reflexivity | split; reflexivity]).
  intros _.
  apply dustGuarded_bind with (Q := anyValue);
    [eapply dustGuarded_of_emits | |]; try apply recheckBalances_emits.
  intros safeTokenAmounts.
  apply dustGuarded_bind with (Q := anyValue).
  { apply individualQuotes_dustGuarded. }
  { apply individualQuotes_emits; intros; split; reflexivity. }
  intros _.
  apply bulkQuote_dustGuarded. intros q. cbn zeta.
  destruct (hasHigherToken D (addresses A)); [apply emits_throw |].
  apply emits_bind with (Q1 := anyValue).
  - apply estimateGas_emits. reflexivity.
  - intros _ _. apply submitSwap_emits. reflexivity.
Qed.

(** C8: when a per-token quote or the aggregate quote of a run resolves to
    zero, the run fails with [DustTooSmall] and neither the gas estimate nor
    [executeBulkSwap] is called. *)
Theorem C8_zero_quote_stops_the_run (D : Deps) (w : World) (st : AppState) (h : Trace) :
  existsb isZeroQuote (snd (handleSwap D w st h)) = true ->
  (exists e, fst (handleSwap D w st h) = Failed e /\ isDustTooSmall e = true) /\
  Forall notGasNorSwap (snd (handleSwap D w st h)).
Proof.
  unfold handleSwap.
  destruct (negb (isConnected st) || (List.length (selectedTokens st) =? 0)%nat);
    [cbn; discriminate |].
  assert (Hbody : dustGuarded (handleSwapBody D w st)).
  { unfold handleSwapBody.
    destruct (negb (JsString.truthy (SPLIT_ROUTER D))
              || negb (JsString.truthy (walletAddress st)));
      [intros h'; cbn; discriminate |].
    apply dustGuarded_bind with (Q := anyValue).
    - eapply dustGuarded_of_emits. apply emits_liftE with (Q := anyValue). intros; exact I.
    - apply emits_liftE. intros; exact I.
    - intros A. apply afterBuild_dustGuarded. }
  specialize (Hbody h).
  destruct (handleSwapBody D w st h) as [[e | u] es]; cbn in *; intros Hz;
    destruct (Hbody Hz) as [(e' & He & Hd) Hes].
  - inversion He; subst. split; [eauto | exact Hes].
  - discriminate.
Qed.

(** ** Counting approvals *)

Lemma approvalsOf_app token es1 es2 :
  approvalsOf token (es1 ++ es2) = (approvalsOf token es1 + approvalsOf token es2)%nat.
Proof. unfold approvalsOf. rewrite filter_app, length_app. reflexivity. Qed.

Lemma approvalsOf_none token es :
  Forall (fun ev => isApprovalOf token ev = false) es -> approvalsOf token es = 0%nat.
Proof.
  unfold approvalsOf. induction 1 as [| ev es Hev _ IH]; cbn; [reflexivity |].
  rewrite Hev. exact IH.
Qed.

Section Counting.

Context {A B : Type}.
Variable token : string.

Lemma costs_of_emits (Q : A -> Prop) (m : M A) :
  emits (fun ev => isApprovalOf token ev = false) Q m -> costs token 0 Q m.
Proof.
  intros Hm h. destruct (Hm h) as [Hes Hq]. split; [| exact Hq].
  rewrite (approvalsOf_none _ _ Hes). lia.
Qed.

Lemma costs_le (Q : A -> Prop) (m : M A) (n n' : nat) :
  costs token n Q m -> (n <= n')%nat -> costs token n' Q m.
Proof. intros Hm Hle h. destruct (Hm h) as [Hes Hq]. split; [lia | exact Hq]. Qed.

Lemma costs_ret (Q : A -> Prop) (a : A) : Q a -> costs token 0 Q (ret a).
Proof. intros Ha h; cbn. split; [lia | exact Ha]. Qed.

Lemma costs_throw (Q : A -> Prop) (e : Error) : costs token 0 Q (throw e).
Proof. intros h; cbn. split; [lia | exact I]. Qed.

Lemma costs_bind (Q1 : A -> Prop) (Q : B -> Prop) (m : M A) (f : A -> M B) (n1 n2 : nat) :
  costs token n1 Q1 m -> (forall a, Q1 a -> costs token n2 Q (f a)) ->
  costs token (n1 + n2) Q (bind m f).
Proof.
  intros Hm Hf h. unfold bind.
  destruct (Hm h) as [Hes Hq]. destruct (m h) as [[e | a] es]; cbn [fst snd] in *.
  - split; [lia | exact I].
  - destruct (Hf a Hq (h ++ es)) as [Hes' Hq'].
    destruct (f a (h ++ es)) as [r es']; cbn [fst snd] in *.
    rewrite approvalsOf_app. split; [lia | exact Hq'].
Qed.

Lemma costs_tryCatch (Q : A -> Prop) (m : M A) (handler : Error -> M A) (n : nat) :
  costs token n Q m -> (forall e, costs token 0 Q (handler e)) ->
  costs token n Q (tryCatch m handler).
Proof.
  intros Hm Hh h. unfold tryCatch.
  destruct (Hm h) as [Hes Hq]. destruct (m h) as [[e | a] es]; cbn [fst snd] in *.
  - destruct (Hh e (h ++ es)) as [Hes' Hq'].
    destruct (handler e (h ++ es)) as [r es']; cbn [fst snd] in *.
    rewrite approvalsOf_app. split; [lia | exact Hq'].
  - auto.
Qed.

Lemma costs_settle (Q : A -> Prop) (m : M A) (n : nat) :
  costs token n Q m -> costs token n anyValue (settle m).
Proof.
  intros Hm h. unfold settle. destruct (Hm h) as [Hes _].
  destruct (m h) as [r es]; cbn [fst snd] in *. split; [exact Hes | exact I].
Qed.

End Counting.

Section ApprovalCount.

Context (D : Deps) (w : World) (st : AppState) (token : string).

Lemma checkAllowance_costs tokenAddress owner :
  costs token 0 anyValue (checkAllowance D w tokenAddress owner).
Proof. apply costs_of_emits. apply checkAllowance_emits_any. reflexivity. Qed.

Lemma approveToken_costs tokenAddress amount :
  costs token (unitCost token tokenAddress) anyValue (approveToken D w st tokenAddress amount).
Proof.
  unfold approveToken.
  destruct (findToken tokenAddress (dustTokens st)) as [t |];
    [| eapply costs_le; [apply costs_throw | lia]].
  destruct (negb (JsString.truthy (balanceFormatted t))
            || JsNumber.eqZero (parseFloat D (balanceFormatted t)));
    [eapply costs_le; [apply costs_throw | lia] |].
  apply (costs_bind token anyValue anyValue _ _ 0 (unitCost token tokenAddress)).
  { apply costs_of_emits. apply emits_orThrow. intros; exact I. }
  intros balanceWei _.
  destruct (negb (JsString.truthy (walletAddress st)));
    [eapply costs_le; [apply costs_throw | lia] |].
  replace (unitCost token tokenAddress) with (unitCost token tokenAddress + 0)%nat by lia.
  apply costs_bind with (Q1 := anyValue).
  { intros h; cbn. unfold approvalsOf, unitCost; cbn.
    destruct (String.eqb tokenAddress token); cbn; split; auto; exact I. }
  intros _ _.
  apply (costs_bind token anyValue anyValue _ _ 0 0).
  - apply checkAllowance_costs.
  - intros _ _. apply costs_ret; exact I.
Qed.

Lemma approvalCallback_costs (A : Arrays) index t :
  costs token (unitCost token (address t)) anyValue (approvalCallback D w st A index t).
Proof.
  unfold approvalCallback.
  apply (costs_bind token anyValue anyValue _ _ 0 (unitCost token (address t)));
    [apply checkAllowance_costs |].
  intros v _.
  apply (costs_bind token anyValue anyValue _ _ 0 (unitCost token (address t))).
  { apply costs_of_emits. apply emits_at. intros; exact I. }
  intros required _.
  destruct (v <? required); [| eapply costs_le; [apply costs_ret; exact I | lia]].
  apply costs_tryCatch; [| intros e; apply costs_throw].
  replace (unitCost token (address t)) with (unitCost token (address t) + 0)%nat by lia.
  apply costs_bind with (Q1 := anyValue); [apply approveToken_costs |].
  intros _ _. apply costs_ret; exact I.
Qed.

Lemma countAddress_cons t tokens :
  countAddress token (t :: tokens) = (unitCost token (address t) + countAddress token tokens)%nat.
Proof.
  unfold countAddress, unitCost; cbn. destruct (String.eqb (address t) token); reflexivity.
Qed.

Lemma mapAsync_costs (A : Arrays) (tokens : list TokenRecord) :
  forall start,
    costs token (countAddress token tokens) anyValue
          (mapAsync (approvalCallback D w st A) start tokens).
Proof.
  induction tokens as [| t rest IH]; intros start; cbn [mapAsync].
  - apply costs_ret; exact I.
  - rewrite countAddress_cons.
    apply costs_bind with (Q1 := anyValue).
    + eapply costs_settle. apply approvalCallback_costs.
    + intros r _.
      replace (countAddress token rest) with (countAddress token rest + 0)%nat by lia.
      apply costs_bind with (Q1 := anyValue); [apply IH |].
      intros rs _. apply costs_ret; exact I.
Qed.

Lemma concurrentApprovals_costs (A : Arrays) :
  costs token (countAddress token (tokenData A)) anyValue (concurrentApprovals D w st A).
Proof.
  unfold concurrentApprovals.
  replace (countAddress token (tokenData A))
    with (countAddress token (tokenData A) + 0)%nat by lia.
  apply costs_bind with (Q1 := anyValue); [apply mapAsync_costs |].
  intros rs _. apply costs_of_emits. apply emits_promiseAll.
Qed.

Lemma countNeeding_app needing entry :
  countNeeding token (needing ++ [entry]) =
  (countNeeding token needing + unitCost token (address (fst entry)))%nat.
Proof.
  unfold countNeeding, countAddress, unitCost.
  rewrite map_app, filter_app, length_app. cbn.
  destruct (String.eqb (address (fst entry)) token); reflexivity.
Qed.

Lemma collectNeedingApproval_costs (A : Arrays) (tokens : list TokenRecord) :
  forall i acc,
    costs token 0
          (fun needing =>
             (countNeeding token needing
              <= countNeeding token acc + countAddress token tokens)%nat)
          (collectNeedingApproval D w st A i tokens acc).
Proof.
  induction tokens as [| t rest IH]; intros i acc; cbn [collectNeedingApproval].
  - apply costs_ret. lia.
  - apply (costs_bind token anyValue _ _ _ 0 0); [apply checkAllowance_costs |].
    intros v _.
    apply (costs_bind token anyValue _ _ _ 0 0).
    { apply costs_of_emits. apply emits_at. intros; exact I. }
    intros amount _. rewrite countAddress_cons.
    intros h. destruct (IH (S i) (if v <? amount then acc ++ [(t, amount)] else acc) h)
      as [Hes Hq].
    split; [exact Hes |].
    destruct (fst (collectNeedingApproval D w st A (S i) rest
                     (if v <? amount then acc ++ [(t, amount)] else acc) h)); [exact I |].
    destruct (v <? amount); [rewrite countNeeding_app in Hq; cbn in Hq |]; lia.
Qed.

Lemma approveOneByOne_costs (needing : list (TokenRecord * Z)) :
  costs token (countNeeding token needing) anyValue (approveOneByOne D w st needing).
Proof.
  unfold approveOneByOne.
  induction needing as [| [t amount] rest IH]; cbn [forEach].
  - apply costs_ret; exact I.
  - unfold countNeeding in *. cbn [map fst]. rewrite countAddress_cons.
    apply costs_bind with (Q1 := anyValue); [| intros _ _; exact IH].
    apply costs_tryCatch; [| intros e; apply costs_throw].
    replace (unitCost token (address t)) with (unitCost token (address t) + 0)%nat by lia.
    apply costs_bind with (Q1 := anyValue); [apply approveToken_costs |].
    intros _ _. apply costs_ret; exact I.
Qed.

Lemma sequentialApprovals_costs (A : Arrays) :
  costs token (countAddress token (tokenData A)) anyValue (sequentialApprovals D w st A).
Proof.
  unfold sequentialApprovals.
  replace (countAddress token (tokenData A))
    with (0 + countAddress token (tokenData A))%nat by lia.
  eapply costs_bind; [apply collectNeedingApproval_costs |].
  intros needing Hn. cbn in Hn.
  eapply costs_le; [apply approveOneByOne_costs | exact Hn].
Qed.

(** Each of the two approval passes sends at most one approval per plan
    entry; nothing else in the run approves. *)
Lemma afterBuild_costs (A : Arrays) :
  costs token (2 * countAddress token (tokenData A)) anyValue (afterBuild D w st A).
Proof.
  unfold afterBuild.
  set (c := countAddress token (tokenData A)).
  replace (2 * c)%nat with (0 + (0 + (c + (0 + (c + 0)))))%nat by lia.
  apply costs_bind with (Q1 := anyValue).
  { apply costs_of_emits. apply emits_liftE. intros; exact I. }
  intros _ _.
  apply costs_bind with (Q1 := anyValue).
  { apply costs_of_emits. apply emits_liftE. intros; exact I. }
  intros _ _.
  apply costs_bind with (Q1 := anyValue); [apply concurrentApprovals_costs |].
  intros _ _.
  apply costs_bind with (Q1 := anyValue).
  { apply costs_of_emits. apply logAllowances_emits. reflexivity. }
  intros _ _.
  apply costs_bind with (Q1 := anyValue); [apply sequentialApprovals_costs |].
  intros _ _.
  apply costs_of_emits.
  apply emits_bind with (Q1 := anyValue); [apply recheckBalances_emits |].
  intros safeTokenAmounts _.
  apply emits_bind with (Q1 := anyValue); [apply individualQuotes_emits; reflexivity |].
  intros _ _.
  apply emits_bind with (Q1 := anyValue).
  { apply emits_weaken
      with (P := fun ev => isApprovalOf token ev = false) (Q := fun q => 0 < q);
      [apply bulkQuote_emits; reflexivity | auto | intros; exact I]. }
  intros totalQuote _. cbn zeta.
  destruct (hasHigherToken D (addresses A)); [apply emits_throw |].
  apply emits_bind with (Q1 := anyValue); [apply estimateGas_emits; reflexivity |].
  intros _ _. apply submitSwap_emits; reflexivity.
Qed.

End ApprovalCount.

Lemma countAddress_selection (st : AppState) (token : string) selected tokens :
  Forall2 (fun addr t => findToken addr (selectedTokensData st) = Some t) selected tokens ->
  countAddress token tokens = count_occ string_dec selected token.
Proof.
  induction 1 as [| addr t selected tokens Hf _ IH]; [reflexivity |].
  rewrite countAddress_cons, IH. apply findToken_some in Hf. destruct Hf as [Hf _].
  unfold unitCost. rewrite Hf. cbn [count_occ].
  destruct (string_dec addr token) as [E | E].
  - apply String.eqb_eq in E. rewrite E. reflexivity.
  - apply String.eqb_neq in E. rewrite E. reflexivity.
Qed.

Lemma handleSwapBody_costs (D : Deps) (w : World) (st : AppState) (token : string) :
  costs token (2 * count_occ string_dec (selectedTokens st) token) anyValue
        (handleSwapBody D w st).
Proof.
  unfold handleSwapBody.
  destruct (negb (JsString.truthy (SPLIT_ROUTER D))
            || negb (JsString.truthy (walletAddress st)));
    [eapply costs_le; [apply costs_throw | lia] |].
  replace (2 * count_occ string_dec (selectedTokens st) token)%nat
    with (0 + 2 * count_occ string_dec (selectedTokens st) token)%nat by lia.
  apply costs_bind
    with (Q1 := fun A => buildConsistentArrays D st (selectedTokens st) = inr A).
  { apply costs_of_emits. apply emits_liftE. auto. }
  intros A HA. apply buildConsistentArrays_spec in HA. destruct HA as (_ & F1 & _).
  rewrite <- (countAddress_selection st token _ _ F1).
  apply afterBuild_costs.
Qed.

(** The array checks that follow the plan construction pass on the arrays
    it returns. *)
Lemma plan_checks_pass (D : Deps) (st : AppState) (A : Arrays) :
  buildConsistentArrays D st (selectedTokens st) = inr A ->
  validateArrayConsistency (tokenData A) (addresses A) (amounts A) = inr tt /\
  forall operation,
    verifyArrayConsistency operation (tokenData A) (addresses A) (amounts A) = inr tt.
Proof.
  intros plan.
  destruct (buildConsistentArrays_consistent D st _ A plan) as [Hcons _].
  split.
  - destruct (validateArrayConsistency_cases A) as [[Hv _] | (e & _ & _ & Hbad)];
      [exact Hv | contradiction].
  - intros operation. unfold verifyArrayConsistency. destruct Hcons as (H1 & H2 & Hal).
    destruct (checkAligned_cases (VerifyMismatch operation) (tokenData A) (addresses A) 0%nat)
      as [[Hok _] | (k & t & a & _ & _ & Ht & Ha & Hs)]; [lia | exact Hok |].
    rewrite Nat.sub_0_r in Ht. destruct (Hal k t Ht) as (a' & Ha' & Hs'). congruence.
Qed.


(** ** The two approval passes, one by one *)

Lemma checkAllowance_at (D : Deps) (w : World) (token owner : string) (h : Trace) :
  exists es,
    checkAllowance D w token owner h = (inr (allowanceSeen D w h token owner), es) /\
    forall tok, Forall (fun ev => isApprovalOf tok ev = false) es.
Proof.
  unfold checkAllowance, allowanceSeen.
  destruct (hasPublicClient w).
  - unfold bind, call, ret. cbn. eexists. split; [reflexivity |].
    intros tok. repeat constructor.
  - exists []. split; [reflexivity |]. intros tok. constructor.
Qed.

(** The loop that fills [tokensNeedingApproval] only reads, and adds an
    entry only for a token whose allowance it has just read below the
    amount of the entry. *)
Lemma collectNeedingApproval_run (D : Deps) (w : World) (st : AppState) (A : Arrays)
      (tokens : list TokenRecord) :
  forall i acc h,
    (forall tok, Forall (fun ev => isApprovalOf tok ev = false)
                        (snd (collectNeedingApproval D w st A i tokens acc h))) /\
    forall needing,
      fst (collectNeedingApproval D w st A i tokens acc h) = inr needing ->
      forall entry,
        In entry needing ->
        In entry acc \/
        exists j before after,
          nth_error tokens j = Some (fst entry) /\
          nth_error (amounts A) (i + j) = Some (snd entry) /\
          snd (collectNeedingApproval D w st A i tokens acc h) = before ++ after /\
          allowanceSeen D w (h ++ before) (address (fst entry)) (walletAddress st)
          < snd entry.
Proof.
  induction tokens as [| token rest IH]; intros i acc h; cbn [collectNeedingApproval].
  - split; [intros tok; constructor |].
    intros needing Hn entry Hin. injection Hn as <-. left; exact Hin.
  - destruct (checkAllowance_at D w (address token) (walletAddress st) h)
      as (es1 & Hread & Hes1).
    match goal with
    | |- context [fst (?m h)] => destruct (m h) as [res es] eqn:Hrun
    end.
    unfold bind at 1 in Hrun. rewrite Hread in Hrun. unfold at_ in Hrun.
    destruct (nth_error (amounts A) i) as [amount |] eqn:Eat.
    2:{ cbn in Hrun. injection Hrun as <- <-. rewrite app_nil_r.
        split; [exact Hes1 | discriminate]. }
    rewrite bind_ret_l in Hrun.
    set (v := allowanceSeen D w h (address token) (walletAddress st)) in *.
    set (acc' := if v <? amount then acc ++ [(token, amount)] else acc) in *.
    destruct (IH (S i) acc' ((h ++ es1) ++ [])) as [Hreads Hrec].
    destruct (collectNeedingApproval D w st A (S i) rest acc' ((h ++ es1) ++ []))
      as [res2 es2] eqn:Erec.
    injection Hrun as <- <-.
    cbn [fst snd] in *. split.
    + intros tok. apply Forall_app. split; [apply Hes1 | apply Hreads].
    + intros needing Hn entry Hin.
      destruct (Hrec needing Hn entry Hin) as [Hacc | (j & before & after & Hj & Ha & Hs & Hlt)].
      * unfold acc' in Hacc. destruct (v <? amount) eqn:Ev; [| left; exact Hacc].
        apply in_app_or in Hacc. destruct Hacc as [Hacc | [<- | []]]; [left; exact Hacc |].
        right. exists 0%nat, [], (es1 ++ es2). cbn [fst snd nth_error].
        rewrite Nat.add_0_r, app_nil_r.
        split; [reflexivity |]. split; [exact Eat |]. split; [reflexivity |].
        apply Z.ltb_lt. exact Ev.
      * right. exists (S j), (es1 ++ before), after. cbn [nth_error].
        split; [exact Hj |].
        split; [rewrite <- Ha; f_equal; lia |].
        split; [rewrite Hs, app_assoc; reflexivity |].
        rewrite app_nil_r in Hlt. rewrite app_assoc. exact Hlt.
Qed.

(** "Approve tokens one by one" approves tokens of its list only. *)
Lemma approveOneByOne_targets (D : Deps) (w : World) (st : AppState)
      (needing : list (TokenRecord * Z)) (h : Trace) :
  Forall (fun ev =>
            match ev with
            | EvApprove token _ _ _ =>
                exists entry, In entry needing /\ address (fst entry) = token
            | _ => True
            end)
         (snd (approveOneByOne D w st needing h)).
Proof.
  assert (H : emits (fun ev =>
                       match ev with
                       | EvApprove token _ _ _ =>
                           exists entry, In entry needing /\ address (fst entry) = token
                       | _ => True
                       end)
                    anyValue (approveOneByOne D w st needing)).
  { unfold approveOneByOne. apply emits_forEach. intros [token amount] Hin.
    apply emits_tryCatch; [| intros e; apply emits_throw].
    apply emits_bind with (Q1 := anyValue); [| intros _ _; apply emits_ret; exact I].
    apply approveToken_emits; [intros; exact I |].
    intros spender amt r _. exists (token, amount). split; [exact Hin | reflexivity]. }
  apply (H h).
Qed.

(** The sequential pass approves a token only after it has itself read the
    allowance of one of its entries below the amount of that entry. *)
Lemma sequentialApprovals_rereads (D : Deps) (w : World) (st : AppState) (A : Arrays)
      (h : Trace) (token spender : string) (amt : Z) (r : Resp unit) :
  In (EvApprove token spender amt r) (snd (sequentialApprovals D w st A h)) ->
  exists i t required before after,
    nth_error (tokenData A) i = Some t /\ address t = token /\
    nth_error (amounts A) i = Some required /\
    snd (sequentialApprovals D w st A h) = before ++ after /\
    In (EvApprove token spender amt r) after /\
    allowanceSeen D w (h ++ before) token (walletAddress st) < required.
Proof.
  unfold sequentialApprovals.
  destruct (collectNeedingApproval_run D w st A (tokenData A) 0%nat [] h) as [Hreads Hrec].
  destruct (collectNeedingApproval D w st A 0%nat (tokenData A) [] h) as [[e | needing] es1]
    eqn:Ecol; cbn [fst snd] in *.
  - unfold bind. rewrite Ecol. cbn [snd]. intros Hin. exfalso.
    specialize (Hreads token). rewrite Forall_forall in Hreads.
    specialize (Hreads _ Hin). cbn in Hreads. rewrite String.eqb_refl in Hreads.
    discriminate.
  - rewrite (bind_trace_after _ _ h needing es1 Ecol). intros Hin.
    apply in_app_or in Hin. destruct Hin as [Hin | Hin].
    { exfalso. specialize (Hreads token). rewrite Forall_forall in Hreads.
      specialize (Hreads _ Hin). cbn in Hreads. rewrite String.eqb_refl in Hreads.
      discriminate. }
    pose proof (approveOneByOne_targets D w st needing (h ++ es1)) as Htargets.
    rewrite Forall_forall in Htargets.
    destruct (Htargets _ Hin) as ([t required] & Hentry & Haddr). cbn [fst] in Haddr.
    destruct (Hrec needing eq_refl (t, required) Hentry)
      as [[] | (j & before & after & Hj & Ha & Hs & Hlt)].
    cbn [fst snd Nat.add] in *.
    exists j, t, required, before, (after ++ snd (approveOneByOne D w st needing (h ++ es1))).
    split; [exact Hj |]. split; [exact Haddr |]. split; [exact Ha |].
    split; [rewrite Hs at 1; rewrite <- app_assoc; reflexivity |].
    split; [apply in_or_app; right; exact Hin |].
    rewrite <- Haddr. exact Hlt.
Qed.

Lemma logAllowances_returns (D : Deps) (w : World) (st : AppState) (A : Arrays)
      (h : Trace) :
  exists es, logAllowances D w st A h = (inr tt, es).
Proof.
  unfold logAllowances. revert h.
  induction (tokenData A) as [| t rest IH]; intros h; cbn [forEach].
  - exists []. reflexivity.
  - destruct (checkAllowance_at D w (address t) (walletAddress st) h) as (es1 & Hr & _).
    match goal with
    | |- exists es, ?m h = _ => destruct (m h) as [res es] eqn:Hrun
    end.
    unfold bind at 1 in Hrun. unfold bind at 1 in Hrun. rewrite Hr in Hrun.
    cbn [ret] in Hrun.
    match type of Hrun with
    | context [forEach _ rest ?hh] => destruct (IH hh) as (es2 & Hrest)
    end.
    rewrite Hrest in Hrun. injection Hrun as <- <-. eexists; reflexivity.
Qed.

(** A run that has built its plan is the concurrent pass, then, if that
    pass did not fail, the logging reads, the sequential pass and the rest
    of the pipeline, which approves nothing. *)
Lemma afterBuild_passes (D : Deps) (w : World) (st : AppState) (A : Arrays) (h : Trace) :
  buildConsistentArrays D st (selectedTokens st) = inr A ->
  exists rest,
    snd (afterBuild D w st A h) = snd (concurrentApprovals D w st A h) ++ rest /\
    (rest = [] \/
     exists logs tail,
       rest = logs
              ++ snd (sequentialApprovals D w st A
                        (h ++ snd (concurrentApprovals D w st A h) ++ logs))
              ++ tail /\
       (forall tok, approvalsOf tok logs = 0%nat) /\
       (forall tok, approvalsOf tok tail = 0%nat)).
Proof.
  intros HA. unfold afterBuild.
  destruct (plan_checks_pass D st A HA) as [Hv Hverify].
  rewrite Hv, Hverify. cbn [liftE]. rewrite !bind_ret_l, !app_nil_r.
  destruct (concurrentApprovals D w st A h) as [[e | u] tc] eqn:Ec.
  { exists []. unfold bind. rewrite Ec. cbn [snd]. rewrite app_nil_r. auto. }
  rewrite (bind_trace_after _ _ h u tc Ec). cbn [snd].
  eexists. split; [reflexivity |]. right.
  assert (Hlog : emits (fun ev => forall tok, isApprovalOf tok ev = false) anyValue
                       (logAllowances D w st A)).
  { apply logAllowances_emits. intros; reflexivity. }
  destruct (Hlog (h ++ tc)) as [Hl _].
  destruct (logAllowances_returns D w st A (h ++ tc)) as (tl & El).
  rewrite El in Hl. cbn [snd] in Hl.
  assert (Hlogs : forall tok, approvalsOf tok tl = 0%nat).
  { intros tok. apply approvalsOf_none. eapply Forall_impl; [| exact Hl]. auto. }
  rewrite (bind_trace_after _ _ (h ++ tc) tt tl El).
  exists tl.
  replace (h ++ tc ++ tl) with ((h ++ tc) ++ tl) by (rewrite app_assoc; reflexivity).
  destruct (sequentialApprovals D w st A ((h ++ tc) ++ tl)) as [[e | u''] ts] eqn:Es.
  { exists []. unfold bind at 1. rewrite Es. cbn [snd]. rewrite app_nil_r.
    split; [reflexivity |]. split; [exact Hlogs | reflexivity]. }
  rewrite (bind_trace_after _ _ ((h ++ tc) ++ tl) u'' ts Es).
  eexists. split; [reflexivity |]. split; [exact Hlogs |].
  intros tok. apply approvalsOf_none.
  match goal with
  | |- Forall _ (snd (?m ?hh)) =>
      assert (Hrest : emits (fun ev => isApprovalOf tok ev = false) anyValue m)
  end.
  { apply emits_bind with (Q1 := anyValue); [apply recheckBalances_emits |].
    intros amts _.
    apply emits_bind with (Q1 := anyValue);
      [apply individualQuotes_emits; intros; reflexivity |].
    intros _ _.
    apply emits_bind with (Q1 := anyValue).
    { apply emits_weaken with (P := fun ev => isApprovalOf tok ev = false)
                              (Q := fun q => 0 < q);
        [apply bulkQuote_emits; intros; reflexivity | auto | intros; exact I]. }
    intros totalQuote _. cbn zeta.
    destruct (hasHigherToken D (addresses A)); [apply emits_throw |].
    apply emits_bind with (Q1 := anyValue);
      [apply estimateGas_emits; intros; reflexivity |].
    intros _ _. apply submitSwap_emits; intros; reflexivity. }
  apply Hrest.
Qed.

(** C2, as the code has it: a token whose allowance is always read as
    covering its required amount gets no approval; any token gets at most
    two approvals per occurrence in the selection, at most one from the
    concurrent pass and at most one from the sequential pass, and the
    sequential pass approves it only after its own read of the allowance
    was still below the amount of the entry.  A run that makes a call is
    these two passes with the logging reads between them, followed by calls
    that approve nothing. *)
Theorem C2_at_most_one_approval_per_pass (D : Deps) (w : World) (st : AppState)
        (h : Trace) (token : string) :
  (approvalsOf token (snd (handleSwap D w st h))
   <= 2 * count_occ string_dec (selectedTokens st) token)%nat /\
  ((forall A i t required h',
       buildConsistentArrays D st (selectedTokens st) = inr A ->
       nth_error (tokenData A) i = Some t -> address t = token ->
       nth_error (amounts A) i = Some required ->
       required <= allowanceSeen D w h' token (walletAddress st)) ->
   approvalsOf token (snd (handleSwap D w st h)) = 0%nat) /\
  (forall A,
      buildConsistentArrays D st (selectedTokens st) = inr A ->
      (forall h',
          (approvalsOf token (snd (concurrentApprovals D w st A h'))
           <= count_occ string_dec (selectedTokens st) token)%nat) /\
      (forall h',
          (approvalsOf token (snd (sequentialApprovals D w st A h'))
           <= count_occ string_dec (selectedTokens st) token)%nat) /\
      (forall h' spender amt r,
          In (EvApprove token spender amt r) (snd (sequentialApprovals D w st A h')) ->
          exists i t required before after,
            nth_error (tokenData A) i = Some t /\ address t = token /\
            nth_error (amounts A) i = Some required /\
            snd (sequentialApprovals D w st A h') = before ++ after /\
            In (EvApprove token spender amt r) after /\
            allowanceSeen D w (h' ++ before) token (walletAddress st) < required) /\
      (snd (handleSwap D w st h) = [] \/
       exists rest,
         snd (handleSwap D w st h) = snd (concurrentApprovals D w st A h) ++ rest /\
         (rest = [] \/
          exists logs tail,
            rest = logs
                   ++ snd (sequentialApprovals D w st A
                             (h ++ snd (concurrentApprovals D w st A h) ++ logs))
                   ++ tail /\
            approvalsOf token logs = 0%nat /\
            approvalsOf token tail = 0%nat))).
Proof.
  split; [| split].
  - unfold handleSwap.
    destruct (negb (isConnected st) || (List.length (selectedTokens st) =? 0)%nat);
      [cbn; lia |].
    destruct (handleSwapBody_costs D w st token h) as [Hes _].
    destruct (handleSwapBody D w st h) as [[e | u] es]; exact Hes.
  - intros Hcov. apply approvalsOf_none. apply handleSwap_events.
    assert (Hbody : emits (fun ev => isApprovalOf token ev = false)
                          (fun _ => hasHigherToken D (selectedTokens st) = false)
                          (handleSwapBody D w st)).
    { apply handleSwapBody_emits; try (intros; reflexivity).
      intros A tok spender amt r HA _ (i & t & required & h' & Ht & Ha & Hr & Hlt).
      cbn. destruct (String.eqb tok token) eqn:E; [| reflexivity].
      apply String.eqb_eq in E. rewrite E in *.
      specialize (Hcov A i t required h' HA Ht Ha Hr). lia. }
    apply (Hbody h).
  - intros A HA.
    assert (Hcount : countAddress token (tokenData A)
                     = count_occ string_dec (selectedTokens st) token).
    { destruct (buildConsistentArrays_spec D st _ A HA) as (_ & F1 & _).
      apply (countAddress_selection st token _ _ F1). }
    split; [| split; [| split]].
    + intros h'. rewrite <- Hcount. apply (concurrentApprovals_costs D w st token A h').
    + intros h'. rewrite <- Hcount. apply (sequentialApprovals_costs D w st token A h').
    + intros h' spender amt r. apply sequentialApprovals_rereads.
    + unfold handleSwap.
      destruct (negb (isConnected st) || (List.length (selectedTokens st) =? 0)%nat);
        [left; reflexivity |].
      unfold handleSwapBody.
      destruct (negb (JsString.truthy (SPLIT_ROUTER D))
                || negb (JsString.truthy (walletAddress st))); [left; reflexivity |].
      rewrite HA. cbn [liftE]. rewrite bind_ret_l, app_nil_r.
      destruct (afterBuild_passes D w st A h HA) as (rest & Hrun & Hrest).
      right. exists rest. split.
      * destruct (afterBuild D w st A h) as [[e | u] es]; exact Hrun.
      * destruct Hrest as [-> | (logs & tail & -> & Hl & Ht)]; [left; reflexivity |].
        right. exists logs, tail. auto.
Qed.

(** ** The minimum to receive *)

(** C7: [minReceiveWei] is the aggregate quote less 1000 basis points, in
    integer arithmetic, and stays below the quote; it is positive from a
    quote of two units on, but zero for a quote of one unit, with which the
    swap is submitted all the same. *)
Theorem C7_min_receive_of_one_unit_is_zero :
  (forall q, minReceiveWei q = Z.quot (q * (10000 - 1000)) 10000) /\
  (forall q, 0 < q -> 0 <= minReceiveWei q < q) /\
  (forall q, 2 <= q -> 0 < minReceiveWei q) /\
  minReceiveWei 1 = 0 /\
  exists addrs amts r rest,
    handleSwap Reference.deps Reference.oneUnitQuote
               (Reference.stateOf [Reference.tokenA]) [] =
    (Submitted, rest ++ [EvExecuteBulkSwap addrs amts 0 r]).
Proof.
  split; [| split; [| split; [| split]]].
  - intros q. unfold minReceiveWei.
    replace (q * (10000 - 1000)) with ((q * 90) * 100) by lia.
    change 10000 with (100 * 100).
    apply eq_sym, Z.quot_mul_cancel_r; lia.
  - intros q Hq. unfold minReceiveWei.
    rewrite Z.quot_div_nonneg by lia.
    split; [apply Z.div_pos; lia |].
    apply Z.div_lt_upper_bound; lia.
  - intros q Hq. unfold minReceiveWei.
    rewrite Z.quot_div_nonneg by lia.
    apply Z.div_str_pos. lia.
  - reflexivity.
  - vm_compute. do 4 eexists.
    match goal with
    | |- (_, ?l) = _ => change l with (removelast l ++ [last l (EvGetChainId (Rejects ""))])
    end.
    reflexivity.
Qed.

(** ** Binary64 arithmetic of the guard buffer *)

Lemma digits2_pos_size p : digits2_pos p = Pos.size p.
Proof. induction p; cbn; congruence. Qed.

Lemma Zdigits2_log2 p : Zdigits2 (Zpos p) = Z.log2 (Zpos p) + 1.
Proof.
  cbn [Zdigits2]. rewrite digits2_pos_size.
  destruct p; cbn [Z.log2 Pos.size]; lia.
Qed.

Lemma Zdigits2_bounds p n :
  0 < n -> 2 ^ (n - 1) <= Zpos p < 2 ^ n -> Zdigits2 (Zpos p) = n.
Proof.
  intros Hn Hb. rewrite Zdigits2_log2.
  rewrite (Z.log2_unique (Zpos p) (n - 1)); [lia | lia |].
  replace (Z.succ (n - 1)) with n by lia. exact Hb.
Qed.

Lemma Zdigits2_spec p : 2 ^ (Zdigits2 (Zpos p) - 1) <= Zpos p < 2 ^ Zdigits2 (Zpos p).
Proof.
  rewrite Zdigits2_log2. replace (Z.log2 (Zpos p) + 1 - 1) with (Z.log2 (Zpos p)) by lia.
  replace (Z.log2 (Zpos p) + 1) with (Z.succ (Z.log2 (Zpos p))) by lia.
  apply Z.log2_spec. lia.
Qed.

Lemma fexp64_eq x : -1021 <= x -> fexp 53 1024 x = x - 53.
Proof. intros H. unfold fexp, emin. lia. Qed.

Lemma shr_record_of_loc_m m l : shr_m (shr_record_of_loc m l) = m.
Proof. destruct l as [| []]; reflexivity. Qed.

Lemma loc_of_shr_record_of_loc m l : loc_of_shr_record (shr_record_of_loc m l) = l.
Proof. destruct l as [| []]; reflexivity. Qed.

Lemma shr_fexp_keep m e l :
  fexp 53 1024 (Zdigits2 m + e) - e = 0 ->
  shr_fexp 53 1024 m e l = (shr_record_of_loc m l, e).
Proof. intros H. unfold shr_fexp. rewrite H. reflexivity. Qed.

Lemma shr_fexp_one m e l :
  fexp 53 1024 (Zdigits2 m + e) - e = 1 ->
  shr_fexp 53 1024 m e l = (shr_1 (shr_record_of_loc m l), e + 1).
Proof. intros H. unfold shr_fexp. rewrite H. reflexivity. Qed.

Lemma round_nearest_even_bounds m l :
  m <= round_nearest_even m l <= m + 1.
Proof.
  unfold round_nearest_even. destruct l as [| []]; try lia.
  destruct (Z.even m); lia.
Qed.

(** The last step of [binary_round_aux]: a rounded mantissa of 53 bits is
    kept, the carry [2^53] is renormalised. *)
Lemma renormalise s q1 e :
  2 ^ 52 <= q1 <= 2 ^ 53 -> -1074 <= e <= 969 ->
  exists m J,
    (let '(mrs, e') := shr_fexp 53 1024 q1 e loc_Exact in
     match shr_m mrs with
     | Z0 => S754_zero s
     | Zpos m => if e' <=? 1024 - 53 then S754_finite s m e' else S754_infinity s
     | Zneg _ => S754_nan
     end) = S754_finite s m (e + J) /\
    0 <= J <= 1 /\ Zpos m * 2 ^ J = q1 /\ (q1 < 2 ^ 53 -> J = 0).
Proof.
  change (2 ^ 52) with 4503599627370496. change (2 ^ 53) with 9007199254740992.
  intros Hq He. destruct q1 as [| q1 | q1]; try lia.
  destruct (Z.eq_dec (Zpos q1) 9007199254740992) as [Ecarry | Ecarry].
  - injection Ecarry as ->.
    rewrite shr_fexp_one by (cbn [Zdigits2 digits2_pos Pos.succ]; rewrite fexp64_eq; lia).
    cbn [shr_record_of_loc shr_1 shr_m].
    replace (e + 1 <=? 1024 - 53) with true by (symmetry; apply Z.leb_le; lia).
    eexists _, 1. split; [reflexivity |]. split; [lia |]. split; [reflexivity | lia].
  - rewrite shr_fexp_keep.
    2:{ rewrite (Zdigits2_bounds q1 53); [rewrite fexp64_eq; lia | lia |].
        change (2 ^ (53 - 1)) with 4503599627370496.
        change (2 ^ 53) with 9007199254740992. lia. }
    cbn [shr_record_of_loc shr_m].
    replace (e <=? 1024 - 53) with true by (symmetry; apply Z.leb_le; lia).
    exists q1, 0. rewrite Z.add_0_r. split; [reflexivity |]. split; [lia |].
    split; [lia | reflexivity].
Qed.

(** Rounding a mantissa of 53 bits: the value moves up by at most one unit,
    and not at all when the location is exact. *)
Lemma binary_round_aux_53 s q e l :
  Zdigits2 (Zpos q) = 53 -> -1074 <= e <= 969 ->
  exists m J,
    binary_round_aux 53 1024 s (Zpos q) e l = S754_finite s m (e + J) /\
    0 <= J <= 1 /\
    Zpos q <= Zpos m * 2 ^ J <= Zpos q + 1 /\
    (l = loc_Exact -> m = q /\ J = 0).
Proof.
  intros Hd He. pose proof (Zdigits2_spec q) as Hq. rewrite Hd in Hq.
  change (2 ^ (53 - 1)) with 4503599627370496 in Hq.
  change (2 ^ 53) with 9007199254740992 in Hq.
  unfold binary_round_aux.
  rewrite shr_fexp_keep by (rewrite Hd, fexp64_eq; lia).
  rewrite shr_record_of_loc_m, loc_of_shr_record_of_loc.
  pose proof (round_nearest_even_bounds (Zpos q) l) as Hr.
  destruct (renormalise s (round_nearest_even (Zpos q) l) e) as (m & J & Hres & HJ & Hm & Hlt).
  { change (2 ^ 52) with 4503599627370496. change (2 ^ 53) with 9007199254740992. lia. }
  { lia. }
  exists m, J. split; [exact Hres |]. split; [exact HJ |]. split; [lia |].
  intros ->. cbn [round_nearest_even] in *.
  change (2 ^ 53) with 9007199254740992 in Hlt.
  assert (J = 0) by (apply Hlt; lia). subst J.
  split; [| reflexivity]. rewrite Z.mul_1_r in Hm. congruence.
Qed.

(** Rounding a mantissa of 54 bits: one bit is shifted out, and the value
    moves by at most one unit. *)
Lemma binary_round_aux_54 s q e l :
  Zdigits2 (Zpos q) = 54 -> -1075 <= e <= 968 ->
  exists m J,
    binary_round_aux 53 1024 s (Zpos q) e l = S754_finite s m (e + J) /\
    1 <= J <= 2 /\
    Zpos q - 1 <= Zpos m * 2 ^ J <= Zpos q + 1.
Proof.
  intros Hd He. pose proof (Zdigits2_spec q) as Hq. rewrite Hd in Hq.
  change (2 ^ (54 - 1)) with 9007199254740992 in Hq.
  change (2 ^ 54) with 18014398509481984 in Hq.
  unfold binary_round_aux.
  rewrite shr_fexp_one by (rewrite Hd, fexp64_eq; lia).
  set (mrs := shr_1 (shr_record_of_loc (Zpos q) l)).
  assert (Hmrs : 2 * shr_m mrs <= Zpos q <= 2 * shr_m mrs + 1 /\
                 (round_nearest_even (shr_m mrs) (loc_of_shr_record mrs) = shr_m mrs + 1 ->
                  Zpos q = 2 * shr_m mrs + 1) /\
                 shr_m mrs <= round_nearest_even (shr_m mrs) (loc_of_shr_record mrs)
                 <= shr_m mrs + 1).
  { subst mrs. split; [| split].
    - destruct l as [| []], q; cbn; lia.
    - destruct l as [| []], q; cbn; try lia;
        match goal with |- context [Z.even ?x] => destruct (Z.even x) end; lia.
    - apply round_nearest_even_bounds. }
  destruct Hmrs as (Hhalf & Hup & Hr).
  destruct (renormalise s (round_nearest_even (shr_m mrs) (loc_of_shr_record mrs)) (e + 1))
    as (m & J & Hres & HJ & Hm & _).
  { change (2 ^ 52) with 4503599627370496. change (2 ^ 53) with 9007199254740992. lia. }
  { lia. }
  exists m, (1 + J). rewrite Z.add_assoc. split; [exact Hres |]. split; [lia |].
  rewrite Z.pow_add_r by lia. change (2 ^ 1) with 2.
  destruct (Z.eq_dec (round_nearest_even (shr_m mrs) (loc_of_shr_record mrs)) (shr_m mrs))
    as [E | E].
  - rewrite E in Hm. lia.
  - assert (E' : round_nearest_even (shr_m mrs) (loc_of_shr_record mrs) = shr_m mrs + 1)
      by lia.
    specialize (Hup E'). rewrite E' in Hm. lia.
Qed.

Lemma pos_iter_xO p k : Zpos (Pos.iter xO p k) = Zpos p * 2 ^ Zpos k.
Proof.
  induction k as [| k IH] using Pos.peano_ind.
  - cbn. lia.
  - rewrite Pos.iter_succ, Pos2Z.inj_succ, Z.pow_succ_r by lia.
    rewrite Pos2Z.inj_xO, IH. lia.
Qed.

(** [Number(b)] is exact below [2^53]: the normalised 53-bit mantissa of [b]. *)
Lemma ofBigInt_exact p :
  Zpos p < 2 ^ 53 ->
  exists mz,
    JsNumber.ofBigInt (Zpos p) = S754_finite false mz (Zdigits2 (Zpos p) - 53) /\
    Zpos mz = Zpos p * 2 ^ (53 - Zdigits2 (Zpos p)) /\
    Zdigits2 (Zpos mz) = 53.
Proof.
  intros Hp. pose proof (Zdigits2_spec p) as Hd.
  set (d := Zdigits2 (Zpos p)) in *.
  assert (Hd1 : 1 <= d) by (subst d; cbn; lia).
  assert (Hd53 : d <= 53).
  { destruct (Z_le_gt_dec d 53) as [H | H]; [exact H |].
    assert (2 ^ 53 <= 2 ^ (d - 1)) by (apply Z.pow_le_mono_r; lia). lia. }
  unfold JsNumber.ofBigInt, binary_normalize, binary_round, JsNumber.prec, JsNumber.emax.
  change (Zpos (digits2_pos p)) with d. rewrite Z.add_0_r.
  rewrite fexp64_eq by lia. unfold shl_align.
  assert (Hmz : exists mz,
             (match d - 53 - 0 with
              | Zneg k => (Pos.iter xO p k, d - 53)
              | _ => (p, 0)
              end) = (mz, d - 53) /\ Zpos mz = Zpos p * 2 ^ (53 - d)).
  { destruct (d - 53 - 0) as [| k | k] eqn:Ek; try lia.
    - exists p. replace (d - 53) with 0 by lia. replace (53 - d) with 0 by lia.
      split; [reflexivity | lia].
    - exists (Pos.iter xO p k). split; [reflexivity |].
      rewrite pos_iter_xO. f_equal. f_equal. lia. }
  destruct Hmz as (mz & -> & Hmz).
  assert (Hdz : Zdigits2 (Zpos mz) = 53).
  { apply Zdigits2_bounds; [lia |]. rewrite Hmz.
    replace (2 ^ (53 - 1)) with (2 ^ (d - 1) * 2 ^ (53 - d))
      by (rewrite <- Z.pow_add_r by lia; f_equal; lia).
    replace (2 ^ 53) with (2 ^ d * 2 ^ (53 - d))
      by (rewrite <- Z.pow_add_r by lia; f_equal; lia).
    assert (0 < 2 ^ (53 - d)) by (apply Z.pow_pos_nonneg; lia).
    split; [apply Z.mul_le_mono_nonneg_r; lia | apply Z.mul_lt_mono_pos_r; lia]. }
  destruct (binary_round_aux_53 false mz (d - 53) loc_Exact Hdz) as (m & J & Hres & _ & _ & Hex);
    [lia |].
  destruct (Hex eq_refl) as [-> ->]. rewrite Z.add_0_r in Hres.
  exists mz. auto.
Qed.

(** The quotient and the location that [SFdiv] rounds, for two 53-bit
    mantissas. *)
Lemma SFdiv_core_53 m1 e1 m2 e2 :
  Zdigits2 (Zpos m1) = 53 -> Zdigits2 (Zpos m2) = 53 -> -1021 <= e1 - e2 ->
  SFdiv_core_binary 53 1024 (Zpos m1) e1 (Zpos m2) e2 =
  (Zpos m1 * 2 ^ 53 / Zpos m2, e1 - e2 - 53,
   new_location (Zpos m2) ((Zpos m1 * 2 ^ 53) mod Zpos m2)).
Proof.
  intros H1 H2 He. unfold SFdiv_core_binary. rewrite H1, H2.
  replace (53 + e1 - (53 + e2)) with (e1 - e2) by lia.
  rewrite fexp64_eq by lia.
  replace (Z.min (e1 - e2 - 53) (e1 - e2)) with (e1 - e2 - 53) by lia.
  replace (e1 - e2 - (e1 - e2 - 53)) with 53 by lia.
  cbv iota beta zeta.
  rewrite Z.shiftl_mul_pow2 by lia.
  unfold Z.div, Z.modulo.
  destruct (Z.div_eucl (Zpos m1 * 2 ^ 53) (Zpos m2)) as [q r]. reflexivity.
Qed.

(** Rounding the scaled quotient by one unit does not move its floor: the
    quotient of an integer by 10000 stays [1/10000] below the next integer,
    and one unit of a 53-bit quotient is at most [2^-14]. *)
Lemma floor_after_rounding p t q m J :
  0 < p -> 14 <= t -> q = p * 2 ^ t / 10000 ->
  0 <= J <= 2 -> q - 1 <= m * 2 ^ J <= q + 1 -> (J = 0 -> q <= m) ->
  m / 2 ^ (t - J) = p / 10000.
Proof.
  intros Hp Ht Hq HJ Hm H0.
  set (K := p / 10000).
  assert (HT : 2 ^ t = 2 ^ (t - J) * 2 ^ J)
    by (rewrite <- Z.pow_add_r by lia; f_equal; lia).
  assert (HT14 : 2 ^ 14 <= 2 ^ t) by (apply Z.pow_le_mono_r; lia).
  change (2 ^ 14) with 16384 in HT14.
  assert (HJ1 : 0 < 2 ^ J) by (apply Z.pow_pos_nonneg; lia).
  assert (HW : 0 < 2 ^ (t - J)) by (apply Z.pow_pos_nonneg; lia).
  pose proof (Z.div_mod p 10000 ltac:(lia)) as Hdm.
  pose proof (Z.mod_pos_bound p 10000 ltac:(lia)) as Hmod.
  fold K in Hdm.
  pose proof (Z.div_mod (p * 2 ^ t) 10000 ltac:(lia)) as Hdq.
  pose proof (Z.mod_pos_bound (p * 2 ^ t) 10000 ltac:(lia)) as Hmq.
  rewrite <- Hq in Hdq.
  set (T := 2 ^ t) in *. set (W := 2 ^ (t - J)) in *. set (V := 2 ^ J) in *.
  set (s0 := p mod 10000) in *. set (r0 := (p * T) mod 10000) in *.
  assert (HpT : p * T = 10000 * (K * T) + s0 * T) by nia.
  assert (Hs0T : s0 * T <= 9999 * T) by nia.
  assert (Hlow : K * T <= q) by nia.
  assert (Hup : q + 1 < (K + 1) * T) by nia.
  symmetry. apply Z.div_unique with (r := m - K * W).
  - left. split.
    + destruct (Z.eq_dec J 0) as [E | E].
      * subst V. rewrite E in *. change (2 ^ 0) with 1 in *. nia.
      * assert (2 <= V).
        { subst V. replace J with (1 + (J - 1)) by lia.
          rewrite Z.pow_add_r by lia. change (2 ^ 1) with 2.
          assert (0 < 2 ^ (J - 1)) by (apply Z.pow_pos_nonneg; lia). lia. }
        nia.
    + nia.
  - lia.
Qed.

Lemma floorScaled_neg z e : e < 0 -> JsNumber.floorScaled z e = z / 2 ^ (- e).
Proof. intros He. destruct e; try lia. reflexivity. Qed.

(** [Math.floor(Number(b) / 10000)] is the integer quotient for every
    [b] below [2^53]. *)
Lemma floor_div_10000_exact p :
  Zpos p < 2 ^ 53 ->
  JsNumber.floorToBigInt
    (JsNumber.div (JsNumber.ofBigInt (Zpos p)) (JsNumber.ofBigInt 10000)) =
  Some (Zpos p / 10000).
Proof.
  intros Hp. pose proof (Zdigits2_spec p) as Hd.
  destruct (ofBigInt_exact p Hp) as (mz & -> & Hmz & Hdz).
  set (d := Zdigits2 (Zpos p)) in *.
  assert (Hd1 : 1 <= d) by (subst d; cbn; lia).
  assert (Hd53 : d <= 53).
  { destruct (Z_le_gt_dec d 53) as [H | H]; [exact H |].
    assert (2 ^ 53 <= 2 ^ (d - 1)) by (apply Z.pow_le_mono_r; lia). lia. }
  change (JsNumber.ofBigInt 10000) with (S754_finite false 5497558138880000 (-39)).
  unfold JsNumber.div, SFdiv, JsNumber.prec, JsNumber.emax.
  rewrite SFdiv_core_53; [| exact Hdz | reflexivity | lia].
  cbn [xorb].
  replace (d - 53 - -39 - 53) with (d - 67) by lia.
  set (q := Zpos mz * 2 ^ 53 / 5497558138880000).
  set (l := new_location _ _).
  assert (Hq : q = Zpos p * 2 ^ (67 - d) / 10000).
  { subst q. rewrite Hmz.
    replace (Zpos p * 2 ^ (53 - d) * 2 ^ 53) with (Zpos p * 2 ^ (67 - d) * 2 ^ 39).
    2:{ rewrite <- !Z.mul_assoc, <- !Z.pow_add_r by lia. do 2 f_equal. lia. }
    change 5497558138880000 with (10000 * 2 ^ 39).
    apply Z.div_mul_cancel_r; lia. }
  pose proof (Zdigits2_spec mz) as Hmzb. rewrite Hdz in Hmzb.
  change (2 ^ (53 - 1)) with 4503599627370496 in Hmzb.
  change (2 ^ 53) with 9007199254740992 in Hmzb.
  assert (Hqb : 4503599627370496 <= q < 18014398509481984).
  { subst q. change (2 ^ 53) with 9007199254740992. split.
    - apply Z.div_le_lower_bound; lia.
    - apply Z.div_lt_upper_bound; lia. }
  destruct q as [| q' | q'] eqn:Eq'; try lia.
  assert (Hround : exists m J,
             binary_round_aux 53 1024 false (Zpos q') (d - 67) l =
             S754_finite false m (d - 67 + J) /\
             0 <= J <= 2 /\ Zpos q' - 1 <= Zpos m * 2 ^ J <= Zpos q' + 1 /\
             (J = 0 -> Zpos q' <= Zpos m)).
  { destruct (Z_lt_ge_dec (Zpos q') 9007199254740992) as [Hlt | Hge].
    - destruct (binary_round_aux_53 false q' (d - 67) l) as (m & J & Hres & HJ & Hm & _).
      + apply Zdigits2_bounds; [lia |].
        change (2 ^ (53 - 1)) with 4503599627370496.
        change (2 ^ 53) with 9007199254740992. lia.
      + lia.
      + exists m, J. split; [exact Hres |]. split; [lia |]. split; [lia |].
        intros ->. change (2 ^ 0) with 1 in Hm. lia.
    - destruct (binary_round_aux_54 false q' (d - 67) l) as (m & J & Hres & HJ & Hm).
      + apply Zdigits2_bounds; [lia |].
        change (2 ^ (54 - 1)) with 9007199254740992.
        change (2 ^ 54) with 18014398509481984. lia.
      + lia.
      + exists m, J. split; [exact Hres |]. split; [lia |]. split; [lia |]. lia. }
  destruct Hround as (m & J & -> & HJ & Hm & H0).
  cbn [JsNumber.floorToBigInt cond_Zopp].
  rewrite floorScaled_neg by lia. f_equal.
  replace (- (d - 67 + J)) with (67 - d - J) by lia.
  apply (floor_after_rounding (Zpos p) (67 - d) (Zpos q') (Zpos m) J); auto; lia.
Qed.

Lemma dynamicBuffer_exact b :
  0 <= b < 2 ^ 53 ->
  dynamicBuffer b = Some (if b / 10000 =? 0 then 100000 else b / 10000).
Proof.
  intros Hb. unfold dynamicBuffer. destruct b as [| p | p]; try lia.
  - reflexivity.
  - rewrite floor_div_10000_exact by lia. reflexivity.
Qed.

Lemma binary_round_aux_sign s m e l :
  JsNumber.signOf (binary_round_aux 53 1024 s m e l) = Some s \/
  binary_round_aux 53 1024 s m e l = S754_nan.
Proof.
  unfold binary_round_aux.
  destruct (shr_fexp 53 1024 m e l) as [mrs' e'].
  destruct (shr_fexp 53 1024 _ e' loc_Exact) as [mrs'' e''].
  destruct (shr_m mrs''); [left; reflexivity | | right; reflexivity].
  destruct (e'' <=? 1024 - 53); left; reflexivity.
Qed.

Lemma ofBigInt_sign b :
  0 <= b ->
  JsNumber.signOf (JsNumber.ofBigInt b) = Some false \/ JsNumber.ofBigInt b = S754_nan.
Proof.
  intros Hb. unfold JsNumber.ofBigInt, binary_normalize. destruct b as [| p | p]; try lia.
  - left; reflexivity.
  - unfold binary_round. destruct (shl_align _ _ _) as [mz ez].
    apply binary_round_aux_sign.
Qed.

(** The guard buffer of a non-negative balance is positive. *)
Lemma dynamicBuffer_pos b g : 0 <= b -> dynamicBuffer b = Some g -> 0 < g.
Proof.
  intros Hb. unfold dynamicBuffer.
  change (JsNumber.ofBigInt 10000) with (S754_finite false 5497558138880000 (-39)).
  assert (Hq : forall q, 0 <= q -> 0 < (if q =? 0 then 100000 else q)).
  { intros q Hq. destruct (q =? 0) eqn:E; [lia |]. apply Z.eqb_neq in E. lia. }
  destruct (ofBigInt_sign b Hb) as [Hs | Hn].
  - destruct (JsNumber.ofBigInt b) as [s | s | | s m e]; cbn in Hs; try discriminate;
      injection Hs as ->; unfold JsNumber.div, SFdiv; cbn [xorb].
    + cbn. intros H; injection H as <-. lia.
    + destruct (SFdiv_core_binary _ _ _ _ _ _) as [[mz ez] lz].
      destruct (binary_round_aux_sign false mz ez lz) as [Hs | Hn].
      * unfold JsNumber.prec, JsNumber.emax.
        destruct (binary_round_aux 53 1024 false mz ez lz) as [s' | s' | | s' m' e'];
          cbn in Hs; try discriminate; injection Hs as ->;
          cbn [JsNumber.floorToBigInt cond_Zopp]; try discriminate.
        -- intros H; injection H as <-. reflexivity.
        -- intros H; injection H as <-. apply Hq.
           unfold JsNumber.floorScaled. destruct e'.
           ++ lia.
           ++ apply Z.mul_nonneg_nonneg; [lia |]. apply Z.pow_nonneg; lia.
           ++ apply Z.div_pos; [lia |]. apply Z.pow_pos_nonneg; lia.
      * unfold JsNumber.prec, JsNumber.emax. rewrite Hn. cbn. discriminate.
  - rewrite Hn. cbn. discriminate.
Qed.

Lemma shr_1_m mrs : 0 <= shr_m mrs -> shr_m (shr_1 mrs) = shr_m mrs / 2.
Proof.
  destruct mrs as [m r s]. cbn [shr_m]. intros Hm. rewrite <- Z.div2_div.
  destruct m as [| [p | p |] | p]; try lia; reflexivity.
Qed.

Lemma pow2_xO k : 2 ^ Zpos k~0 = 2 ^ Zpos k * 2 ^ Zpos k.
Proof. rewrite <- Z.pow_add_r by lia. f_equal. lia. Qed.

Lemma pow2_xI k : 2 ^ Zpos k~1 = 2 * (2 ^ Zpos k * 2 ^ Zpos k).
Proof.
  rewrite <- Z.pow_add_r by lia.
  replace (Zpos k~1) with (Z.succ (Zpos k + Zpos k)) by lia.
  rewrite Z.pow_succ_r by lia. reflexivity.
Qed.

Lemma shr_iter_m k :
  forall mrs, 0 <= shr_m mrs ->
              shr_m (iter_pos shr_1 k mrs) = shr_m mrs / 2 ^ Zpos k.
Proof.
  induction k as [k IH | k IH |]; intros mrs Hm; cbn [iter_pos].
  - assert (Hk : 0 < 2 ^ Zpos k) by (apply Z.pow_pos_nonneg; lia).
    assert (H1 : 0 <= shr_m (shr_1 mrs)).
    { rewrite shr_1_m by exact Hm. apply Z.div_pos; lia. }
    assert (H2 : 0 <= shr_m (iter_pos shr_1 k (shr_1 mrs))).
    { rewrite IH by exact H1. apply Z.div_pos; lia. }
    rewrite IH by exact H2. rewrite IH by exact H1. rewrite shr_1_m by exact Hm.
    rewrite !Z.div_div by lia. rewrite pow2_xI. reflexivity.
  - assert (Hk : 0 < 2 ^ Zpos k) by (apply Z.pow_pos_nonneg; lia).
    assert (H2 : 0 <= shr_m (iter_pos shr_1 k mrs)).
    { rewrite IH by exact Hm. apply Z.div_pos; lia. }
    rewrite IH by exact H2. rewrite IH by exact Hm.
    rewrite !Z.div_div by lia. rewrite pow2_xO. reflexivity.
  - rewrite shr_1_m by exact Hm. reflexivity.
Qed.

(** The last step of [binary_round_aux] at any exponent: the result is
    infinite only past the largest exponent. *)
Lemma renormalise_any s q1 e :
  2 ^ 52 <= q1 <= 2 ^ 53 -> -1074 <= e ->
  (let '(mrs, e') := shr_fexp 53 1024 q1 e loc_Exact in
   match shr_m mrs with
   | Z0 => S754_zero s
   | Zpos m => if e' <=? 1024 - 53 then S754_finite s m e' else S754_infinity s
   | Zneg _ => S754_nan
   end) = S754_infinity s \/
  exists m J,
    (let '(mrs, e') := shr_fexp 53 1024 q1 e loc_Exact in
     match shr_m mrs with
     | Z0 => S754_zero s
     | Zpos m => if e' <=? 1024 - 53 then S754_finite s m e' else S754_infinity s
     | Zneg _ => S754_nan
     end) = S754_finite s m (e + J) /\
    0 <= J <= 1 /\ Zpos m * 2 ^ J = q1 /\ Zdigits2 (Zpos m) = 53 /\ e + J <= 971.
Proof.
  change (2 ^ 52) with 4503599627370496. change (2 ^ 53) with 9007199254740992.
  intros Hq He. destruct q1 as [| q1 | q1]; try lia.
  destruct (Z.eq_dec (Zpos q1) 9007199254740992) as [Ecarry | Ecarry].
  - injection Ecarry as ->.
    rewrite shr_fexp_one by (cbn [Zdigits2 digits2_pos Pos.succ]; rewrite fexp64_eq; lia).
    cbn [shr_record_of_loc shr_1 shr_m].
    destruct (e + 1 <=? 1024 - 53) eqn:El; [| left; reflexivity].
    apply Z.leb_le in El. right.
    eexists _, 1. split; [reflexivity |]. split; [lia |]. split; [reflexivity |].
    split; [reflexivity | lia].
  - assert (Hd : Zdigits2 (Zpos q1) = 53).
    { apply Zdigits2_bounds; [lia |].
      change (2 ^ (53 - 1)) with 4503599627370496.
      change (2 ^ 53) with 9007199254740992. lia. }
    rewrite shr_fexp_keep by (rewrite Hd, fexp64_eq; lia).
    cbn [shr_record_of_loc shr_m].
    destruct (e <=? 1024 - 53) eqn:El; [| left; reflexivity].
    apply Z.leb_le in El. right.
    exists q1, 0. rewrite Z.add_0_r. split; [reflexivity |]. split; [lia |].
    split; [lia |]. split; [exact Hd | lia].
Qed.

Lemma shr_fexp_by m e l k :
  fexp 53 1024 (Zdigits2 m + e) - e = Zpos k ->
  shr_fexp 53 1024 m e l = (iter_pos shr_1 k (shr_record_of_loc m l), e + Zpos k).
Proof. intros H. unfold shr_fexp. rewrite H. reflexivity. Qed.

(** [Number(b)] from [2^53] on: infinite, or the 53 leading bits of [b]
    rounded by at most one unit in the last place. *)
Lemma ofBigInt_large p :
  2 ^ 53 <= Zpos p ->
  let n := Zdigits2 (Zpos p) - 53 in
  JsNumber.ofBigInt (Zpos p) = S754_infinity false \/
  exists mz J,
    JsNumber.ofBigInt (Zpos p) = S754_finite false mz (n + J) /\
    0 <= J <= 1 /\ Zdigits2 (Zpos mz) = 53 /\ n + J <= 971 /\
    Zpos p / 2 ^ n <= Zpos mz * 2 ^ J <= Zpos p / 2 ^ n + 1.
Proof.
  intros Hp n. pose proof (Zdigits2_spec p) as Hd.
  set (d := Zdigits2 (Zpos p)) in *.
  assert (Hd54 : 54 <= d).
  { destruct (Z_le_gt_dec 54 d) as [H | H]; [exact H |].
    assert (2 ^ d <= 2 ^ 53) by (apply Z.pow_le_mono_r; lia). lia. }
  assert (Hn : 1 <= n) by (subst n; lia).
  unfold JsNumber.ofBigInt, binary_normalize, binary_round, JsNumber.prec, JsNumber.emax.
  change (Zpos (digits2_pos p)) with d. rewrite Z.add_0_r.
  rewrite fexp64_eq by lia. unfold shl_align.
  replace (d - 53 - 0) with n by (subst n; lia).
  destruct n as [| k | k] eqn:En; try lia.
  unfold binary_round_aux.
  rewrite (shr_fexp_by (Zpos p) 0 loc_Exact k)
    by (change (Zdigits2 (Zpos p)) with d; rewrite fexp64_eq; lia).
  cbn [shr_record_of_loc]. rewrite Z.add_0_l.
  set (mrs := iter_pos shr_1 k _).
  assert (Hm : shr_m mrs = Zpos p / 2 ^ Zpos k).
  { subst mrs. rewrite shr_iter_m; cbn [shr_m]; [reflexivity | lia]. }
  assert (Hpk : 0 < 2 ^ Zpos k) by (apply Z.pow_pos_nonneg; lia).
  assert (Hmb : 2 ^ 52 <= shr_m mrs < 2 ^ 53).
  { rewrite Hm. split.
    - apply Z.div_le_lower_bound; [lia |].
      rewrite <- Z.pow_add_r by lia. replace (Zpos k + 52) with (d - 1) by lia. lia.
    - apply Z.div_lt_upper_bound; [lia |].
      rewrite <- Z.pow_add_r by lia. replace (Zpos k + 53) with d by lia. lia. }
  pose proof (round_nearest_even_bounds (shr_m mrs) (loc_of_shr_record mrs)) as Hr.
  destruct (renormalise_any false (round_nearest_even (shr_m mrs) (loc_of_shr_record mrs))
                            (Zpos k))
    as [Hinf | (m & J & Hres & HJ & Hmj & Hdm & He)]; [lia | lia | left; exact Hinf |].
  right. exists m, J. split; [exact Hres |]. rewrite <- Hm. repeat split; auto; lia.
Qed.

Lemma floorScaled_scaled m J ez :
  0 <= J -> 0 <= ez ->
  JsNumber.floorScaled m (ez - 14 + J) = m * 2 ^ J * 2 ^ ez / 2 ^ 14.
Proof.
  intros HJ Hez. rewrite <- Z.mul_assoc, <- Z.pow_add_r by lia.
  destruct (Z_lt_ge_dec (ez - 14 + J) 0) as [Hneg | Hpos].
  - rewrite floorScaled_neg by exact Hneg.
    replace (2 ^ 14) with (2 ^ (- (ez - 14 + J)) * 2 ^ (J + ez))
      by (rewrite <- Z.pow_add_r by lia; f_equal; lia).
    rewrite Z.div_mul_cancel_r; [reflexivity | |];
      apply Z.pow_nonzero; lia.
  - assert (Hfs : JsNumber.floorScaled m (ez - 14 + J) = m * 2 ^ (ez - 14 + J)).
    { unfold JsNumber.floorScaled. destruct (ez - 14 + J); try lia; reflexivity. }
    rewrite Hfs.
    replace (2 ^ (J + ez)) with (2 ^ (ez - 14 + J) * 2 ^ 14)
      by (rewrite <- Z.pow_add_r by lia; f_equal; lia).
    rewrite Z.mul_assoc, Z.div_mul; [reflexivity |]. apply Z.pow_nonzero; lia.
Qed.

Lemma guard_bounds mz E Vq q g0 :
  0 < mz -> 0 < E -> q = mz * 16384 / 10000 -> q - 1 <= Vq <= q + 1 ->
  g0 = Vq * E / 16384 ->
  10000 * g0 <= mz * E + E /\ mz * E - 2 * E < 10000 * (g0 + 1).
Proof.
  intros Hmz HE Hq HV Hg.
  pose proof (Z.div_mod (mz * 16384) 10000 ltac:(lia)) as Hdq.
  pose proof (Z.mod_pos_bound (mz * 16384) 10000 ltac:(lia)) as Hmq.
  rewrite <- Hq in Hdq.
  pose proof (Z.div_mod (Vq * E) 16384 ltac:(lia)) as Hdg.
  pose proof (Z.mod_pos_bound (Vq * E) 16384 ltac:(lia)) as Hmg.
  rewrite <- Hg in Hdg.
  assert (H1 : (q - 1) * E <= Vq * E) by (apply Z.mul_le_mono_nonneg_r; lia).
  assert (H2 : Vq * E <= (q + 1) * E) by (apply Z.mul_le_mono_nonneg_r; lia).
  assert (H3 : 10000 * q * E <= mz * 16384 * E) by (apply Z.mul_le_mono_nonneg_r; lia).
  assert (H4 : mz * 16384 * E <= (10000 * q + 9999) * E)
    by (apply Z.mul_le_mono_nonneg_r; lia).
  split; nia.
Qed.

(** [Math.floor(x / 10000)] for a normalised [x = mz * 2^ez] that is an
    integer: within one unit in the last place of the quotient. *)
Lemma floor_div_10000_bounds mz ez :
  Zdigits2 (Zpos mz) = 53 -> 0 <= ez <= 971 ->
  exists g0,
    JsNumber.floorToBigInt
      (JsNumber.div (S754_finite false mz ez) (JsNumber.ofBigInt 10000)) = Some g0 /\
    10000 * g0 <= Zpos mz * 2 ^ ez + 2 ^ ez /\
    Zpos mz * 2 ^ ez - 2 * 2 ^ ez < 10000 * (g0 + 1).
Proof.
  intros Hdz Hez.
  change (JsNumber.ofBigInt 10000) with (S754_finite false 5497558138880000 (-39)).
  unfold JsNumber.div, SFdiv, JsNumber.prec, JsNumber.emax.
  rewrite SFdiv_core_53; [| exact Hdz | reflexivity | lia].
  cbn [xorb].
  replace (ez - -39 - 53) with (ez - 14) by lia.
  set (q := Zpos mz * 2 ^ 53 / 5497558138880000).
  set (l := new_location _ _).
  assert (Hq : q = Zpos mz * 16384 / 10000).
  { subst q. change (2 ^ 53) with (16384 * 2 ^ 39).
    change 5497558138880000 with (10000 * 2 ^ 39).
    rewrite Z.mul_assoc. apply Z.div_mul_cancel_r; lia. }
  pose proof (Zdigits2_spec mz) as Hmzb. rewrite Hdz in Hmzb.
  change (2 ^ (53 - 1)) with 4503599627370496 in Hmzb.
  change (2 ^ 53) with 9007199254740992 in Hmzb.
  assert (Hqb : 4503599627370496 <= q < 18014398509481984).
  { rewrite Hq. split.
    - apply Z.div_le_lower_bound; lia.
    - apply Z.div_lt_upper_bound; lia. }
  destruct q as [| q' | q'] eqn:Eq'; try lia.
  assert (Hround : exists m J,
             binary_round_aux 53 1024 false (Zpos q') (ez - 14) l =
             S754_finite false m (ez - 14 + J) /\
             0 <= J <= 2 /\ Zpos q' - 1 <= Zpos m * 2 ^ J <= Zpos q' + 1).
  { destruct (Z_lt_ge_dec (Zpos q') 9007199254740992) as [Hlt | Hge].
    - destruct (binary_round_aux_53 false q' (ez - 14) l) as (m & J & Hres & HJ & Hm & _).
      + apply Zdigits2_bounds; [lia |].
        change (2 ^ (53 - 1)) with 4503599627370496.
        change (2 ^ 53) with 9007199254740992. lia.
      + lia.
      + exists m, J. split; [exact Hres |]. split; lia.
    - destruct (binary_round_aux_54 false q' (ez - 14) l) as (m & J & Hres & HJ & Hm).
      + apply Zdigits2_bounds; [lia |].
        change (2 ^ (54 - 1)) with 9007199254740992.
        change (2 ^ 54) with 18014398509481984. lia.
      + lia.
      + exists m, J. split; [exact Hres |]. split; lia. }
  destruct Hround as (m & J & -> & HJ & Hm).
  cbn [JsNumber.floorToBigInt cond_Zopp].
  rewrite floorScaled_scaled by lia. change (2 ^ 14) with 16384.
  eexists. split; [reflexivity |].
  apply (guard_bounds (Zpos mz) (2 ^ ez) (Zpos m * 2 ^ J) (Zpos q')); auto; try lia.
Qed.

(** The guard buffer of a balance of at least 10000 units is the
    ten-thousandth of the balance, up to the rounding of binary64: within
    one unit and a relative error of [2^-49]. *)
Lemma dynamicBuffer_approx b g :
  10000 <= b -> dynamicBuffer b = Some g ->
  0 < g /\
  2 ^ 49 * (10000 * g - b) <= b /\
  2 ^ 49 * (b - 10000 * (g + 1)) <= b.
Proof.
  intros Hb Hg. change (2 ^ 49) with 562949953421312.
  destruct (Z_lt_ge_dec b (2 ^ 53)) as [Hsmall | Hlarge].
  - rewrite dynamicBuffer_exact in Hg by lia.
    assert (1 <= b / 10000) by (apply Z.div_le_lower_bound; lia).
    pose proof (Z.mul_div_le b 10000 ltac:(lia)).
    pose proof (Z.mul_succ_div_gt b 10000 ltac:(lia)).
    destruct (b / 10000 =? 0) eqn:E; [apply Z.eqb_eq in E; lia |].
    injection Hg as <-. lia.
  - destruct b as [| p | p]; try lia.
    unfold dynamicBuffer in Hg.
    pose proof (Zdigits2_spec p) as Hd.
    pose proof (ofBigInt_large p ltac:(lia)) as Hbig. cbv zeta in Hbig.
    destruct Hbig as [Hinf | (mz & J & Hnum & HJ & Hdz & He & Hmz)].
    { rewrite Hinf in Hg. cbn in Hg. discriminate. }
    set (n := Zdigits2 (Zpos p) - 53) in *.
    assert (Hd54 : 1 <= n).
    { subst n. destruct (Z_le_gt_dec 54 (Zdigits2 (Zpos p))) as [H | H]; [lia |].
      assert (2 ^ Zdigits2 (Zpos p) <= 2 ^ 53) by (apply Z.pow_le_mono_r; lia). lia. }
    rewrite Hnum in Hg.
    destruct (floor_div_10000_bounds mz (n + J) Hdz ltac:(lia)) as (g0 & Hfl & Hup & Hlo).
    rewrite Hfl in Hg.
    assert (Hn : 0 < 2 ^ n) by (apply Z.pow_pos_nonneg; lia).
    assert (Hpn : 2 ^ 52 * 2 ^ n <= Zpos p).
    { rewrite <- Z.pow_add_r by lia.
      replace (52 + n) with (Zdigits2 (Zpos p) - 1) by (subst n; lia). lia. }
    change (2 ^ 52) with 4503599627370496 in Hpn.
    pose proof (Z.mul_div_le (Zpos p) (2 ^ n) Hn) as Hfloor.
    pose proof (Z.mul_succ_div_gt (Zpos p) (2 ^ n) Hn) as Hceil.
    rewrite Z.pow_add_r in Hup, Hlo by lia.
    assert (HJ2 : 1 <= 2 ^ J <= 2).
    { destruct (Z.eq_dec J 0) as [-> | HJ0]; [cbn; lia |].
      replace J with 1 by lia. cbn; lia. }
    set (N := 2 ^ n) in *. set (V := 2 ^ J) in *. set (Q := Zpos p / N) in *.
    assert (HX1 : Q * N <= Zpos mz * V * N) by (apply Z.mul_le_mono_nonneg_r; lia).
    assert (HX2 : Zpos mz * V * N <= (Q + 1) * N) by (apply Z.mul_le_mono_nonneg_r; lia).
    assert (HVN : N <= N * V <= 2 * N) by nia.
    assert (Hg0 : 1 <= g0) by nia.
    destruct (g0 =? 0) eqn:E; [apply Z.eqb_eq in E; lia |].
    injection Hg as <-. split; [lia |]. split; nia.
Qed.

(** ** The spend amount *)

Lemma safeAmountOf_inr (D : Deps) (t : TokenRecord) (amt : Z) :
  safeAmountOf D t = inr amt ->
  exists balanceWei buffer,
    parseUnits D (balanceOrZero t) (decimals t) = Some balanceWei /\
    dynamicBuffer balanceWei = Some buffer /\
    amt = balanceWei - buffer.
Proof.
  unfold safeAmountOf.
  destruct (JsNumber.isNaN (parseFloat D (balanceOrZero t))
            || JsNumber.leZero (parseFloat D (balanceOrZero t))); [discriminate |].
  destruct (parseUnits D (balanceOrZero t) (decimals t)) as [balanceWei |]; [| discriminate].
  destruct (dynamicBuffer balanceWei) as [buffer |] eqn:Eb; [| discriminate].
  intros H; injection H as <-. eauto.
Qed.

(** An entry of the plan built from the selection: its token is the one
    [dustTokens] holds under its address, its amount the safe amount. *)
Lemma plan_entry (D : Deps) (st : AppState) (A : Arrays) i t amt :
  buildConsistentArrays D st (selectedTokens st) = inr A ->
  nth_error (tokenData A) i = Some t ->
  nth_error (amounts A) i = Some amt ->
  findToken (address t) (dustTokens st) = Some t /\ safeAmountOf D t = inr amt.
Proof.
  intros HA Ht Hm. apply buildConsistentArrays_spec in HA. destruct HA as (_ & F1 & F2).
  destruct (Forall2_nth_error_r _ _ _ F1 i t Ht) as (addr & Hs & Hf).
  destruct (Forall2_nth_error_l _ _ _ F2 i t Ht) as (amt' & Hm' & Hsafe).
  assert (amt' = amt) by congruence. subst amt'.
  split; [| exact Hsafe].
  pose proof (findToken_some _ _ _ Hf) as [Haddr _]. rewrite Haddr.
  rewrite <- findToken_selected; [exact Hf |]. eapply nth_error_In; eauto.
Qed.

(** C5, as the code has it: the spend amount is the balance in the smallest
    unit less a guard buffer, and the buffer is the ten-thousandth of the
    balance when that is not zero, else 100000; it is not the larger of the
    two.  The ten-thousandth is exact below [2^53] and within one unit and
    the rounding of binary64 above.  For a non-negative balance the amount
    is below the balance. *)
Theorem C5_spend_is_balance_less_buffer (D : Deps) (st : AppState)
        (selected : list string) (A : Arrays) (i : nat) (t : TokenRecord) (amt : Z) :
  buildConsistentArrays D st selected = inr A ->
  nth_error (tokenData A) i = Some t ->
  nth_error (amounts A) i = Some amt ->
  exists balanceWei buffer,
    parseUnits D (balanceOrZero t) (decimals t) = Some balanceWei /\
    dynamicBuffer balanceWei = Some buffer /\
    amt = balanceWei - buffer /\
    (0 <= balanceWei -> 0 < buffer /\ amt <= balanceWei) /\
    (0 <= balanceWei < 2 ^ 53 ->
     buffer = if balanceWei / 10000 =? 0 then 100000 else balanceWei / 10000) /\
    (10000 <= balanceWei ->
     2 ^ 49 * (10000 * buffer - balanceWei) <= balanceWei /\
     2 ^ 49 * (balanceWei - 10000 * (buffer + 1)) <= balanceWei).
Proof.
  intros HA Ht Hm. apply buildConsistentArrays_spec in HA. destruct HA as (_ & _ & F2).
  destruct (Forall2_nth_error_l _ _ _ F2 i t Ht) as (amt' & Hm' & Hsafe).
  assert (amt' = amt) by congruence. subst amt'.
  destruct (safeAmountOf_inr D t amt Hsafe) as (balanceWei & buffer & Hp & Hb & ->).
  exists balanceWei, buffer. repeat split; auto.
  - eapply dynamicBuffer_pos; eauto.
  - pose proof (dynamicBuffer_pos balanceWei buffer H Hb). lia.
  - intros Hr. rewrite dynamicBuffer_exact in Hb by exact Hr. congruence.
  - apply (dynamicBuffer_approx balanceWei buffer); assumption.
  - apply (dynamicBuffer_approx balanceWei buffer); assumption.
Qed.

(** ** The amount of an approval *)

(** The buffered balance covers the required amount and stays within 0.2%
    of it. *)
Lemma buffered_balance_bounds (balanceWei buffer required : Z) :
  dynamicBuffer balanceWei = Some buffer ->
  required = balanceWei - buffer -> 0 < required -> 0 <= balanceWei ->
  required <= Z.quot (balanceWei * 1001) 1000 /\
  1000 * Z.quot (balanceWei * 1001) 1000 <= 1002 * required.
Proof.
  intros Hb -> Hreq Hn.
  pose proof (dynamicBuffer_pos balanceWei buffer Hn Hb) as Hpos.
  rewrite Z.quot_div_nonneg by lia.
  pose proof (Z.mul_div_le (balanceWei * 1001) 1000 ltac:(lia)) as Hfloor.
  split.
  - apply Z.le_trans with balanceWei; [lia |].
    apply Z.div_le_lower_bound; lia.
  - destruct (Z_lt_ge_dec balanceWei 10000) as [Hsmall | Hbig].
    + rewrite dynamicBuffer_exact in Hb
        by (change (2 ^ 53) with 9007199254740992; lia).
      rewrite Z.div_small in Hb by lia. cbn in Hb. injection Hb as <-. lia.
    + destruct (dynamicBuffer_approx balanceWei buffer ltac:(lia) Hb) as (_ & Hup & _).
      change (2 ^ 49) with 562949953421312 in Hup. lia.
Qed.

(** C1, as the code has it: every approval of a run is for an entry of the
    plan whose allowance was read below its required amount, is granted to
    the router, and approves the parsed balance times 1001 / 1000, whatever
    amount [handleSwap] computed; for a non-negative balance that is at
    least the required amount and at most 1.002 times it. *)
Theorem C1_approval_is_buffered_balance (D : Deps) (w : World) (st : AppState)
        (h : Trace) (token spender : string) (amt : Z) (r : Resp unit) :
  In (EvApprove token spender amt r) (snd (handleSwap D w st h)) ->
  exists A i t required balanceWei,
    buildConsistentArrays D st (selectedTokens st) = inr A /\
    nth_error (tokenData A) i = Some t /\ address t = token /\
    nth_error (amounts A) i = Some required /\
    (exists h', allowanceSeen D w h' token (walletAddress st) < required) /\
    parseUnits D (balanceOrZero t) (decimals t) = Some balanceWei /\
    spender = SPLIT_ROUTER D /\
    amt = Z.quot (balanceWei * 1001) 1000 /\
    (0 <= balanceWei -> required <= amt /\ 1000 * amt <= 1002 * required).
Proof.
  set (P := fun ev =>
              match ev with
              | EvApprove token spender amt _ =>
                  exists A i t required balanceWei,
                    buildConsistentArrays D st (selectedTokens st) = inr A /\
                    nth_error (tokenData A) i = Some t /\ address t = token /\
                    nth_error (amounts A) i = Some required /\
                    (exists h', allowanceSeen D w h' token (walletAddress st)
                                < required) /\
                    parseUnits D (balanceOrZero t) (decimals t) = Some balanceWei /\
                    spender = SPLIT_ROUTER D /\
                    amt = Z.quot (balanceWei * 1001) 1000 /\
                    (0 <= balanceWei ->
                     required <= amt /\ 1000 * amt <= 1002 * required)
              | _ => True
              end).
  assert (Hbody : emits P (fun _ => hasHigherToken D (selectedTokens st) = false)
                        (handleSwapBody D w st)).
  { apply handleSwapBody_emits; try (intros; exact I).
    intros A tok sp a r' HA (Hsp & t' & balanceWei & Hf & Hp & Ha)
           (i & t & required & h' & Ht & Haddr & Hr & Hlt).
    cbn. pose proof (allowanceSeen_nonneg D w h' tok (walletAddress st)) as Hnn.
    destruct (plan_entry D st A i t required HA Ht Hr) as [Hft Hsafe].
    rewrite Haddr in Hft. assert (t' = t) by congruence. subst t'.
    destruct (safeAmountOf_inr D t required Hsafe) as (b & buffer & Hp' & Hb & Hreq).
    assert (b = balanceWei) by congruence. subst b.
    exists A, i, t, required, balanceWei. subst a.
    repeat (split; [first [assumption | reflexivity | (exists h'; exact Hlt)] |]).
    intros Hn. apply (buffered_balance_bounds balanceWei buffer required); auto. lia. }
  intros Hin.
  pose proof (handleSwap_events D w st P h (proj1 (Hbody h))) as Hall.
  rewrite Forall_forall in Hall. exact (Hall _ Hin).
Qed.

(** ** Invalid balances *)

(** C9 on the code: a balance that parses to NaN, to zero or to a negative
    number fails with [InvalidBalance]; positive infinity passes the guard,
    so that a token whose balance string is "Infinity" fails the build with
    another error. *)
Theorem C9_infinite_balance_passes_the_guard :
  (forall D t,
      JsNumber.isNaN (parseFloat D (balanceOrZero t)) = true \/
      JsNumber.leZero (parseFloat D (balanceOrZero t)) = true ->
      safeAmountOf D t = inl (InvalidBalance (symbol t) (balanceFormatted t))) /\
  (forall D t sym balance,
      parseFloat D (balanceOrZero t) = S754_infinity false ->
      safeAmountOf D t <> inl (InvalidBalance sym balance)) /\
  parseFloat Reference.deps (balanceOrZero Reference.tokenInfinite) = S754_infinity false /\
  buildConsistentArrays Reference.deps (Reference.stateOf [Reference.tokenInfinite])
                        (selectedTokens (Reference.stateOf [Reference.tokenInfinite]))
  = inl (InvalidDecimalNumber "Infinity").
Proof.
  split; [| split; [| split]].
  - intros D t H. unfold safeAmountOf.
    destruct H as [H | H]; rewrite H; [reflexivity | rewrite orb_true_r; reflexivity].
  - intros D t sym balance H. unfold safeAmountOf. rewrite H. cbn.
    destruct (parseUnits D (balanceOrZero t) (decimals t)) as [b |]; [| discriminate].
    destruct (dynamicBuffer b); discriminate.
  - reflexivity.
  - vm_compute. reflexivity.
Qed.

(** * The claims on concrete runs *)

Lemma plan_of_A :
  buildConsistentArrays Reference.deps Reference.stateA (selectedTokens Reference.stateA)
  = inr Reference.planA.
Proof. vm_compute. reflexivity. Qed.

Lemma plan_of_AB :
  buildConsistentArrays Reference.deps Reference.stateAB (selectedTokens Reference.stateAB)
  = inr Reference.planAB.
Proof. vm_compute. reflexivity. Qed.

(** With allowance reads that stay at zero the run approves token A twice,
    each time for 1001000 units. *)
Lemma stale_run_approves_twice :
  filter (isApprovalOf (address Reference.tokenA))
         (snd (handleSwap Reference.deps Reference.staleAllowance Reference.stateA [])) =
  [EvApprove (address Reference.tokenA) (SPLIT_ROUTER Reference.deps) 1001000 (Returns tt);
   EvApprove (address Reference.tokenA) (SPLIT_ROUTER Reference.deps) 1001000 (Returns tt)].
Proof. vm_compute. reflexivity. Qed.

(** C1 fails as stated: token A needs 999900 units, whose buffered amount is
    1000899, and the run approves 1001000. *)
Lemma C1_counterexample :
  ~ approvesBufferedRequired Reference.deps Reference.staleAllowance Reference.stateA.
Proof.
  intros H.
  specialize (H Reference.planA 0%nat Reference.tokenA 999900
                (SPLIT_ROUTER Reference.deps) 1001000 (Returns tt)
                plan_of_A eq_refl eq_refl).
  assert (Hin : In (EvApprove (address Reference.tokenA) (SPLIT_ROUTER Reference.deps)
                              1001000 (Returns tt))
                   (filter (isApprovalOf (address Reference.tokenA))
                           (snd (handleSwap Reference.deps Reference.staleAllowance
                                            Reference.stateA [])))).
  { rewrite stale_run_approves_twice. left; reflexivity. }
  apply filter_In in Hin. destruct Hin as [Hin _].
  specialize (H Hin). vm_compute in H. discriminate.
Qed.

Lemma C1_witness :
  exists A i t required balanceWei,
    buildConsistentArrays Reference.deps Reference.stateA (selectedTokens Reference.stateA)
    = inr A /\
    nth_error (tokenData A) i = Some t /\ address t = address Reference.tokenA /\
    nth_error (amounts A) i = Some required /\
    (exists h', allowanceSeen Reference.deps Reference.staleAllowance h'
                              (address Reference.tokenA) (walletAddress Reference.stateA)
                < required) /\
    parseUnits Reference.deps (balanceOrZero t) (decimals t) = Some balanceWei /\
    SPLIT_ROUTER Reference.deps = SPLIT_ROUTER Reference.deps /\
    1001000 = Z.quot (balanceWei * 1001) 1000 /\
    (0 <= balanceWei -> required <= 1001000 /\ 1000 * 1001000 <= 1002 * required).
Proof.
  apply (C1_approval_is_buffered_balance
           Reference.deps Reference.staleAllowance Reference.stateA []
           (address Reference.tokenA) (SPLIT_ROUTER Reference.deps) 1001000 (Returns tt)).
  vm_compute. right; left; reflexivity.
Defined.

(** C2 fails as stated: the same run sends two approvals for token A. *)
Lemma C2_counterexample :
  ~ atMostOneApproval Reference.deps Reference.staleAllowance Reference.stateA.
Proof.
  intros H. specialize (H (address Reference.tokenA)).
  unfold approvalsOf in H. rewrite stale_run_approves_twice in H. cbn in H. lia.
Qed.

Lemma C2_witness :
  (approvalsOf (address Reference.tokenA)
               (snd (handleSwap Reference.deps Reference.preApproved Reference.stateAB []))
   <= 2 * count_occ string_dec (selectedTokens Reference.stateAB) (address Reference.tokenA))%nat /\
  approvalsOf (address Reference.tokenA)
              (snd (handleSwap Reference.deps Reference.preApproved Reference.stateAB []))
  = 0%nat.
Proof.
  pose proof (C2_at_most_one_approval_per_pass
                Reference.deps Reference.preApproved Reference.stateAB []
                (address Reference.tokenA)) as [Hle [Hzero _]].
  split; [exact Hle |]. apply Hzero.
  intros A i t required h' HA Ht Haddr Hr.
  rewrite plan_of_AB in HA. injection HA as <-.
  destruct i as [| [| i]]; cbn in Hr.
  - injection Hr as <-. vm_compute. discriminate.
  - injection Hr as <-. vm_compute. discriminate.
  - destruct i; discriminate.
Defined.

Lemma C3_witness :
  exists r rest,
    snd (approveToken Reference.deps Reference.staleAllowance Reference.stateA
                      (address Reference.tokenA) 7 []) =
    EvApprove (address Reference.tokenA) (SPLIT_ROUTER Reference.deps)
              (Z.quot (1000000 * 1001) 1000) r :: rest /\
    Forall (fun ev => isApprovalOf (address Reference.tokenA) ev = false) rest.
Proof.
  apply (proj2 (C3_approval_ignores_amount
                  Reference.deps Reference.staleAllowance Reference.stateA
                  (address Reference.tokenA) [])
               Reference.tokenA 1000000 7).
  - reflexivity.
  - discriminate.
  - reflexivity.
  - reflexivity.
  - discriminate.
Defined.

Lemma C4_witness :
  (consistent Reference.planAB /\
   addresses Reference.planAB = selectedTokens Reference.stateAB) /\
  exists e,
    afterBuild Reference.deps Reference.preApproved Reference.stateA
               Reference.misaligned [] = (inl e, []) /\
    isArrayConsistencyError e = true.
Proof.
  pose proof (C4_plan_arrays_aligned Reference.deps Reference.preApproved Reference.stateA)
    as [_ Hbad].
  pose proof (C4_plan_arrays_aligned Reference.deps Reference.preApproved Reference.stateAB)
    as [Hgood _].
  split.
  - apply Hgood. vm_compute. reflexivity.
  - apply Hbad. intros (_ & _ & Hal).
    destruct (Hal 0%nat Reference.tokenA eq_refl) as (addr & Ha & Hs).
    cbn in Ha. injection Ha as <-. vm_compute in Hs. discriminate.
Defined.

(** C5 fails as stated: token A holds 1000000 units and is spent for 999900,
    a buffer of 100, where the larger of 100 and 100000 would leave 900000. *)
Lemma C5_counterexample : ~ spendByMaxFormula Reference.deps Reference.stateA.
Proof.
  intros H.
  destruct (H Reference.planA 0%nat Reference.tokenA 999900 plan_of_A eq_refl eq_refl)
    as (balanceWei & Hp & Hm).
  vm_compute in Hp. injection Hp as <-. vm_compute in Hm. discriminate.
Qed.

Lemma C5_witness :
  exists balanceWei buffer,
    parseUnits Reference.deps (balanceOrZero Reference.tokenB) (decimals Reference.tokenB)
    = Some balanceWei /\
    dynamicBuffer balanceWei = Some buffer /\
    1999800000000000000 = balanceWei - buffer /\
    (0 <= balanceWei -> 0 < buffer /\ 1999800000000000000 <= balanceWei) /\
    (0 <= balanceWei < 2 ^ 53 ->
     buffer = if balanceWei / 10000 =? 0 then 100000 else balanceWei / 10000) /\
    (10000 <= balanceWei ->
     2 ^ 49 * (10000 * buffer - balanceWei) <= balanceWei /\
     2 ^ 49 * (balanceWei - 10000 * (buffer + 1)) <= balanceWei).
Proof.
  apply (C5_spend_is_balance_less_buffer
           Reference.deps Reference.stateAB (selectedTokens Reference.stateAB)
           Reference.planAB 1%nat Reference.tokenB 1999800000000000000).
  - vm_compute. reflexivity.
  - reflexivity.
  - reflexivity.
Defined.

Lemma C8_witness :
  (exists e,
      fst (handleSwap Reference.deps Reference.zeroQuote Reference.stateA [])
      = Failed e /\ isDustTooSmall e = true) /\
  Forall notGasNorSwap
         (snd (handleSwap Reference.deps Reference.zeroQuote Reference.stateA [])).
Proof.
  apply (C8_zero_quote_stops_the_run
           Reference.deps Reference.zeroQuote Reference.stateA []).
  vm_compute. reflexivity.
Defined.

Lemma C10_witness :
  Forall notGasNorSwap
         (snd (handleSwap Reference.deps Reference.preApproved Reference.stateHigher [])) /\
  fst (handleSwap Reference.deps Reference.preApproved Reference.stateHigher [])
  <> Submitted /\
  (isConnected Reference.stateHigher = true ->
   exists e,
     fst (handleSwap Reference.deps Reference.preApproved Reference.stateHigher [])
     = Failed e).
Proof.
  apply (C10_higher_token_rejected
           Reference.deps Reference.preApproved Reference.stateHigher []).
  vm_compute. reflexivity.
Defined.
(** ** The selection *)

Lemma existsb_eqb_In (a : string) (l : list string) :
  existsb (String.eqb a) l = true <-> In a l.
Proof.
  rewrite existsb_exists. split.
  - intros (x & Hin & E). apply String.eqb_eq in E. subst x. exact Hin.
  - intros Hin. exists a. split; [exact Hin | apply String.eqb_refl].
Qed.

Lemma existsb_eqb_not_In (a : string) (l : list string) :
  existsb (String.eqb a) l = false <-> ~ In a l.
Proof.
  rewrite <- existsb_eqb_In. destruct (existsb (String.eqb a) l); split; intros H;
    try discriminate; try reflexivity; try (intros ?; discriminate).
  exfalso; apply H; reflexivity.
Qed.

Lemma filter_other_id (addr : string) (l : list string) :
  ~ In addr l -> filter (fun a => negb (String.eqb a addr)) l = l.
Proof.
  induction l as [| x rest IH]; intros Hn; cbn; [reflexivity |].
  destruct (String.eqb x addr) eqn:E; cbn.
  - apply String.eqb_eq in E. subst x. exfalso. apply Hn. left; reflexivity.
  - rewrite IH; [reflexivity |]. intros Hin. apply Hn. right; exact Hin.
Qed.

Lemma filter_other_In (addr a : string) (l : list string) :
  In a (filter (fun x => negb (String.eqb x addr)) l) <-> a <> addr /\ In a l.
Proof.
  rewrite filter_In. split.
  - intros [Hin Hne]. split; [| exact Hin].
    apply negb_true_iff in Hne. apply String.eqb_neq in Hne. exact Hne.
  - intros [Hne Hin]. split; [exact Hin |].
    apply negb_true_iff. apply String.eqb_neq. exact Hne.
Qed.

Lemma toggleTokenSelection_In (tokenAddress : string) (prev : list string)
      (a : string) :
  In a (toggleTokenSelection tokenAddress prev) <->
  (a = tokenAddress /\ ~ In tokenAddress prev) \/ (a <> tokenAddress /\ In a prev).
Proof.
  unfold toggleTokenSelection.
  destruct (existsb (String.eqb tokenAddress) prev) eqn:E.
  - apply existsb_eqb_In in E. rewrite filter_other_In. split.
    + intros H. right. exact H.
    + intros [[_ Hn] | H]; [contradiction | exact H].
  - apply existsb_eqb_not_In in E. rewrite in_app_iff. cbn. split.
    + intros [Hin | [Heq | []]].
      * right. split; [| exact Hin]. intros ->. contradiction.
      * left. subst a. split; [reflexivity | exact E].
    + intros [[-> _] | [_ Hin]]; [right; left; reflexivity | left; exact Hin].
Qed.

(** X1: a click on a token's checkbox flips the membership of that address
    in the selection and of no other: the address is selected afterwards
    exactly when it was not before, and every other address stays as it
    was. *)
Theorem toggleTokenSelection_flips (tokenAddress : string) (prev : list string) :
  (In tokenAddress (toggleTokenSelection tokenAddress prev) <-> ~ In tokenAddress prev) /\
  (forall a, a <> tokenAddress ->
             (In a (toggleTokenSelection tokenAddress prev) <-> In a prev)).
Proof.
  split.
  - rewrite toggleTokenSelection_In. split.
    + intros [[_ H] | [H _]]; [exact H | congruence].
    + intros H. left. split; [reflexivity | exact H].
  - intros a Hne. rewrite toggleTokenSelection_In. split.
    + intros [[H _] | [_ H]]; [contradiction | exact H].
    + intros H. right. split; assumption.
Qed.

(** X2: two clicks on the same checkbox.  On an address that was not
    selected they give the selection back.  On a selected address they
    remove every occurrence of it and append it at the end.  So the
    selection is restored exactly when the address was not selected, or was
    selected once and stood last; in every other case the address moves to
    the end, and with it the position of the token in the plan of the next
    swap. *)
Theorem toggleTokenSelection_twice (tokenAddress : string) (prev : list string) :
  toggleTokenSelection tokenAddress (toggleTokenSelection tokenAddress prev) =
  (if existsb (String.eqb tokenAddress) prev
   then filter (fun addr => negb (String.eqb addr tokenAddress)) prev ++ [tokenAddress]
   else prev) /\
  (toggleTokenSelection tokenAddress (toggleTokenSelection tokenAddress prev) = prev <->
   ~ In tokenAddress prev \/
   exists front, prev = front ++ [tokenAddress] /\ ~ In tokenAddress front).
Proof.
  assert (Heq : toggleTokenSelection tokenAddress (toggleTokenSelection tokenAddress prev) =
                if existsb (String.eqb tokenAddress) prev
                then filter (fun addr => negb (String.eqb addr tokenAddress)) prev
                     ++ [tokenAddress]
                else prev).
  { unfold toggleTokenSelection at 2.
    destruct (existsb (String.eqb tokenAddress) prev) eqn:E.
    - unfold toggleTokenSelection.
      assert (Hn : existsb (String.eqb tokenAddress)
                           (filter (fun addr => negb (String.eqb addr tokenAddress)) prev)
                   = false).
      { apply existsb_eqb_not_In. rewrite filter_other_In. intros [Hne _]. congruence. }
      rewrite Hn. reflexivity.
    - unfold toggleTokenSelection.
      assert (Hy : existsb (String.eqb tokenAddress) (prev ++ [tokenAddress]) = true).
      { apply existsb_eqb_In. rewrite in_app_iff. right; left; reflexivity. }
      rewrite Hy. rewrite filter_app. cbn. rewrite String.eqb_refl. cbn.
      rewrite app_nil_r. apply filter_other_id. apply existsb_eqb_not_In. exact E. }
  split; [exact Heq |]. rewrite Heq.
  destruct (existsb (String.eqb tokenAddress) prev) eqn:E.
  - apply existsb_eqb_In in E. split.
    + intros Hback. right.
      exists (filter (fun addr => negb (String.eqb addr tokenAddress)) prev).
      split; [symmetry; exact Hback |].
      rewrite filter_other_In. intros [Hne _]. congruence.
    + intros [Hn | (front & Hprev & Hn)]; [contradiction |].
      rewrite Hprev at 1. rewrite filter_app, (filter_other_id _ _ Hn). cbn.
      rewrite String.eqb_refl. cbn. rewrite app_nil_r. symmetry; exact Hprev.
  - apply existsb_eqb_not_In in E. split; [intros _; left; exact E | reflexivity].
Qed.

Lemma toggleTokenSelection_NoDup (tokenAddress : string) (prev : list string) :
  NoDup prev -> NoDup (toggleTokenSelection tokenAddress prev).
Proof.
  intros Hnd. unfold toggleTokenSelection.
  destruct (existsb (String.eqb tokenAddress) prev) eqn:E.
  - apply NoDup_filter. exact Hnd.
  - apply existsb_eqb_not_In in E.
    apply NoDup_app; [exact Hnd | constructor; [intros [] | constructor] |].
    intros a Hin [Heq | []]. subst a. contradiction.
Qed.

Lemma click_invariant (dust : list TokenRecord) (selected : list string) (c : Click) :
  NoDup (map address dust) ->
  NoDup selected /\ incl selected (map address dust) ->
  NoDup (click dust selected c) /\ incl (click dust selected c) (map address dust).
Proof.
  intros Hd [Hnd Hin]. destruct c as [index |]; cbn.
  - destruct (nth_error dust index) as [token |] eqn:Et; [| split; assumption].
    split; [apply toggleTokenSelection_NoDup; exact Hnd |].
    intros a Ha. apply toggleTokenSelection_In in Ha.
    destruct Ha as [[-> _] | [_ Ha]]; [| apply Hin; exact Ha].
    apply in_map. eapply nth_error_In; eauto.
  - unfold toggleSelectAll.
    destruct (List.length selected =? List.length (map address dust))%nat.
    + split; [constructor | intros a []].
    + split; [exact Hd | apply incl_refl].
Qed.

Lemma click_incl (dust : list TokenRecord) (selected : list string) (c : Click) :
  incl selected (map address dust) -> incl (click dust selected c) (map address dust).
Proof.
  intros Hin. destruct c as [index |]; cbn.
  - destruct (nth_error dust index) as [token |] eqn:Et; [| assumption].
    intros a Ha. apply toggleTokenSelection_In in Ha.
    destruct Ha as [[-> _] | [_ Ha]]; [| apply Hin; exact Ha].
    apply in_map. eapply nth_error_In; eauto.
  - unfold toggleSelectAll.
    destruct (List.length selected =? List.length (map address dust))%nat.
    + intros a [].
    + apply incl_refl.
Qed.

Lemma clicks_incl (dust : list TokenRecord) (cs : list Click) :
  incl (clicks dust cs) (map address dust).
Proof.
  unfold clicks.
  assert (H : forall selected, incl selected (map address dust) ->
                               incl (fold_left (click dust) cs selected) (map address dust)).
  { induction cs as [| c rest IH]; intros selected Hs; cbn; [exact Hs |].
    apply IH. apply click_incl. exact Hs. }
  apply H. intros a [].
Qed.

Lemma clicks_invariant_from (dust : list TokenRecord) (cs : list Click) :
  NoDup (map address dust) ->
  forall selected,
    NoDup selected /\ incl selected (map address dust) ->
    NoDup (fold_left (click dust) cs selected) /\
    incl (fold_left (click dust) cs selected) (map address dust).
Proof.
  intros Hd. induction cs as [| c rest IH]; intros selected Hs; cbn; [exact Hs |].
  apply IH. apply click_invariant; assumption.
Qed.

(** X3: as long as the token list holds no address twice, whatever the user
    clicks - checkboxes and the select-all button, in any order - the
    selection holds no address twice and only addresses of listed tokens. *)
Theorem clicks_keep_selection_wellformed (dust : list TokenRecord) (cs : list Click) :
  NoDup (map address dust) ->
  NoDup (clicks dust cs) /\ incl (clicks dust cs) (map address dust).
Proof.
  intros Hd. unfold clicks. apply clicks_invariant_from; [exact Hd |].
  split; [constructor | intros a []].
Qed.

Lemma selectedTokensData_all (st : AppState) :
  incl (map address (dustTokens st)) (selectedTokens st) ->
  selectedTokensData st = dustTokens st.
Proof.
  intros Hin. unfold selectedTokensData.
  assert (H : forall l, incl (map address l) (selectedTokens st) ->
                        filter (fun token => existsb (String.eqb (address token))
                                                     (selectedTokens st)) l = l).
  { induction l as [| t rest IH]; intros Hl; cbn; [reflexivity |].
    assert (Ht : existsb (String.eqb (address t)) (selectedTokens st) = true).
    { apply existsb_eqb_In. apply Hl. left; reflexivity. }
    rewrite Ht, IH; [reflexivity |]. intros a Ha. apply Hl. right; exact Ha. }
  apply H. exact Hin.
Qed.

(** X4: for a selection without repeats that holds only listed addresses,
    of a token list without repeated addresses, the length test of the
    select-all button is exact: the button reads "all selected" exactly when
    every listed token is selected, it then clears the selection, and
    otherwise it selects every listed token, after which
    [selectedTokensData] is the whole token list. *)
Theorem select_all_is_exact (st : AppState) :
  NoDup (map address (dustTokens st)) ->
  NoDup (selectedTokens st) ->
  incl (selectedTokens st) (map address (dustTokens st)) ->
  (isAllSelected st = true <->
   forall t, In t (dustTokens st) -> In (address t) (selectedTokens st)) /\
  (isAllSelected st = true ->
   toggleSelectAll (dustTokens st) (selectedTokens st) = []) /\
  (isAllSelected st = false ->
   toggleSelectAll (dustTokens st) (selectedTokens st) = map address (dustTokens st) /\
   selectedTokensData
     (withSelection st (toggleSelectAll (dustTokens st) (selectedTokens st)))
   = dustTokens st).
Proof.
  intros Hd Hs Hin. unfold isAllSelected, toggleSelectAll. rewrite length_map.
  split; [| split].
  - rewrite Nat.eqb_eq. split.
    + intros Hlen t Ht.
      assert (Hincl : incl (map address (dustTokens st)) (selectedTokens st)).
      { apply NoDup_length_incl; [exact Hs | rewrite length_map; lia | exact Hin]. }
      apply Hincl. apply in_map. exact Ht.
    + intros Hall.
      assert (Hincl : incl (map address (dustTokens st)) (selectedTokens st)).
      { intros a Ha. apply in_map_iff in Ha. destruct Ha as (t & <- & Ht). auto. }
      pose proof (NoDup_incl_length Hd Hincl) as H1.
      pose proof (NoDup_incl_length Hs Hin) as H2.
      rewrite length_map in *. lia.
  - intros E. rewrite E. reflexivity.
  - intros E. rewrite E. split; [reflexivity |].
    exact (selectedTokensData_all (withSelection st (map address (dustTokens st)))
                                  (incl_refl _)).
Qed.

(** ** From the selection to the plan *)

Lemma buildLoop_TokenNotFound (D : Deps) (st : AppState) (selected : list string)
      (addr : string) :
  forall acc index,
    buildLoop D st acc index selected = inl (TokenNotFound addr) ->
    In addr selected /\ findToken addr (selectedTokensData st) = None.
Proof.
  induction selected as [| a rest IH]; intros acc index Hb; cbn in Hb; [discriminate |].
  unfold buildStep in Hb.
  destruct (findToken a (selectedTokensData st)) as [t |] eqn:Ef.
  - unfold safeAmountOf in Hb.
    destruct (JsNumber.isNaN (parseFloat D (balanceOrZero t))
              || JsNumber.leZero (parseFloat D (balanceOrZero t))); [discriminate |].
    destruct (parseUnits D (balanceOrZero t) (decimals t)) as [balanceWei |];
      [| discriminate].
    destruct (dynamicBuffer balanceWei) as [buffer |]; [| discriminate].
    apply IH in Hb. destruct Hb as [Hin Hf]. split; [right; exact Hin | exact Hf].
  - injection Hb as <-. split; [left; reflexivity | exact Ef].
Qed.

Lemma findToken_none (addr : string) (tokens : list TokenRecord) :
  findToken addr tokens = None -> ~ In addr (map address tokens).
Proof.
  unfold findToken. intros Hf Hin. apply in_map_iff in Hin.
  destruct Hin as (t & Ha & Ht).
  pose proof (find_none _ _ Hf t Ht) as Hn. cbn in Hn.
  rewrite Ha, String.eqb_refl in Hn. discriminate.
Qed.

(** X5: a selection made by clicking in the current token list never makes
    the plan construction fail with "Token not found": every selected
    address is found in [selectedTokensData]. *)
Theorem clicked_selection_is_found (D : Deps) (st : AppState) (cs : list Click)
        (addr : string) :
  selectedTokens st = clicks (dustTokens st) cs ->
  buildConsistentArrays D st (selectedTokens st) <> inl (TokenNotFound addr).
Proof.
  intros Hsel Hb. unfold buildConsistentArrays in Hb.
  apply buildLoop_TokenNotFound in Hb. destruct Hb as [Hin Hf].
  rewrite findToken_selected in Hf by exact Hin.
  apply findToken_none in Hf. apply Hf.
  rewrite Hsel in Hin. apply (clicks_incl (dustTokens st) cs). exact Hin.
Qed.

(** ** Approvals, one at a time *)

Lemma checkAllowance_run (D : Deps) (w : World) (token owner : string) (h : Trace) :
  exists v es,
    checkAllowance D w token owner h = (inr v, es) /\
    0 <= v /\ Forall (fun ev => isAllowanceRead ev = true) es /\
    (List.length es <= 1)%nat.
Proof.
  unfold checkAllowance. destruct (hasPublicClient w); cbn.
  - eexists _, _. split; [reflexivity |].
    split; [destruct (allowance w h token owner (SPLIT_ROUTER D)); lia |].
    split; [repeat constructor | cbn; lia].
  - exists 0, []. split; [reflexivity |]. split; [lia |]. split; [constructor | cbn; lia].
Qed.

Lemma approveToken_run (D : Deps) (w : World) (st : AppState)
      (tokenAddress : string) (amount : Z) (h : Trace) :
  (exists e, approveToken D w st tokenAddress amount h = (inl e, []) /\
             isPreflightError e = true) \/
  (exists amt reads,
      approveToken D w st tokenAddress amount h =
      (inr true,
       EvApprove tokenAddress (SPLIT_ROUTER D) amt
                 (approve w h tokenAddress (SPLIT_ROUTER D) amt) :: reads) /\
      approvalFromBalance D st tokenAddress (SPLIT_ROUTER D) amt /\
      Forall (fun ev => isAllowanceRead ev = true) reads /\
      (List.length reads <= 1)%nat).
Proof.
  destruct (approveToken D w st tokenAddress amount h) as [res trace] eqn:Hrun.
  unfold approveToken in Hrun.
  destruct (findToken tokenAddress (dustTokens st)) as [t |] eqn:Ef.
  2:{ left. injection Hrun as <- <-. eexists. split; reflexivity. }
  destruct (negb (JsString.truthy (balanceFormatted t))
            || JsNumber.eqZero (parseFloat D (balanceFormatted t))).
  { left. injection Hrun as <- <-. eexists. split; reflexivity. }
  destruct (parseUnits D (balanceOrZero t) (decimals t)) as [balanceWei |] eqn:Ep.
  2:{ left. injection Hrun as <- <-. eexists. split; reflexivity. }
  cbn [orThrow] in Hrun. unfold bind at 1 in Hrun. cbn [ret] in Hrun.
  destruct (negb (JsString.truthy (walletAddress st))).
  { left. injection Hrun as <- <-. eexists. split; reflexivity. }
  assert (Hfrom : approvalFromBalance D st tokenAddress (SPLIT_ROUTER D)
                                      (Z.quot (balanceWei * 1001) 1000)).
  { split; [reflexivity |]. exists t, balanceWei. auto. }
  unfold bind at 1 in Hrun. cbn [call] in Hrun. rewrite app_nil_r in Hrun.
  right. unfold bind in Hrun.
  match type of Hrun with
  | context [checkAllowance D w tokenAddress (walletAddress st) ?hh] =>
      destruct (checkAllowance_run D w tokenAddress (walletAddress st) hh)
        as (v & es & Hread & _ & Hes & Hlen)
  end.
  rewrite Hread in Hrun. cbn in Hrun. injection Hrun as <- <-.
  exists (Z.quot (balanceWei * 1001) 1000), es. rewrite !app_nil_r.
  split; [reflexivity | split; [exact Hfrom | split; assumption]].
Qed.

Lemma reads_are_no_approvals (es : Trace) :
  Forall (fun ev => isAllowanceRead ev = true) es -> filter isApproval es = [].
Proof.
  induction 1 as [| ev rest Hev _ IH]; [reflexivity |].
  destruct ev; cbn in Hev; try discriminate. cbn. exact IH.
Qed.

(** X6: [approveToken] ends in one of two ways.  It raises "no balance",
    an unparsable balance or "wallet not connected" before anything is
    sent; or it sends one approval request, for the router and for the
    buffered balance of the token, makes at most one allowance read and
    returns [true], whatever the wallet answers to the request: a refusal
    does not make it fail.  There is never more than one approval. *)
Theorem approveToken_ends_in_two_ways (D : Deps) (w : World) (st : AppState)
        (tokenAddress : string) (amount : Z) (h : Trace) :
  ((exists e, approveToken D w st tokenAddress amount h = (inl e, []) /\
              isPreflightError e = true) \/
   (exists amt reads,
       approveToken D w st tokenAddress amount h =
       (inr true,
        EvApprove tokenAddress (SPLIT_ROUTER D) amt
                  (approve w h tokenAddress (SPLIT_ROUTER D) amt) :: reads) /\
       approvalFromBalance D st tokenAddress (SPLIT_ROUTER D) amt /\
       Forall (fun ev => isAllowanceRead ev = true) reads /\
       (List.length reads <= 1)%nat)) /\
  (List.length (filter isApproval (snd (approveToken D w st tokenAddress amount h)))
   <= 1)%nat.
Proof.
  pose proof (approveToken_run D w st tokenAddress amount h) as Hrun.
  split; [exact Hrun |].
  destruct Hrun as [(e & Hr & _) | (amt & reads & Hr & _ & Hrd & _)];
    rewrite Hr; cbn [snd filter isApproval List.length]; try lia.
  rewrite (reads_are_no_approvals reads Hrd). cbn. lia.
Qed.
(** ** The maintenance and debug tools *)

Lemma find_filter_head {A} (p : A -> bool) (l : list A) :
  find p l = hd_error (filter p l).
Proof.
  induction l as [| x rest IH]; cbn; [reflexivity |].
  destruct (p x); [reflexivity | exact IH].
Qed.

(** X7: the Revoke button never fails and sends at most one transaction,
    whatever the selection: an approval of zero for the router, on the first
    token of [selectedTokensData] only (the first selected token in the
    order of the token list); with no selected token in the list it sends
    nothing. *)
Theorem revokeButton_revokes_first_only (D : Deps) (w : World) (st : AppState)
        (h : Trace) :
  fst (revokeButton D w st h) = inr tt /\
  snd (revokeButton D w st h) =
  match selectedTokensData st with
  | [] => []
  | t :: _ =>
      [EvApprove (address t) (SPLIT_ROUTER D) 0
                 (approve w h (address t) (SPLIT_ROUTER D) 0)]
  end.
Proof.
  unfold revokeButton, firstSelectedToken. rewrite find_filter_head.
  fold (selectedTokensData st).
  destruct (selectedTokensData st) as [| t rest]; cbn [hd_error].
  - split; reflexivity.
  - unfold revokeApproval, tryCatch, bind, call. cbn. split; reflexivity.
Qed.

Section ReadOnly.

Context (D : Deps) (w : World) (st : AppState).

Lemma checkAllowance_reads token owner :
  emits (fun ev => isAllowanceRead ev = true) anyValue (checkAllowance D w token owner).
Proof. apply checkAllowance_emits_any. reflexivity. Qed.

Lemma never_fails_bind {A B} (m : M A) (f : A -> M B) :
  (forall h, exists a, fst (m h) = inr a) ->
  (forall a h, exists b, fst (f a h) = inr b) ->
  forall h, exists b, fst (bind m f h) = inr b.
Proof.
  intros Hm Hf h. unfold bind. destruct (Hm h) as (a & Ha).
  destruct (m h) as [[e | a'] es]; cbn in Ha; [discriminate |].
  destruct (Hf a' (h ++ es)) as (b & Hb).
  destruct (f a' (h ++ es)) as [r es']; cbn in *. eauto.
Qed.

Lemma never_fails_tryCatch {A} (m : M A) (a0 : A) :
  forall h, exists a, fst (tryCatch m (fun _ => ret a0) h) = inr a.
Proof.
  intros h. unfold tryCatch. destruct (m h) as [[e | a] es]; cbn; eauto.
Qed.

Lemma never_fails_forEach {A} (body : A -> M unit) (xs : list A) :
  (forall x h, exists u, fst (body x h) = inr u) ->
  forall h, exists u, fst (forEach body xs h) = inr u.
Proof.
  intros Hb. induction xs as [| x rest IH]; cbn [forEach]; intros h.
  - exists tt. reflexivity.
  - apply never_fails_bind; [apply Hb | intros _; exact IH].
Qed.

Lemma debugTokenState_reads tokenAddress :
  emits (fun ev => isAllowanceRead ev = true) anyValue (debugTokenState D w st tokenAddress).
Proof.
  unfold debugTokenState. apply emits_tryCatch; [| intros e; apply emits_ret; exact I].
  destruct (findToken tokenAddress (dustTokens st)) as [t |]; [| apply emits_ret; exact I].
  apply emits_bind with (Q1 := anyValue); [apply checkAllowance_reads |]. intros _ _.
  apply emits_bind with (Q1 := anyValue); [apply emits_orThrow; intros; exact I |].
  intros _ _. apply emits_ret; exact I.
Qed.

End ReadOnly.

(** X8: the Debug button and the "Check ALL Allowances" button never fail
    and never send a transaction: all they do on the chain is read
    allowances, the Debug button at most one. *)
Theorem debug_buttons_only_read (D : Deps) (w : World) (st : AppState) (h : Trace) :
  (fst (debugButton D w st h) = inr tt /\
   Forall (fun ev => isAllowanceRead ev = true) (snd (debugButton D w st h)) /\
   (List.length (snd (debugButton D w st h)) <= 1)%nat) /\
  (fst (checkAllButton D w st h) = inr tt /\
   Forall (fun ev => isAllowanceRead ev = true) (snd (checkAllButton D w st h))).
Proof.
  split.
  - unfold debugButton. destruct (firstSelectedToken st) as [t |].
    2:{ cbn. repeat split; [constructor | lia]. }
    split; [| split].
    + destruct (never_fails_tryCatch
                  (match findToken (address t) (dustTokens st) with
                   | Some token =>
                       checkAllowance D w (address token) (ownerOrEmpty st) ;;;
                       orThrow (parseUnits D (balanceOrZero token) (decimals token))
                               (InvalidDecimalNumber (balanceOrZero token)) ;;;
                       ret tt
                   | None => ret tt
                   end) tt h) as ([] & Hu).
      exact Hu.
    + apply (debugTokenState_reads D w st (address t) h).
    + unfold debugTokenState, tryCatch.
      destruct (findToken (address t) (dustTokens st)) as [token |]; [| cbn; lia].
      unfold bind at 1.
      destruct (checkAllowance_run D w (address token) (ownerOrEmpty st) h)
        as (v & es & Hrun & _ & _ & Hlen).
      rewrite Hrun.
      destruct (parseUnits D (balanceOrZero token) (decimals token)); cbn;
        rewrite ?length_app; cbn; lia.
  - split.
    + unfold checkAllButton.
      destruct (never_fails_forEach
                  (fun tokenAddress =>
                     match findToken tokenAddress (dustTokens st) with
                     | Some _ => checkAllowance D w tokenAddress (ownerOrEmpty st) ;;; ret tt
                     | None => ret tt
                     end) (selectedTokens st)) with (h := h) as ([] & Hu); [| exact Hu].
      intros x h'. destruct (findToken x (dustTokens st)); [| exists tt; reflexivity].
      apply never_fails_bind.
      * intros h''. destruct (checkAllowance_run D w x (ownerOrEmpty st) h'')
          as (v & es & Hrun & _). rewrite Hrun. cbn. eauto.
      * intros _ h''. exists tt. reflexivity.
    + unfold checkAllButton.
      apply (emits_forEach (fun ev => isAllowanceRead ev = true)).
      intros x _. destruct (findToken x (dustTokens st)); [| apply emits_ret; exact I].
      apply emits_bind with (Q1 := anyValue); [apply checkAllowance_reads |].
      intros _ _. apply emits_ret; exact I.
Qed.

(** ** The validators that are never called *)

Lemma totalInput_from (amts : list Z) (a : Z) :
  fold_left Z.add amts a = a + totalInput amts.
Proof.
  unfold totalInput. revert a.
  induction amts as [| x rest IH]; intros a; cbn; [lia |].
  rewrite (IH (a + x)), (IH x). lia.
Qed.

Lemma totalInput_cons (x : Z) (amts : list Z) :
  totalInput (x :: amts) = x + totalInput amts.
Proof. unfold totalInput at 1. cbn. apply totalInput_from. Qed.

Lemma totalInput_nonneg (amts : list Z) :
  Forall (fun amount => 0 < amount) amts -> 0 <= totalInput amts.
Proof.
  induction 1 as [| x rest Hx _ IH]; [cbn; lia |]. rewrite totalInput_cons. lia.
Qed.

Lemma checkAmounts_ok (amts : list Z) :
  forall i,
    checkAmounts i amts = inr tt <->
    Forall (fun amount => 0 < amount <= 2 ^ 128 - 1) amts.
Proof.
  induction amts as [| x rest IH]; intros i; cbn [checkAmounts].
  - split; [constructor | reflexivity].
  - change (Z.shiftl 1 128) with (2 ^ 128).
    destruct (x <=? 0) eqn:E1.
    { apply Z.leb_le in E1. split; [discriminate |].
      intros H. inversion H; subst. lia. }
    apply Z.leb_gt in E1.
    destruct (x >? 2 ^ 128 - 1) eqn:E2.
    { apply Z.gtb_lt in E2. split; [discriminate |].
      intros H. inversion H; subst. lia. }
    rewrite Z.gtb_ltb in E2. apply Z.ltb_ge in E2.
    rewrite IH. split.
    + intros H. constructor; [lia | exact H].
    + intros H. inversion H; subst. assumption.
Qed.

Lemma checkAmounts_cases (amts : list Z) (i : nat) :
  checkAmounts i amts = inr tt \/ exists e, checkAmounts i amts = inl e.
Proof.
  destruct (checkAmounts i amts) as [e | []]; eauto.
Qed.

Lemma validateSwapInputs_true (tokens : list TokenRecord) (amts : list Z)
      (minReceive : Z) :
  validateSwapInputs tokens amts minReceive = inr true <->
  amts <> [] /\
  Forall (fun amount => 0 < amount <= 2 ^ 128 - 1) amts /\
  0 < minReceive.
Proof.
  unfold validateSwapInputs.
  destruct (checkAmounts 0 amts) as [e | []] eqn:Ec.
  - split; [discriminate |]. intros (_ & Hall & _).
    apply (checkAmounts_ok amts 0%nat) in Hall. congruence.
  - apply checkAmounts_ok in Ec.
    assert (Hpos : Forall (fun amount => 0 < amount) amts).
    { eapply Forall_impl; [| exact Ec]. intros a Ha. cbn in Ha. lia. }
    destruct (minReceive <=? 0) eqn:Em.
    { apply Z.leb_le in Em. split; [discriminate | intros (_ & _ & H); lia]. }
    apply Z.leb_gt in Em.
    destruct (totalInput amts =? 0) eqn:Et.
    + apply Z.eqb_eq in Et. split; [discriminate |]. intros (Hne & _ & _).
      destruct amts as [| x rest]; [congruence |].
      rewrite totalInput_cons in Et. inversion Hpos; subst.
      pose proof (totalInput_nonneg rest ltac:(assumption)). lia.
    + apply Z.eqb_neq in Et. split; [| reflexivity]. intros _.
      split; [| split; assumption]. intros ->. apply Et. reflexivity.
Qed.

(** X9: [validateSwapInputs] returns [true] exactly when there is at least
    one amount, every amount lies in [1, 2^128 - 1] and [minReceive] is
    positive; in every other case it raises.  With no amount at all and a
    positive [minReceive] what it raises is the RangeError of the division
    by the zero total in its last log line. *)
Theorem validateSwapInputs_accepts (tokens : list TokenRecord) (amts : list Z)
        (minReceive : Z) :
  (validateSwapInputs tokens amts minReceive = inr true <->
   amts <> [] /\
   Forall (fun amount => 0 < amount <= 2 ^ 128 - 1) amts /\
   0 < minReceive) /\
  (validateSwapInputs tokens amts minReceive = inr true \/
   exists e, validateSwapInputs tokens amts minReceive = inl e) /\
  (0 < minReceive -> validateSwapInputs tokens [] minReceive = inl DivisionByZero).
Proof.
  split; [apply validateSwapInputs_true |]. split.
  - unfold validateSwapInputs.
    destruct (checkAmounts 0 amts) as [e | []]; [right; eauto |].
    destruct (minReceive <=? 0); [right; eauto |].
    destruct (totalInput amts =? 0); [right; eauto | left; reflexivity].
  - intros Hm. unfold validateSwapInputs. cbn.
    destruct (minReceive <=? 0) eqn:E; [apply Z.leb_le in E; lia | reflexivity].
Qed.

(** X10: the minimum that [calculateMinReceive] derives from the amounts
    (0.05% of their sum; [calculateSafeMinReceive] and
    [tryProgressiveMinReceive] compute the same) passes
    [validateSwapInputs] exactly when the amounts sum to at least 2000
    units; below that it is zero and is rejected as an invalid
    [minReceive]. *)
Theorem calculateMinReceive_validated (tokens : list TokenRecord) (amts : list Z)
        (addrs : list string) :
  Forall (fun amount => 0 < amount <= 2 ^ 128 - 1) amts ->
  (validateSwapInputs tokens amts (calculateMinReceive tokens amts) = inr true <->
   2000 <= totalInput amts) /\
  (totalInput amts < 2000 ->
   validateSwapInputs tokens amts (calculateMinReceive tokens amts) =
   inl (InvalidMinReceive 0)) /\
  calculateSafeMinReceive tokens amts = calculateMinReceive tokens amts /\
  tryProgressiveMinReceive tokens amts addrs = calculateMinReceive tokens amts.
Proof.
  intros Hall.
  cut ((validateSwapInputs tokens amts (calculateMinReceive tokens amts) = inr true <->
        2000 <= totalInput amts) /\
       (totalInput amts < 2000 ->
        validateSwapInputs tokens amts (calculateMinReceive tokens amts) =
        inl (InvalidMinReceive 0))).
  { intros [H1 H2]. split; [exact H1 |]. split; [exact H2 |]. split; reflexivity. }
  assert (Hpos : Forall (fun amount => 0 < amount) amts).
  { eapply Forall_impl; [| exact Hall]. intros a Ha. cbn in Ha. lia. }
  pose proof (totalInput_nonneg amts Hpos) as Ht.
  unfold calculateMinReceive. split.
  - rewrite validateSwapInputs_true. split.
    + intros (_ & _ & Hm).
      destruct (Z_lt_ge_dec (totalInput amts) 2000) as [Hlt | Hge]; [| lia].
      rewrite Z.quot_small in Hm by lia. lia.
    + intros Hge. split; [| split; [exact Hall |]].
      * intros ->. cbn in Hge. lia.
      * apply Z.quot_str_pos. lia.
  - intros Hlt. rewrite Z.quot_small by lia.
    unfold validateSwapInputs.
    apply (checkAmounts_ok amts 0%nat) in Hall. rewrite Hall. reflexivity.
Qed.

(** *** Comparisons of converted bigints *)

Lemma binary_round_aux_opp m e l :
  binary_round_aux 53 1024 true m e l = SFopp (binary_round_aux 53 1024 false m e l).
Proof.
  unfold binary_round_aux.
  destruct (shr_fexp 53 1024 m e l) as [mrs' e'].
  destruct (shr_fexp 53 1024 _ e' loc_Exact) as [mrs'' e''].
  destruct (shr_m mrs''); [reflexivity | | reflexivity].
  destruct (e'' <=? 1024 - 53); reflexivity.
Qed.

Lemma ofBigInt_neg p :
  JsNumber.ofBigInt (Zneg p) = SFopp (JsNumber.ofBigInt (Zpos p)).
Proof.
  unfold JsNumber.ofBigInt, binary_normalize, binary_round, JsNumber.prec, JsNumber.emax.
  destruct (shl_align _ _ _) as [mz ez]. apply binary_round_aux_opp.
Qed.

(** [Number(b)] of a positive bigint: a positive number or [+Infinity], with
    the exponent of the leading bit. *)
Lemma ofBigInt_pos_shape p :
  (JsNumber.ofBigInt (Zpos p) = S754_infinity false /\ 2 ^ 53 <= Zpos p) \/
  exists m e,
    JsNumber.ofBigInt (Zpos p) = S754_finite false m e /\
    ((Zpos p < 2 ^ 53 /\ e = Zdigits2 (Zpos p) - 53 /\
      Zpos m = Zpos p * 2 ^ (53 - Zdigits2 (Zpos p))) \/
     (2 ^ 53 <= Zpos p /\ 1 <= e)).
Proof.
  destruct (Z_lt_ge_dec (Zpos p) (2 ^ 53)) as [Hlt | Hge].
  - destruct (ofBigInt_exact p Hlt) as (mz & Hres & Hmz & _).
    right. exists mz, (Zdigits2 (Zpos p) - 53). split; [exact Hres |]. left. auto.
  - destruct (ofBigInt_large p ltac:(lia)) as [Hinf | (mz & J & Hres & HJ & _ & _ & _)];
      [left; split; [exact Hinf | lia] |].
    right. eexists _, _. split; [exact Hres |]. right. split; [lia |].
    pose proof (Zdigits2_spec p) as Hd.
    assert (54 <= Zdigits2 (Zpos p)).
    { destruct (Z_le_gt_dec 54 (Zdigits2 (Zpos p))) as [H | H]; [exact H |].
      assert (2 ^ Zdigits2 (Zpos p) <= 2 ^ 53) by (apply Z.pow_le_mono_r; lia). lia. }
    lia.
Qed.

(** Comparing [Number(q)] with [Number(k)] for [0 < k < 2^53] is comparing
    the bigints. *)
Lemma ofBigInt_compare q k :
  0 < k < 2 ^ 53 ->
  SFcompare (JsNumber.ofBigInt q) (JsNumber.ofBigInt k) = Some (q ?= k).
Proof.
  intros Hk. destruct k as [| pk | pk]; try lia.
  destruct (ofBigInt_exact pk ltac:(lia)) as (mk & Hresk & Hmk & _).
  pose proof (Zdigits2_spec pk) as Hdk.
  set (dk := Zdigits2 (Zpos pk)) in *.
  assert (Hdk53 : 1 <= dk <= 53).
  { split; [subst dk; cbn; lia |].
    destruct (Z_le_gt_dec dk 53) as [H | H]; [exact H |].
    assert (2 ^ 53 <= 2 ^ (dk - 1)) by (apply Z.pow_le_mono_r; lia). lia. }
  rewrite Hresk.
  destruct q as [| pq | pq].
  - reflexivity.
  - destruct (ofBigInt_pos_shape pq)
      as [[Hinf Hge] | (m & e & Hres & [(Hlt & He & Hm) | (Hge & He)])].
    + rewrite Hinf. cbn [SFcompare]. f_equal. symmetry. apply Z.compare_gt_iff. lia.
    + rewrite Hres. cbn [SFcompare]. f_equal.
      pose proof (Zdigits2_spec pq) as Hdq.
      set (dq := Zdigits2 (Zpos pq)) in *. subst e.
      destruct (Z.compare_spec (dq - 53) (dk - 53)) as [Heq | Hl | Hg].
      * assert (dq = dk) by lia.
        change (PosDef.Pos.compare_cont Eq m mk) with (Zpos m ?= Zpos mk).
        rewrite Hm, Hmk. replace dq with dk by lia.
        assert (Hc : 0 < 2 ^ (53 - dk)) by (apply Z.pow_pos_nonneg; lia).
        destruct (Z.compare_spec (Zpos pq) (Zpos pk)) as [E | E | E].
        -- rewrite E. apply Z.compare_refl.
        -- apply Z.compare_lt_iff. apply Z.mul_lt_mono_pos_r; assumption.
        -- apply Z.compare_gt_iff. apply Z.mul_lt_mono_pos_r; assumption.
      * symmetry. apply Z.compare_lt_iff.
        assert (2 ^ dq <= 2 ^ (dk - 1)) by (apply Z.pow_le_mono_r; lia). lia.
      * symmetry. apply Z.compare_gt_iff.
        assert (2 ^ dk <= 2 ^ (dq - 1)) by (apply Z.pow_le_mono_r; lia). lia.
    + rewrite Hres. cbn [SFcompare]. f_equal.
      destruct (Z.compare_spec e (dk - 53)) as [Heq | Hl | Hg]; try lia.
      symmetry. apply Z.compare_gt_iff. lia.
  - rewrite ofBigInt_neg.
    destruct (ofBigInt_pos_shape pq) as [[Hinf _] | (m & e & Hres & _)].
    + rewrite Hinf. reflexivity.
    + rewrite Hres. reflexivity.
Qed.

Lemma SFcompare_antisym x y c :
  SFcompare x y = Some c -> SFcompare y x = Some (CompOpp c).
Proof.
  destruct x as [sx | sx | | sx mx ex], y as [sy | sy | | sy my ey]; cbn;
    try discriminate; intros H; injection H as <-;
    try (destruct sx; reflexivity); try (destruct sy; reflexivity);
    try (destruct sx, sy; reflexivity).
  destruct sx, sy; try reflexivity; f_equal;
    rewrite (Z.compare_antisym ex ey); destruct (ex ?= ey); cbn; try reflexivity;
    change (PosDef.Pos.compare_cont Eq my mx) with (Pos.compare my mx);
    change (PosDef.Pos.compare_cont Eq mx my) with (Pos.compare mx my);
    rewrite (Pos.compare_antisym mx my); destruct (Pos.compare mx my); reflexivity.
Qed.

Lemma ofBigInt_ltb_r q k :
  0 < k < 2 ^ 53 -> SFltb (JsNumber.ofBigInt q) (JsNumber.ofBigInt k) = (q <? k).
Proof.
  intros Hk. unfold SFltb, Z.ltb. rewrite ofBigInt_compare by exact Hk. reflexivity.
Qed.

Lemma ofBigInt_ltb_l q k :
  0 < k < 2 ^ 53 -> SFltb (JsNumber.ofBigInt k) (JsNumber.ofBigInt q) = (k <? q).
Proof.
  intros Hk. unfold SFltb, Z.ltb.
  rewrite (SFcompare_antisym _ _ _ (ofBigInt_compare q k Hk)).
  rewrite (Z.compare_antisym k q). destruct (k ?= q); reflexivity.
Qed.

(** X11: for a positive estimate [validateMinReceive] always answers, and
    the number-valued ratio it tests decides exactly as the integers do: a
    minimum below 50% of the estimate is replaced by 70% of it, one of 96%
    or more by 90% of it, and any other is kept.  The answer is always below
    96% of the estimate, and at least 50% of it once the estimate is 5 or
    more. *)
Theorem validateMinReceive_clamps (estimatedOutput minReceive : Z) :
  0 < estimatedOutput ->
  exists answer,
    validateMinReceive estimatedOutput minReceive = Some answer /\
    answer = (if 100 * minReceive <? 50 * estimatedOutput
              then Z.quot (estimatedOutput * 70) 100
              else if 96 * estimatedOutput <=? 100 * minReceive
                   then Z.quot (estimatedOutput * 90) 100
                   else minReceive) /\
    100 * answer < 96 * estimatedOutput /\
    (5 <= estimatedOutput -> 50 * estimatedOutput <= 100 * answer).
Proof.
  intros He. unfold validateMinReceive.
  destruct (estimatedOutput =? 0) eqn:E0; [apply Z.eqb_eq in E0; lia |].
  rewrite ofBigInt_ltb_r, ofBigInt_ltb_l by lia.
  set (q := Z.quot (minReceive * 100) estimatedOutput).
  assert (Hq50 : (q <? 50) = (100 * minReceive <? 50 * estimatedOutput)).
  { subst q. destruct (Z_lt_ge_dec minReceive 0) as [Hn | Hp].
    - assert (Z.quot (minReceive * 100) estimatedOutput <= 0).
      { apply Z.quot_le_upper_bound; lia. }
      transitivity true; [apply Z.ltb_lt; lia | symmetry; apply Z.ltb_lt; lia].
    - rewrite Z.quot_div_nonneg by lia.
      destruct (100 * minReceive <? 50 * estimatedOutput) eqn:E.
      + apply Z.ltb_lt in E. apply Z.ltb_lt.
        apply Z.div_lt_upper_bound; lia.
      + apply Z.ltb_ge in E. apply Z.ltb_ge.
        apply Z.div_le_lower_bound; lia. }
  assert (Hq95 : (95 <? q) = (96 * estimatedOutput <=? 100 * minReceive)).
  { subst q. destruct (Z_lt_ge_dec minReceive 0) as [Hn | Hp].
    - assert (Z.quot (minReceive * 100) estimatedOutput <= 0).
      { apply Z.quot_le_upper_bound; lia. }
      transitivity false; [apply Z.ltb_ge; lia | symmetry; apply Z.leb_gt; lia].
    - rewrite Z.quot_div_nonneg by lia.
      destruct (96 * estimatedOutput <=? 100 * minReceive) eqn:E.
      + apply Z.leb_le in E. apply Z.ltb_lt.
        assert (96 <= minReceive * 100 / estimatedOutput)
          by (apply Z.div_le_lower_bound; lia). lia.
      + apply Z.leb_gt in E. apply Z.ltb_ge.
        assert (minReceive * 100 / estimatedOutput < 96)
          by (apply Z.div_lt_upper_bound; lia). lia. }
  rewrite Hq50, Hq95.
  assert (H70 : 100 * Z.quot (estimatedOutput * 70) 100 <= 70 * estimatedOutput /\
                70 * estimatedOutput - 100 < 100 * Z.quot (estimatedOutput * 70) 100).
  { rewrite Z.quot_div_nonneg by lia.
    pose proof (Z.mul_div_le (estimatedOutput * 70) 100 ltac:(lia)).
    pose proof (Z.mul_succ_div_gt (estimatedOutput * 70) 100 ltac:(lia)). lia. }
  assert (H90 : 100 * Z.quot (estimatedOutput * 90) 100 <= 90 * estimatedOutput /\
                90 * estimatedOutput - 100 < 100 * Z.quot (estimatedOutput * 90) 100).
  { rewrite Z.quot_div_nonneg by lia.
    pose proof (Z.mul_div_le (estimatedOutput * 90) 100 ltac:(lia)).
    pose proof (Z.mul_succ_div_gt (estimatedOutput * 90) 100 ltac:(lia)). lia. }
  destruct (100 * minReceive <? 50 * estimatedOutput) eqn:E1.
  - eexists. split; [reflexivity |]. split; [reflexivity |]. split; lia.
  - apply Z.ltb_ge in E1.
    destruct (96 * estimatedOutput <=? 100 * minReceive) eqn:E2.
    + eexists. split; [reflexivity |]. split; [reflexivity |]. split; lia.
    + apply Z.leb_gt in E2.
      eexists. split; [reflexivity |]. split; [reflexivity |]. split; lia.
Qed.

(** *** Scaling *)

Lemma scaleAmount_bounds (maxAmountWei amount : Z) :
  0 < maxAmountWei -> 0 < amount ->
  exists scaled,
    scaleAmount maxAmountWei amount = Some scaled /\
    (maxAmountWei < amount ->
     maxAmountWei <= scaled < 2 * maxAmountWei /\ scaled <= amount) /\
    (amount <= maxAmountWei -> amount < 10 ^ 18 ->
     10 ^ 18 < 2 * scaled /\ scaled <= 10 ^ 18 /\ amount <= scaled) /\
    (amount <= maxAmountWei -> 10 ^ 18 <= amount -> scaled = amount).
Proof.
  intros Hmax Ha. unfold scaleAmount, bigDiv.
  change 1000000000000000000 with (10 ^ 18).
  destruct (amount >? maxAmountWei) eqn:E1.
  - apply Z.gtb_lt in E1.
    destruct (maxAmountWei =? 0) eqn:E0; [apply Z.eqb_eq in E0; lia |].
    rewrite (Z.quot_div_nonneg amount maxAmountWei) by lia.
    set (f := amount / maxAmountWei).
    assert (Hf : 1 <= f) by (apply Z.div_le_lower_bound; lia).
    destruct (f =? 0) eqn:Ef; [apply Z.eqb_eq in Ef; lia |].
    rewrite Z.quot_div_nonneg by lia.
    eexists. split; [reflexivity |].
    pose proof (Z.mul_div_le amount maxAmountWei ltac:(lia)) as H1.
    pose proof (Z.mul_succ_div_gt amount maxAmountWei ltac:(lia)) as H2.
    fold f in H1, H2.
    split; [| split; intros; lia]. intros _.
    split; [split |].
    + apply Z.div_le_lower_bound; lia.
    + apply Z.div_lt_upper_bound; [lia |]. nia.
    + apply Z.div_le_upper_bound; [lia |]. nia.
  - rewrite Z.gtb_ltb in E1. apply Z.ltb_ge in E1.
    destruct (amount <? 10 ^ 18) eqn:E2.
    + apply Z.ltb_lt in E2.
      destruct (amount =? 0) eqn:E0; [apply Z.eqb_eq in E0; lia |].
      rewrite Z.quot_div_nonneg by lia.
      eexists. split; [reflexivity |].
      pose proof (Z.mul_div_le (10 ^ 18) amount ltac:(lia)) as H1.
      pose proof (Z.mul_succ_div_gt (10 ^ 18) amount ltac:(lia)) as H2.
      assert (Hf : 1 <= 10 ^ 18 / amount) by (apply Z.div_le_lower_bound; lia).
      split; [intros; lia |]. split; [| intros; lia]. intros _ _. nia.
    + apply Z.ltb_ge in E2.
      eexists. split; [reflexivity |]. split; [intros; lia |]. split; intros; lia.
Qed.

Lemma scaleAmount_zero (maxAmountWei : Z) :
  0 <= maxAmountWei -> scaleAmount maxAmountWei 0 = None.
Proof.
  intros Hmax. unfold scaleAmount.
  destruct (0 >? maxAmountWei) eqn:E; [apply Z.gtb_lt in E; lia | reflexivity].
Qed.

(** X12: for a positive maximum and positive amounts [scaleDownAmounts]
    returns one amount per input.  An amount above the maximum comes out in
    [max, 2 * max): it is reduced, but not below the maximum.  An amount
    below 10^18 that does not exceed the maximum is raised into
    (10^18 / 2, 10^18].  Any other amount is left as it is.  An amount of
    zero makes the whole call raise a RangeError (division by zero). *)
Theorem scaleDownAmounts_bounds (amts : list Z) (maxAmountWei : Z) :
  0 < maxAmountWei ->
  (Forall (fun amount => 0 < amount) amts ->
   exists scaled,
     scaleDownAmounts amts maxAmountWei = Some scaled /\
     Forall2 (fun amount s =>
                (maxAmountWei < amount ->
                 maxAmountWei <= s < 2 * maxAmountWei /\ s <= amount) /\
                (amount <= maxAmountWei -> amount < 10 ^ 18 ->
                 10 ^ 18 < 2 * s /\ s <= 10 ^ 18 /\ amount <= s) /\
                (amount <= maxAmountWei -> 10 ^ 18 <= amount -> s = amount))
             amts scaled) /\
  (In 0 amts -> scaleDownAmounts amts maxAmountWei = None).
Proof.
  intros Hmax. split.
  - induction 1 as [| a rest Ha _ IH]; cbn [scaleDownAmounts].
    + exists []. split; [reflexivity | constructor].
    + destruct (scaleAmount_bounds maxAmountWei a Hmax Ha) as (s & Hs & Hb).
      destruct IH as (scaled & Hrest & Hall).
      rewrite Hs, Hrest. exists (s :: scaled). split; [reflexivity |].
      constructor; assumption.
  - induction amts as [| a rest IH]; intros Hin; [destruct Hin |].
    cbn [scaleDownAmounts]. destruct Hin as [-> | Hin].
    + rewrite scaleAmount_zero by lia. reflexivity.
    + destruct (scaleAmount maxAmountWei a); [| reflexivity].
      rewrite IH by exact Hin. reflexivity.
Qed.

(** ** The balance re-check *)

Lemma recheckBalances_keeps (D : Deps) (P : Event -> Prop) (amts : list Z)
      (tokens : list TokenRecord) :
  forall i,
    (forall j t, nth_error tokens j = Some t ->
                 exists amt, nth_error amts (i + j) = Some amt /\
                             safeAmountOf D t = inr amt) ->
    emits P (fun r => r = amts) (recheckBalances D i tokens amts).
Proof.
  induction tokens as [| token rest IH]; intros i Hplan; cbn [recheckBalances].
  - apply emits_ret. reflexivity.
  - destruct (Hplan 0%nat token eq_refl) as (amount & Hat & Hsafe).
    rewrite Nat.add_0_r in Hat.
    destruct (safeAmountOf_inr D token amount Hsafe) as (balanceWei & buffer & Hp & Hb & Ha).
    unfold at_. rewrite Hat, Hp. cbn [orThrow].
    apply emits_bind with (Q1 := fun a => a = amount); [apply emits_ret; reflexivity |].
    intros ? ->.
    apply emits_bind with (Q1 := fun b => b = balanceWei); [apply emits_ret; reflexivity |].
    intros ? ->. rewrite Hb. cbn [orThrow].
    apply emits_bind with (Q1 := fun g => g = buffer); [apply emits_ret; reflexivity |].
    intros ? ->. cbn zeta.
    assert (Hno : (amount >? balanceWei - buffer) = false).
    { rewrite Z.gtb_ltb. apply Z.ltb_ge. lia. }
    rewrite Hno.
    destruct (amount >? balanceWei); [apply emits_throw |].
    apply IH. intros j t Hj. destruct (Hplan (S j) t Hj) as (amt & Hamt & Hs).
    exists amt. split; [| exact Hs]. rewrite <- Hamt. f_equal. lia.
Qed.

Lemma plan_entries (D : Deps) (st : AppState) (A : Arrays) (selected : list string) :
  buildConsistentArrays D st selected = inr A ->
  forall j t, nth_error (tokenData A) j = Some t ->
              exists amt, nth_error (amounts A) (0 + j) = Some amt /\
                          safeAmountOf D t = inr amt.
Proof.
  intros HA j t Ht. apply buildConsistentArrays_spec in HA. destruct HA as (_ & _ & F2).
  destruct (Forall2_nth_error_l _ _ _ F2 j t Ht) as (amt & Hm & Hs). eauto.
Qed.

Lemma recheckBalances_passes (D : Deps) (amts : list Z) (tokens : list TokenRecord) :
  forall i h,
    (forall j t, nth_error tokens j = Some t ->
                 exists amt, nth_error amts (i + j) = Some amt /\
                             safeAmountOf D t = inr amt) ->
    (forall t balanceWei,
        In t tokens ->
        parseUnits D (balanceOrZero t) (decimals t) = Some balanceWei ->
        0 <= balanceWei) ->
    recheckBalances D i tokens amts h = (inr amts, []).
Proof.
  induction tokens as [| token rest IH]; intros i h Hplan Hpos; cbn [recheckBalances].
  - reflexivity.
  - destruct (Hplan 0%nat token eq_refl) as (amount & Hat & Hsafe).
    rewrite Nat.add_0_r in Hat.
    destruct (safeAmountOf_inr D token amount Hsafe) as (balanceWei & buffer & Hp & Hb & Ha).
    pose proof (Hpos token balanceWei (or_introl eq_refl) Hp) as Hnn.
    pose proof (dynamicBuffer_pos balanceWei buffer Hnn Hb) as Hg.
    assert (Hno : (amount >? balanceWei - buffer) = false).
    { rewrite Z.gtb_ltb. apply Z.ltb_ge. lia. }
    assert (Hle : (amount >? balanceWei) = false).
    { rewrite Z.gtb_ltb. apply Z.ltb_ge. lia. }
    unfold at_. rewrite Hat, Hp. cbn [orThrow].
    unfold bind at 1. cbn [ret]. unfold bind at 1. cbn [ret].
    rewrite Hb. cbn [orThrow]. unfold bind at 1. cbn [ret]. cbn zeta.
    rewrite Hno, Hle. rewrite IH; [reflexivity | |].
    + intros j t Hj. destruct (Hplan (S j) t Hj) as (amt & Hamt & Hs).
      exists amt. split; [| exact Hs]. rewrite <- Hamt. f_equal. lia.
    + intros t b Hin. apply Hpos. right; exact Hin.
Qed.

(** X13: the balance re-check before the swap never changes an amount of
    the plan it is given: when it passes, the amounts that go to the quotes
    and to the swap are those of [buildConsistentArrays]; its "adjusting"
    branch is never taken.  For balances that parse to non-negative
    integers it always passes, and makes no call. *)
Theorem recheck_never_adjusts_the_plan (D : Deps) (st : AppState) (A : Arrays)
        (h : Trace) :
  buildConsistentArrays D st (selectedTokens st) = inr A ->
  (forall amts,
      fst (recheckBalances D 0 (tokenData A) (amounts A) h) = inr amts ->
      amts = amounts A) /\
  ((forall t balanceWei,
       In t (tokenData A) ->
       parseUnits D (balanceOrZero t) (decimals t) = Some balanceWei ->
       0 <= balanceWei) ->
   recheckBalances D 0 (tokenData A) (amounts A) h = (inr (amounts A), [])).
Proof.
  intros HA. split.
  - intros amts Hr.
    pose proof (recheckBalances_keeps D (fun _ => True) (amounts A) (tokenData A) 0%nat
                  (plan_entries D st A _ HA) h) as [_ Hq].
    rewrite Hr in Hq. exact Hq.
  - intros Hpos. apply recheckBalances_passes; [| exact Hpos].
    apply (plan_entries D st A _ HA).
Qed.

(** ** The end of a run *)

Lemma preparation_not_submission ev :
  isPreparation ev = true -> isSwapSubmission ev = false.
Proof. destruct ev; cbn; intros; congruence. Qed.

Lemma reachesSubmission_bind (D : Deps) (addrs : list string) (amts : list Z)
      {A} (Q : A -> Prop) (m : M A) (f : A -> M unit) :
  emits (fun ev => isPreparation ev = true) Q m ->
  (forall a, Q a -> reachesSubmission D addrs amts (f a)) ->
  reachesSubmission D addrs amts (bind m f).
Proof.
  intros Hm Hf h. unfold bind. destruct (Hm h) as [Hes Hq].
  destruct (m h) as [[e | a] es]; cbn in Hes, Hq.
  - left. exists e. split; [reflexivity |]. cbn.
    eapply Forall_impl; [| exact Hes]. apply preparation_not_submission.
  - destruct (Hf a Hq (h ++ es))
      as [(e & He & Hno) | (pre & total & quotes & gas & answer & Hs & Hpre & Ht & Hh & Hr)];
      destruct (f a (h ++ es)) as [r es']; cbn in *.
    + left. exists e. split; [exact He |]. apply Forall_app. split; [| exact Hno].
      eapply Forall_impl; [| exact Hes]. apply preparation_not_submission.
    + right. exists (es ++ pre), total, quotes, gas, answer.
      split; [rewrite Hs, app_assoc; reflexivity |].
      split; [apply Forall_app; split; assumption |]. auto.
Qed.

Lemma bulkQuote_run (w : World) (addrs : list string) (amts : list Z) (h : Trace) :
  bulkQuote w addrs amts h =
  if hasPublicClient w then
    match getBulkSwapQuote w h addrs amts with
    | Returns (total, quotes) =>
        (if (total =? 0)%N then inl (BulkQuoteValidationFailed TotalOutputZero)
         else inr (Z.of_N total),
         [EvGetBulkSwapQuote addrs amts (Returns (total, quotes))])
    | Rejects msg =>
        (inl (BulkQuoteValidationFailed (CallFailed msg)),
         [EvGetBulkSwapQuote addrs amts (Rejects msg)])
    end
  else (inl (BulkQuoteValidationFailed NoPublicClient), []).
Proof.
  unfold bulkQuote, tryCatch, bind, call.
  destruct (hasPublicClient w); cbn; [| reflexivity].
  destruct (getBulkSwapQuote w h addrs amts) as [[total quotes] | msg]; cbn;
    [| reflexivity].
  destruct (total =? 0)%N; reflexivity.
Qed.

Lemma estimateGas_run (w : World) (addrs : list string) (amts : list Z)
      (minReceive : Z) (h : Trace) :
  estimateGas w addrs amts minReceive h =
  if hasPublicClient w then
    match estimateContractGas w h addrs amts minReceive with
    | Returns gas => (inr tt, [EvEstimateGas addrs amts minReceive (Returns gas)])
    | Rejects msg =>
        (inl (GasEstimationFailed (decodeErrorSignature msg)),
         [EvEstimateGas addrs amts minReceive (Rejects msg)])
    end
  else (inr tt, []).
Proof.
  unfold estimateGas, tryCatch, bind, call.
  destruct (hasPublicClient w); cbn; [| reflexivity].
  destruct (estimateContractGas w h addrs amts minReceive); reflexivity.
Qed.

Lemma submitSwap_run (w : World) (addrs : list string) (amts : list Z)
      (minReceive : Z) (h : Trace) :
  submitSwap w addrs amts minReceive h =
  (inr tt,
   [EvExecuteBulkSwap addrs amts minReceive (executeBulkSwap w h addrs amts minReceive)]).
Proof. reflexivity. Qed.

(** The last stage: the aggregate quote, the check for the target token,
    the gas estimate and the submission. *)
Lemma lastStage_reachesSubmission (D : Deps) (w : World) (addrs : list string)
      (amts : list Z) :
  reachesSubmission D addrs amts
    (totalQuote <- bulkQuote w addrs amts ;;
     let minReceive := minReceiveWei totalQuote in
     if hasHigherToken D addrs then throw HigherToHigher
     else
       estimateGas w addrs amts minReceive ;;;
       submitSwap w addrs amts minReceive).
Proof.
  intros h.
  match goal with |- context [fst (?m h)] => destruct (m h) as [res trace] eqn:Hrun end.
  cbn [fst snd].
  unfold bind at 1 in Hrun. rewrite bulkQuote_run in Hrun.
  destruct (hasPublicClient w) eqn:Ec.
  2:{ injection Hrun as <- <-. left. eexists. split; [reflexivity | constructor]. }
  destruct (getBulkSwapQuote w h addrs amts) as [[total quotes] | msg] eqn:Eq.
  2:{ injection Hrun as <- <-. left. eexists. split; [reflexivity | repeat constructor]. }
  destruct (total =? 0)%N eqn:Et.
  { injection Hrun as <- <-. left. eexists. split; [reflexivity | repeat constructor]. }
  apply N.eqb_neq in Et. cbn zeta in Hrun.
  destruct (hasHigherToken D addrs) eqn:Eh.
  { injection Hrun as <- <-. left. eexists. split; [reflexivity | repeat constructor]. }
  unfold bind in Hrun. rewrite estimateGas_run, Ec in Hrun.
  match type of Hrun with
  | context [estimateContractGas w ?hh addrs amts ?mr] =>
      destruct (estimateContractGas w hh addrs amts mr) as [gas | msg] eqn:Eg
  end.
  2:{ injection Hrun as <- <-. left. eexists. split; [reflexivity | repeat constructor]. }
  rewrite submitSwap_run in Hrun.
  injection Hrun as <- <-. right. eexists [], total, quotes, gas, _. cbn.
  repeat split; auto; lia.
Qed.

Lemma preparation_allowance token owner spender r :
  isPreparation (EvAllowance token owner spender r) = true.
Proof. reflexivity. Qed.

Lemma afterBuild_reachesSubmission (D : Deps) (w : World) (st : AppState) (A : Arrays) :
  (forall j t, nth_error (tokenData A) j = Some t ->
               exists amt, nth_error (amounts A) (0 + j) = Some amt /\
                           safeAmountOf D t = inr amt) ->
  reachesSubmission D (addresses A) (amounts A) (afterBuild D w st A).
Proof.
  intros Hplan. unfold afterBuild.
  apply reachesSubmission_bind with (Q := anyValue); [apply emits_liftE; intros; exact I |].
  intros _ _.
  apply reachesSubmission_bind with (Q := anyValue); [apply emits_liftE; intros; exact I |].
  intros _ _.
  apply reachesSubmission_bind with (Q := anyValue).
  { apply concurrentApprovals_emits; intros; reflexivity. }
  intros _ _.
  apply reachesSubmission_bind with (Q := anyValue).
  { apply logAllowances_emits; intros; reflexivity. }
  intros _ _.
  apply reachesSubmission_bind with (Q := anyValue).
  { apply sequentialApprovals_emits; intros; reflexivity. }
  intros _ _.
  apply reachesSubmission_bind with (Q := fun amts => amts = amounts A).
  { apply recheckBalances_keeps. exact Hplan. }
  intros ? ->.
  apply reachesSubmission_bind with (Q := anyValue).
  { apply individualQuotes_emits; intros; reflexivity. }
  intros _ _.
  apply lastStage_reachesSubmission.
Qed.

(** What a run of [handleSwap] is: it sends no swap transaction and does
    not end in [Submitted], or it ends in [Submitted] with [submissionTail]
    for the plan of the selection. *)
Lemma handleSwap_run (D : Deps) (w : World) (st : AppState) (h : Trace) :
  (fst (handleSwap D w st h) <> Submitted /\
   Forall (fun ev => isSwapSubmission ev = false) (snd (handleSwap D w st h))) \/
  (exists A pre total quotes gas answer,
      buildConsistentArrays D st (selectedTokens st) = inr A /\
      snd (handleSwap D w st h) =
      pre ++ submissionTail (selectedTokens st) (amounts A) total quotes gas answer /\
      Forall (fun ev => isPreparation ev = true) pre /\
      (0 < total)%N /\
      hasHigherToken D (selectedTokens st) = false /\
      fst (handleSwap D w st h) = Submitted).
Proof.
  unfold handleSwap.
  destruct (negb (isConnected st) || (List.length (selectedTokens st) =? 0)%nat).
  { left. cbn. split; [discriminate | constructor]. }
  unfold handleSwapBody.
  destruct (negb (JsString.truthy (SPLIT_ROUTER D))
            || negb (JsString.truthy (walletAddress st))).
  { left. cbn. split; [discriminate | constructor]. }
  destruct (buildConsistentArrays D st (selectedTokens st)) as [e | A] eqn:HA.
  { left. cbn. split; [discriminate | constructor]. }
  cbn [liftE]. rewrite bind_ret_l.
  destruct (buildConsistentArrays_consistent D st _ A HA) as [_ Haddr].
  pose proof (afterBuild_reachesSubmission D w st A (plan_entries D st A _ HA) (h ++ []))
    as Hrun.
  rewrite Haddr in Hrun.
  destruct (afterBuild D w st A (h ++ [])) as [[e | []] es]; cbn [fst snd app] in *.
  - destruct Hrun
      as [(e' & He & Hno) | (pre & total & quotes & gas & answer & Hs & Hpre & Ht & Hh & Hr)].
    + left. split; [discriminate | exact Hno].
    + discriminate.
  - destruct Hrun
      as [(e' & He & Hno) | (pre & total & quotes & gas & answer & Hs & Hpre & Ht & Hh & Hr)].
    + discriminate.
    + right. exists A, pre, total, quotes, gas, answer.
      repeat split; auto.
Qed.

(** X14: a run that ends in [Submitted] ended with three calls for the same
    arrays - the aggregate quote, which was positive, an accepted gas
    estimate and the swap request - on the selected addresses, in selection
    order, and the amounts of the plan, with 90% of the quoted total as
    minimum; before them it made only allowance reads, approvals and
    per-token quotes, and the selection does not hold the target token.
    [Submitted] says that the request was handed to the wallet: the answer
    recorded with it is the wallet's, accepted or not. *)
Theorem submitted_run_shape (D : Deps) (w : World) (st : AppState) (h : Trace) :
  fst (handleSwap D w st h) = Submitted ->
  exists A pre total quotes gas answer,
    buildConsistentArrays D st (selectedTokens st) = inr A /\
    snd (handleSwap D w st h) =
    pre ++ submissionTail (selectedTokens st) (amounts A) total quotes gas answer /\
    Forall (fun ev => isPreparation ev = true) pre /\
    (0 < total)%N /\
    hasHigherToken D (selectedTokens st) = false.
Proof.
  intros Hsub.
  destruct (handleSwap_run D w st h)
    as [[Hno _] | (A & pre & total & quotes & gas & answer & HA & Hs & Hpre & Ht & Hh & Hr)];
    [contradiction |].
  exists A, pre, total, quotes, gas, answer. auto.
Qed.

(** X15: a run sends at most one swap transaction, and it is its last
    call: every swap request in the trace of a run is the end of
    [submissionTail] for the selected addresses and the amounts of the plan,
    after a positive aggregate quote and an accepted gas estimate for the
    same arrays.  Once the request is sent the run ends in [Submitted],
    whatever the wallet answers: a refusal of the swap does not turn the
    run into a failure. *)
Theorem every_submission_ends_the_run (D : Deps) (w : World) (st : AppState) (h : Trace)
        (addrs : list string) (amts : list Z) (minReceive : Z) (answer : Resp unit) :
  In (EvExecuteBulkSwap addrs amts minReceive answer) (snd (handleSwap D w st h)) ->
  exists A pre total quotes gas,
    buildConsistentArrays D st (selectedTokens st) = inr A /\
    addrs = selectedTokens st /\ amts = amounts A /\
    minReceive = minReceiveWei (Z.of_N total) /\
    snd (handleSwap D w st h) =
    pre ++ submissionTail addrs amts total quotes gas answer /\
    Forall (fun ev => isPreparation ev = true) pre /\
    (0 < total)%N /\
    fst (handleSwap D w st h) = Submitted.
Proof.
  intros Hin.
  destruct (handleSwap_run D w st h)
    as [[_ Hno] | (A & pre & total & quotes & gas & answer' & HA & Hs & Hpre & Ht & Hh & Hr)].
  - rewrite Forall_forall in Hno. specialize (Hno _ Hin). discriminate.
  - rewrite Hs in Hin. apply in_app_or in Hin. destruct Hin as [Hin | Hin].
    + rewrite Forall_forall in Hpre. specialize (Hpre _ Hin). discriminate.
    + cbn in Hin. destruct Hin as [Heq | [Heq | [Heq | []]]]; try discriminate.
      injection Heq as <- <- <- <-.
      exists A, pre, total, quotes, gas. repeat split; auto.
Qed.

(** ** The two phases of a run *)

Lemma inPhases_first (P1 P2 : Event -> Prop) {A B} (Q : A -> Prop) (m : M A)
      (f : A -> M B) :
  emits P1 Q m -> (forall a, Q a -> inPhases P1 P2 (f a)) -> inPhases P1 P2 (bind m f).
Proof.
  intros Hm Hf h. unfold bind. destruct (Hm h) as [Hes Hq].
  destruct (m h) as [[e | a] es]; cbn in Hes, Hq.
  - exists es, []. rewrite app_nil_r. split; [reflexivity |]. split; [exact Hes | constructor].
  - destruct (Hf a Hq (h ++ es)) as (es1 & es2 & Hs & H1 & H2).
    destruct (f a (h ++ es)) as [r es']; cbn in *.
    exists (es ++ es1), es2. rewrite Hs, app_assoc. split; [reflexivity |].
    split; [apply Forall_app; split; assumption | exact H2].
Qed.

Lemma inPhases_second (P1 P2 : Event -> Prop) {A} (Q : A -> Prop) (m : M A) :
  emits P2 Q m -> inPhases P1 P2 m.
Proof.
  intros Hm h. destruct (Hm h) as [Hes _]. exists [], (snd (m h)).
  split; [reflexivity |]. split; [constructor | exact Hes].
Qed.

Lemma afterBuild_inPhases (D : Deps) (w : World) (st : AppState) (A : Arrays) :
  inPhases (fun ev => isApprovalPhase ev = true) (fun ev => isSwapPhase ev = true)
           (afterBuild D w st A).
Proof.
  unfold afterBuild.
  apply inPhases_first with (Q := anyValue); [apply emits_liftE; intros; exact I |].
  intros _ _.
  apply inPhases_first with (Q := anyValue); [apply emits_liftE; intros; exact I |].
  intros _ _.
  apply inPhases_first with (Q := anyValue).
  { apply concurrentApprovals_emits; intros; reflexivity. }
  intros _ _.
  apply inPhases_first with (Q := anyValue).
  { apply logAllowances_emits; intros; reflexivity. }
  intros _ _.
  apply inPhases_first with (Q := anyValue).
  { apply sequentialApprovals_emits; intros; reflexivity. }
  intros _ _.
  apply inPhases_second with (Q := anyValue).
  apply emits_bind with (Q1 := anyValue); [apply recheckBalances_emits |].
  intros amts _.
  apply emits_bind with (Q1 := anyValue).
  { apply individualQuotes_emits; intros; reflexivity. }
  intros _ _.
  apply emits_bind with (Q1 := anyValue).
  { apply emits_weaken with (P := fun ev => isSwapPhase ev = true) (Q := fun q => 0 < q);
      [apply bulkQuote_emits; intros; reflexivity | auto | intros; exact I]. }
  intros totalQuote _. cbn zeta.
  destruct (hasHigherToken D (addresses A)); [apply emits_throw |].
  apply emits_bind with (Q1 := anyValue).
  { apply estimateGas_emits; intros; reflexivity. }
  intros _ _. apply submitSwap_emits; intros; reflexivity.
Qed.

(** X16: the calls of a run come in two phases: first allowance reads and
    approvals only, then quotes, the gas estimate and the submission only.
    Once the first quote is asked, no approval is sent and no allowance is
    read any more. *)
Theorem approvals_precede_quotes (D : Deps) (w : World) (st : AppState) (h : Trace) :
  exists es1 es2,
    snd (handleSwap D w st h) = es1 ++ es2 /\
    Forall (fun ev => isApprovalPhase ev = true) es1 /\
    Forall (fun ev => isSwapPhase ev = true) es2.
Proof.
  unfold handleSwap.
  destruct (negb (isConnected st) || (List.length (selectedTokens st) =? 0)%nat).
  { exists [], []. repeat split; constructor. }
  unfold handleSwapBody.
  destruct (negb (JsString.truthy (SPLIT_ROUTER D))
            || negb (JsString.truthy (walletAddress st))).
  { exists [], []. repeat split; constructor. }
  destruct (buildConsistentArrays D st (selectedTokens st)) as [e | A].
  { exists [], []. repeat split; constructor. }
  cbn [liftE]. rewrite bind_ret_l.
  destruct (afterBuild_inPhases D w st A (h ++ [])) as (es1 & es2 & Hs & H1 & H2).
  destruct (afterBuild D w st A (h ++ [])) as [[e | u] es]; cbn [snd] in *;
    exists es1, es2; auto.
Qed.

(** ** A run without a public client *)

Section Clientless.

Context (D : Deps) (w : World) (st : AppState).
Hypothesis no_client : hasPublicClient w = false.
Variable P : Event -> Prop.
Hypothesis P_approve : forall token spender amt r, P (EvApprove token spender amt r).

Lemma checkAllowance_clientless token owner (Q : Z -> Prop) :
  Q 0 -> emits P Q (checkAllowance D w token owner).
Proof.
  intros HQ. unfold checkAllowance. rewrite no_client. apply emits_ret. exact HQ.
Qed.

Lemma approveToken_clientless tokenAddress amount :
  emits P anyValue (approveToken D w st tokenAddress amount).
Proof.
  unfold approveToken.
  destruct (findToken tokenAddress (dustTokens st)) as [t |]; [| apply emits_throw].
  destruct (negb (JsString.truthy (balanceFormatted t))
            || JsNumber.eqZero (parseFloat D (balanceFormatted t)));
    [apply emits_throw |].
  apply emits_bind with (Q1 := anyValue); [apply emits_orThrow; intros; exact I |].
  intros balanceWei _.
  destruct (negb (JsString.truthy (walletAddress st))); [apply emits_throw |].
  apply emits_bind with (Q1 := anyValue).
  { apply emits_call. intros h. split; [apply P_approve | exact I]. }
  intros _ _.
  apply emits_bind with (Q1 := anyValue); [apply checkAllowance_clientless; exact I |].
  intros _ _. apply emits_ret; exact I.
Qed.

Lemma concurrentApprovals_clientless (A : Arrays) :
  emits P anyValue (concurrentApprovals D w st A).
Proof.
  unfold concurrentApprovals.
  apply emits_bind with (Q1 := anyValue); [| intros rs _; apply emits_promiseAll].
  apply emits_mapAsync. intros j t _. unfold approvalCallback.
  apply emits_bind with (Q1 := anyValue); [apply checkAllowance_clientless; exact I |].
  intros v _.
  apply emits_bind with (Q1 := anyValue); [apply emits_at; intros; exact I |].
  intros required _.
  destruct (v <? required); [| apply emits_ret; exact I].
  apply emits_tryCatch; [| intros e; apply emits_throw].
  apply emits_bind with (Q1 := anyValue); [apply approveToken_clientless |].
  intros _ _. apply emits_ret; exact I.
Qed.

Lemma logAllowances_clientless (A : Arrays) :
  emits P anyValue (logAllowances D w st A).
Proof.
  unfold logAllowances. apply emits_forEach. intros x _.
  apply emits_bind with (Q1 := anyValue); [apply checkAllowance_clientless; exact I |].
  intros _ _. apply emits_ret; exact I.
Qed.

Lemma collectNeedingApproval_clientless (A : Arrays) (tokens : list TokenRecord) :
  forall i acc, emits P anyValue (collectNeedingApproval D w st A i tokens acc).
Proof.
  induction tokens as [| token rest IH]; intros i acc; cbn [collectNeedingApproval].
  - apply emits_ret; exact I.
  - apply emits_bind with (Q1 := anyValue); [apply checkAllowance_clientless; exact I |].
    intros v _.
    apply emits_bind with (Q1 := anyValue); [apply emits_at; intros; exact I |].
    intros amount _. apply IH.
Qed.

Lemma sequentialApprovals_clientless (A : Arrays) :
  emits P anyValue (sequentialApprovals D w st A).
Proof.
  unfold sequentialApprovals.
  apply emits_bind with (Q1 := anyValue); [apply collectNeedingApproval_clientless |].
  intros needing _. unfold approveOneByOne. apply emits_forEach.
  intros [token amount] _.
  apply emits_tryCatch; [| intros e; apply emits_throw].
  apply emits_bind with (Q1 := anyValue); [apply approveToken_clientless |].
  intros _ _. apply emits_ret; exact I.
Qed.

Lemma individualQuotes_clientless (amts : list Z) (tokens : list TokenRecord) :
  forall i, emits P anyValue (individualQuotes w amts i tokens).
Proof.
  induction tokens as [| token rest IH]; intros i; cbn [individualQuotes].
  - apply emits_ret; exact I.
  - apply emits_bind with (Q1 := anyValue).
    + unfold quoteToken. rewrite no_client. cbn [negb].
      apply emits_tryCatch; [apply emits_throw | intros e; apply emits_throw].
    + intros quote _.
      apply emits_bind with (Q1 := anyValue); [apply IH |].
      intros quotes _. apply emits_ret; exact I.
Qed.

Lemma bulkQuote_clientless (addrs : list string) (amts : list Z) :
  emits P (fun _ => False) (bulkQuote w addrs amts).
Proof.
  unfold bulkQuote. rewrite no_client. cbn [negb].
  apply emits_tryCatch; [apply emits_throw | intros e; apply emits_throw].
Qed.

Lemma afterBuild_clientless (A : Arrays) :
  emits P (fun _ => False) (afterBuild D w st A).
Proof.
  unfold afterBuild.
  apply emits_bind with (Q1 := anyValue); [apply emits_liftE; intros; exact I |].
  intros _ _.
  apply emits_bind with (Q1 := anyValue); [apply emits_liftE; intros; exact I |].
  intros _ _.
  apply emits_bind with (Q1 := anyValue); [apply concurrentApprovals_clientless |].
  intros _ _.
  apply emits_bind with (Q1 := anyValue); [apply logAllowances_clientless |].
  intros _ _.
  apply emits_bind with (Q1 := anyValue); [apply sequentialApprovals_clientless |].
  intros _ _.
  apply emits_bind with (Q1 := anyValue); [apply recheckBalances_emits |].
  intros amts _.
  apply emits_bind with (Q1 := anyValue); [apply individualQuotes_clientless |].
  intros _ _.
  apply emits_bind with (Q1 := fun _ => False); [apply bulkQuote_clientless |].
  intros totalQuote [].
Qed.

End Clientless.

(** X17: without a public client a run never submits the swap and never
    asks for a quote or a gas estimate, but it is not stopped at the start
    either: every allowance counts as zero, so the only calls it can make
    are approval transactions, and once past the entry guard it ends in an
    error. *)
Theorem no_client_no_swap (D : Deps) (w : World) (st : AppState) (h : Trace) :
  hasPublicClient w = false ->
  fst (handleSwap D w st h) <> Submitted /\
  Forall (fun ev => isApproval ev = true) (snd (handleSwap D w st h)) /\
  (isConnected st = true -> selectedTokens st <> [] ->
   exists e, fst (handleSwap D w st h) = Failed e).
Proof.
  intros Hc.
  assert (Hrun : fst (handleSwap D w st h) <> Submitted /\
                 Forall (fun ev => isApproval ev = true) (snd (handleSwap D w st h))).
  { unfold handleSwap.
    destruct (negb (isConnected st) || (List.length (selectedTokens st) =? 0)%nat).
    { split; [discriminate | constructor]. }
    unfold handleSwapBody.
    destruct (negb (JsString.truthy (SPLIT_ROUTER D))
              || negb (JsString.truthy (walletAddress st))).
    { split; [discriminate | constructor]. }
    destruct (buildConsistentArrays D st (selectedTokens st)) as [e | A].
    { split; [discriminate | constructor]. }
    cbn [liftE]. rewrite bind_ret_l.
    destruct (afterBuild_clientless D w st Hc (fun ev => isApproval ev = true)
                (fun _ _ _ _ => eq_refl) A (h ++ [])) as [Hes Hq].
    destruct (afterBuild D w st A (h ++ [])) as [[e | u] es]; cbn [fst snd] in *.
    - split; [discriminate | exact Hes].
    - contradiction. }
  destruct Hrun as [Hns Hes]. split; [exact Hns |]. split; [exact Hes |].
  intros Hconn Hsel. revert Hns. unfold handleSwap. rewrite Hconn. cbn [negb orb].
  destruct (List.length (selectedTokens st) =? 0)%nat eqn:El.
  { apply Nat.eqb_eq in El. apply length_zero_iff_nil in El. contradiction. }
  destruct (handleSwapBody D w st h) as [[e | u] es]; cbn [fst]; intros Hns.
  - eauto.
  - contradiction.
Qed.

(** ** A plan that cannot be built *)

(** X18: one selected address that is not in the token list, or whose token
    has no usable balance, blocks the whole batch: the run makes no call at
    all - no allowance read, no approval, no quote - and does not end in
    [Submitted], whatever the other selected tokens are. *)
Theorem one_bad_entry_blocks_the_run (D : Deps) (w : World) (st : AppState) (h : Trace)
        (addr : string) :
  In addr (selectedTokens st) ->
  (findToken addr (dustTokens st) = None \/
   exists t e, findToken addr (dustTokens st) = Some t /\ safeAmountOf D t = inl e) ->
  (exists e, buildConsistentArrays D st (selectedTokens st) = inl e) /\
  snd (handleSwap D w st h) = [] /\
  fst (handleSwap D w st h) <> Submitted.
Proof.
  intros Hin Hbad.
  assert (Hfail : exists e, buildConsistentArrays D st (selectedTokens st) = inl e).
  { destruct (buildConsistentArrays D st (selectedTokens st)) as [e | A] eqn:HA; [eauto |].
    exfalso. apply buildConsistentArrays_spec in HA. destruct HA as (_ & F1 & F2).
    apply In_nth_error in Hin. destruct Hin as (i & Hi).
    destruct (Forall2_nth_error_l _ _ _ F1 i addr Hi) as (t & Ht & Hf).
    destruct (Forall2_nth_error_l _ _ _ F2 i t Ht) as (amt & _ & Hs).
    rewrite findToken_selected in Hf by (eapply nth_error_In; eauto).
    destruct Hbad as [Hn | (t' & e & Hf' & He)]; congruence. }
  split; [exact Hfail |]. destruct Hfail as (e & He).
  unfold handleSwap.
  destruct (negb (isConnected st) || (List.length (selectedTokens st) =? 0)%nat).
  { split; [reflexivity | discriminate]. }
  unfold handleSwapBody.
  destruct (negb (JsString.truthy (SPLIT_ROUTER D))
            || negb (JsString.truthy (walletAddress st))).
  { split; [reflexivity | discriminate]. }
  rewrite He. split; [reflexivity | discriminate].
Qed.

(** ** What is quoted *)

Lemma individualQuotes_entries (w : World) (A : Arrays) (tokens : list TokenRecord) :
  forall i,
    (forall j t, nth_error tokens j = Some t ->
                 nth_error (tokenData A) (i + j) = Some t) ->
    emits (quotesPlanEntry A) anyValue (individualQuotes w (amounts A) i tokens).
Proof.
  induction tokens as [| token rest IH]; intros i Hsuf; cbn [individualQuotes].
  - apply emits_ret; exact I.
  - apply emits_bind with (Q1 := anyValue).
    + unfold quoteToken. apply emits_tryCatch; [| intros e; apply emits_throw].
      destruct (negb (hasPublicClient w)); [apply emits_throw |].
      apply emits_bind with (Q1 := fun amount => nth_error (amounts A) i = Some amount).
      { apply emits_at. auto. }
      intros amount Ha.
      apply emits_bind with (Q1 := anyValue).
      { apply emits_call. intros h. split; [| exact I]. cbn.
        exists i, token. split; [| split; [reflexivity | exact Ha]].
        specialize (Hsuf 0%nat token eq_refl). rewrite Nat.add_0_r in Hsuf. exact Hsuf. }
      intros [quote | msg] _; [| apply emits_throw].
      destruct (quote =? 0)%N; [apply emits_throw | apply emits_ret; exact I].
    + intros quote _.
      apply emits_bind with (Q1 := anyValue); [| intros quotes _; apply emits_ret; exact I].
      apply IH. intros j t Hj. replace (S i + j)%nat with (i + S j)%nat by lia.
      apply Hsuf. exact Hj.
Qed.

Lemma afterBuild_quotes_entries (D : Deps) (w : World) (st : AppState) (A : Arrays) :
  (forall j t, nth_error (tokenData A) j = Some t ->
               exists amt, nth_error (amounts A) (0 + j) = Some amt /\
                           safeAmountOf D t = inr amt) ->
  emits (quotesPlanEntry A) anyValue (afterBuild D w st A).
Proof.
  intros Hplan. unfold afterBuild.
  apply emits_bind with (Q1 := anyValue); [apply emits_liftE; intros; exact I |].
  intros _ _.
  apply emits_bind with (Q1 := anyValue); [apply emits_liftE; intros; exact I |].
  intros _ _.
  apply emits_bind with (Q1 := anyValue).
  { apply concurrentApprovals_emits; intros; exact I. }
  intros _ _.
  apply emits_bind with (Q1 := anyValue).
  { apply logAllowances_emits; intros; exact I. }
  intros _ _.
  apply emits_bind with (Q1 := anyValue).
  { apply sequentialApprovals_emits; intros; exact I. }
  intros _ _.
  apply emits_bind with (Q1 := fun amts => amts = amounts A).
  { apply recheckBalances_keeps. exact Hplan. }
  intros ? ->.
  apply emits_bind with (Q1 := anyValue).
  { apply individualQuotes_entries. intros j t Hj. exact Hj. }
  intros _ _.
  apply emits_bind with (Q1 := anyValue).
  { apply emits_weaken with (P := quotesPlanEntry A) (Q := fun q => 0 < q);
      [apply bulkQuote_emits; intros; exact I | auto | intros; exact I]. }
  intros totalQuote _. cbn zeta.
  destruct (hasHigherToken D (addresses A)); [apply emits_throw |].
  apply emits_bind with (Q1 := anyValue).
  { apply estimateGas_emits; intros; exact I. }
  intros _ _. apply submitSwap_emits; intros; exact I.
Qed.

(** X19: every per-token quote of a run is asked for an entry of the plan:
    for the address of a token of [tokenData] and the amount at the same
    index of [amounts] - the amount that is later submitted. *)
Theorem quotes_are_for_plan_entries (D : Deps) (w : World) (st : AppState) (h : Trace)
        (token : string) (amountIn : Z) (r : Resp N) :
  In (EvGetSwapQuote token amountIn r) (snd (handleSwap D w st h)) ->
  exists A i t,
    buildConsistentArrays D st (selectedTokens st) = inr A /\
    nth_error (tokenData A) i = Some t /\ address t = token /\
    nth_error (amounts A) i = Some amountIn.
Proof.
  unfold handleSwap.
  destruct (negb (isConnected st) || (List.length (selectedTokens st) =? 0)%nat);
    [intros [] |].
  unfold handleSwapBody.
  destruct (negb (JsString.truthy (SPLIT_ROUTER D))
            || negb (JsString.truthy (walletAddress st))); [intros [] |].
  destruct (buildConsistentArrays D st (selectedTokens st)) as [e | A] eqn:HA;
    [intros [] |].
  cbn [liftE]. rewrite bind_ret_l.
  destruct (afterBuild_quotes_entries D w st A (plan_entries D st A _ HA) (h ++ []))
    as [Hes _].
  intros Hin.
  assert (Hin' : In (EvGetSwapQuote token amountIn r)
                    (snd (afterBuild D w st A (h ++ [])))).
  { destruct (afterBuild D w st A (h ++ [])) as [[e | u] es]; exact Hin. }
  rewrite Forall_forall in Hes. specialize (Hes _ Hin'). cbn in Hes.
  destruct Hes as (i & t & Ht & Ha & Hm). exists A, i, t. auto.
Qed.

(** ** The failure toast *)



(** ** The approval test *)

(** X22: [testSingleApproval] acts on the first token of
    [selectedTokensData] only.  It sends at most one approval, for the
    router and for the buffered balance of that token, around allowance
    reads; it fails only when the balance of that token does not parse,
    and then before any call. *)
Theorem testSingleApproval_sends_one_approval (D : Deps) (w : World) (st : AppState)
        (h : Trace) :
  (forall e, fst (testSingleApproval D w st h) = inl e ->
             snd (testSingleApproval D w st h) = [] /\
             exists value, e = InvalidDecimalNumber value) /\
  (List.length (filter isApproval (snd (testSingleApproval D w st h))) <= 1)%nat /\
  Forall (fun ev =>
            isAllowanceRead ev = true \/
            exists t rest amt r,
              selectedTokensData st = t :: rest /\
              ev = EvApprove (address t) (SPLIT_ROUTER D) amt r /\
              approvalFromBalance D st (address t) (SPLIT_ROUTER D) amt)
         (snd (testSingleApproval D w st h)).
Proof.
  unfold testSingleApproval.
  destruct (selectedTokensData st) as [| t rest] eqn:Es.
  { cbn. split; [discriminate |]. split; [lia | constructor]. }
  destruct (parseUnits D (balanceOrZero t) (decimals t)) as [amount |] eqn:Ep;
    cbn [orThrow].
  2:{ cbn. split; [| split; [lia | constructor]].
      intros e He. injection He as <-. split; [reflexivity | eauto]. }
  rewrite bind_ret_l. unfold tryCatch, bind.
  destruct (checkAllowance_run D w (address t) (ownerOrEmpty st) (h ++ []))
    as (v1 & es1 & Hr1 & _ & Hes1 & _).
  rewrite Hr1.
  assert (Hreads : forall es, Forall (fun ev => isAllowanceRead ev = true) es ->
                     Forall (fun ev =>
                               isAllowanceRead ev = true \/
                               exists t0 rest0 amt r,
                                 t :: rest = t0 :: rest0 /\
                                 ev = EvApprove (address t0) (SPLIT_ROUTER D) amt r /\
                                 approvalFromBalance D st (address t0) (SPLIT_ROUTER D) amt)
                            es).
  { intros es Hes. eapply Forall_impl; [| exact Hes]. intros ev Hev. left; exact Hev. }
  destruct (approveToken_run D w st (address t) amount ((h ++ []) ++ es1))
    as [(e & Hr2 & _) | (amt & reads & Hr2 & Hfb & Hrd & _)];
    rewrite Hr2.
  - cbn [fst snd ret]. rewrite !app_nil_r.
    split; [discriminate |].
    split; [rewrite reads_are_no_approvals by exact Hes1; cbn; lia |].
    apply Hreads. exact Hes1.
  - match goal with
    | |- context [checkAllowance D w (address t) (ownerOrEmpty st) ?hh] =>
        destruct (checkAllowance_run D w (address t) (ownerOrEmpty st) hh)
          as (v3 & es3 & Hr3 & _ & Hes3 & _)
    end.
    rewrite Hr3. cbn [fst snd ret]. rewrite !app_nil_r.
    split; [discriminate |]. split.
    + rewrite !filter_app, reads_are_no_approvals by exact Hes1. cbn.
      rewrite (reads_are_no_approvals reads Hrd), (reads_are_no_approvals es3 Hes3).
      cbn. lia.
    + apply Forall_app. split; [apply Hreads; exact Hes1 |].
      apply Forall_app. split; [| apply Hreads; exact Hes3].
      constructor; [| apply Hreads; exact Hrd].
      right. eexists t, rest, amt, _. auto.
Qed.

(** ** The allowance gate that is never called *)

Lemma checkAllowance_with_client (D : Deps) (w : World) (token owner : string)
      (h : Trace) :
  hasPublicClient w = true ->
  exists ev,
    checkAllowance D w token owner h = (inr (readValue ev), [ev]) /\
    isAllowanceRead ev = true.
Proof.
  intros Hc. unfold checkAllowance. rewrite Hc.
  exists (EvAllowance token owner (SPLIT_ROUTER D)
                      (allowance w h token owner (SPLIT_ROUTER D))).
  split; [| reflexivity]. unfold bind, call, ret. cbn.
  destruct (allowance w h token owner (SPLIT_ROUTER D)); reflexivity.
Qed.

Lemma collectInsufficient_run (D : Deps) (w : World) (st : AppState) (amts : list Z)
      (tokens : list string) :
  hasPublicClient w = true ->
  forall i acc h,
    (i + List.length tokens <= List.length amts)%nat ->
    exists new es,
      collectInsufficient D w st amts i tokens acc h = (inr (acc ++ new), es) /\
      Forall (fun ev => isAllowanceRead ev = true) es /\
      List.length es = List.length tokens /\
      (new = [] <->
       Forall2 (fun ev amount => amount <= readValue ev) es
               (firstn (List.length tokens) (skipn i amts))).
Proof.
  intros Hc. induction tokens as [| token rest IH]; intros i acc h Hlen;
    cbn [collectInsufficient].
  - exists [], []. rewrite app_nil_r. split; [reflexivity |].
    split; [constructor |]. split; [reflexivity |]. cbn. split; [constructor | reflexivity].
  - cbn [List.length] in Hlen.
    destruct (checkAllowance_with_client D w token (ownerOrEmpty st) h Hc)
      as (ev & Hread & Hev).
    destruct (nth_error amts i) as [amount |] eqn:Ea.
    2:{ apply nth_error_None in Ea. lia. }
    unfold bind at 1. rewrite Hread. unfold bind at 1. unfold at_. rewrite Ea. cbn [ret].
    set (acc' := if readValue ev <? amount then _ else acc).
    destruct (IH (S i) acc' ((h ++ [ev]) ++ []) ltac:(lia))
      as (new & es & Hrun & Hes & Hl & Hiff).
    rewrite Hrun. cbn [app].
    assert (Hskip : skipn i amts = amount :: skipn (S i) amts).
    { clear - Ea. revert i Ea. induction amts as [| a l IHl]; intros [| i] Ea;
        cbn in *; try discriminate.
      - injection Ea as ->. reflexivity.
      - apply IHl. exact Ea. }
    rewrite Hskip. cbn [List.length firstn].
    subst acc'. destruct (readValue ev <? amount) eqn:Elt.
    + apply Z.ltb_lt in Elt. eexists (_ :: new), (ev :: es).
      rewrite <- app_assoc. split; [reflexivity |].
      split; [constructor; assumption |]. split; [cbn; lia |].
      split; [discriminate |]. intros H. inversion H; subst. lia.
    + apply Z.ltb_ge in Elt. exists new, (ev :: es).
      split; [reflexivity |]. split; [constructor; assumption |]. split; [cbn; lia |].
      rewrite Hiff. split.
      * intros H. constructor; assumption.
      * intros H. inversion H; subst. assumption.
Qed.

(** X23: with a public client and an amount for every token,
    [checkAllAllowances] reads the allowance of every token, one read per
    token, also after it has found a shortfall, and sends nothing; it passes
    exactly when every allowance read covers the amount at its index, a
    failed read counting as zero. *)
Theorem checkAllAllowances_reads_every_token (D : Deps) (w : World) (st : AppState)
        (tokens : list string) (amts : list Z) (h : Trace) :
  hasPublicClient w = true ->
  (List.length tokens <= List.length amts)%nat ->
  exists verdict,
    fst (checkAllAllowances D w st tokens amts h) = inr verdict /\
    Forall (fun ev => isAllowanceRead ev = true)
           (snd (checkAllAllowances D w st tokens amts h)) /\
    List.length (snd (checkAllAllowances D w st tokens amts h)) = List.length tokens /\
    (verdict = inr tt <->
     Forall2 (fun ev amount => amount <= readValue ev)
             (snd (checkAllAllowances D w st tokens amts h))
             (firstn (List.length tokens) amts)).
Proof.
  intros Hc Hlen. unfold checkAllAllowances, bind.
  destruct (collectInsufficient_run D w st amts tokens Hc 0%nat [] h ltac:(lia))
    as (new & es & Hrun & Hes & Hl & Hiff).
  rewrite Hrun. cbn [app skipn] in *.
  destruct new as [| s new]; cbn [List.length Nat.ltb Nat.leb ret fst snd];
    rewrite app_nil_r.
  - exists (inr tt). split; [reflexivity |]. split; [exact Hes |]. split; [exact Hl |].
    split; [intros _; apply Hiff; reflexivity | reflexivity].
  - eexists. split; [reflexivity |]. split; [exact Hes |]. split; [exact Hl |].
    split; [discriminate |]. intros H. apply Hiff in H. discriminate.
Qed.

(** ** What the network check reads *)

(** X24: [verifyNetworkAndContract] only reads: the chain identifier, and
    then the code at the router address - at most these two calls, and the
    code only on chain 8453 or 84532.  On any other chain, and when the
    chain identifier cannot be read, the router is not looked at. *)
Theorem verifyNetworkAndContract_reads (D : Deps) (w : World) (h : Trace) :
  Forall (fun ev => isNetworkCheck ev = true) (snd (verifyNetworkAndContract D w h)) /\
  (List.length (snd (verifyNetworkAndContract D w h)) <= 2)%nat /\
  (forall contract r,
      In (EvGetCode contract r) (snd (verifyNetworkAndContract D w h)) ->
      contract = SPLIT_ROUTER D /\
      exists c, getChainId w h = Returns c /\ (c = 8453 \/ c = 84532)).
Proof.
  unfold verifyNetworkAndContract, tryCatch, bind, call, ret, throw.
  destruct (hasPublicClient w); cbn.
  2:{ split; [constructor |]. split; [lia | intros ? ? []]. }
  destruct (getChainId w h) as [c | msg]; cbn.
  2:{ split; [repeat constructor |]. split; [lia |].
      intros ? ? [H | []]. discriminate. }
  destruct ((c =? 8453) || (c =? 84532)) eqn:Ech; cbn.
  2:{ split; [repeat constructor |]. split; [lia |].
      intros ? ? [H | []]. discriminate. }
  assert (Hc : c = 8453 \/ c = 84532).
  { apply orb_prop in Ech. destruct Ech as [E | E]; apply Z.eqb_eq in E; auto. }
  destruct (getCode w (h ++ [EvGetChainId (Returns c)]) (SPLIT_ROUTER D))
    as [code | msg]; cbn.
  - destruct (negb (JsString.truthy code) || String.eqb code "0x"); cbn;
      (split; [repeat constructor |]; split; [lia |];
       intros ? ? [H | [H | []]]; [discriminate |];
       injection H as <- _; split; [reflexivity | eauto]).
  - split; [repeat constructor |]. split; [lia |].
    intros ? ? [H | [H | []]]; [discriminate |].
    injection H as <- _. split; [reflexivity | eauto].
Qed.

(** ** Balances below the guard buffer *)

(** X25: a token whose balance is below 10000 smallest units enters the
    plan with a negative amount: the quotient by 10000 is zero, so the
    fixed buffer of 100000 is subtracted.  From 10000 units on the amount
    is positive. *)
Theorem small_balances_give_negative_amounts (D : Deps) (t : TokenRecord)
        (amt balanceWei : Z) :
  safeAmountOf D t = inr amt ->
  parseUnits D (balanceOrZero t) (decimals t) = Some balanceWei ->
  0 <= balanceWei ->
  (0 < amt <-> 10000 <= balanceWei) /\
  (balanceWei < 10000 -> amt = balanceWei - 100000).
Proof.
  intros Hs Hp Hb.
  destruct (safeAmountOf_inr D t amt Hs) as (b & g & Hp' & Hg & ->).
  assert (b = balanceWei) by congruence. subst b.
  destruct (Z_lt_ge_dec balanceWei 10000) as [Hlt | Hge].
  - rewrite dynamicBuffer_exact in Hg by lia.
    rewrite Z.div_small in Hg by lia. cbn in Hg. injection Hg as <-.
    split; [split; intros; lia | intros; reflexivity].
  - destruct (dynamicBuffer_approx balanceWei g ltac:(lia) Hg) as (Hpos & Hup & _).
    assert (0 < 2 ^ 49) by (apply Z.pow_pos_nonneg; lia).
    split; [| intros; lia]. split; [intros; lia |]. intros _. nia.
Qed.

(** ** The run that goes through *)

Section Succeeds.

Context {A B : Type}.

Lemma succeeds_ret (Q : A -> Prop) (a : A) : Q a -> succeeds Q (ret a).
Proof. intros Ha h. exists a. split; [reflexivity | exact Ha]. Qed.

Lemma succeeds_bind (Q1 : A -> Prop) (Q : B -> Prop) (m : M A) (f : A -> M B) :
  succeeds Q1 m -> (forall a, Q1 a -> succeeds Q (f a)) -> succeeds Q (bind m f).
Proof.
  intros Hm Hf h. unfold bind. destruct (Hm h) as (a & Ha & Hq).
  destruct (m h) as [[e | a'] es]; cbn in Ha; [discriminate |].
  injection Ha as ->. destruct (Hf a Hq (h ++ es)) as (b & Hb & HQ).
  destruct (f a (h ++ es)) as [r es']; cbn in *. eauto.
Qed.

Lemma succeeds_tryCatch (Q : A -> Prop) (m : M A) (handler : Error -> M A) :
  succeeds Q m -> succeeds Q (tryCatch m handler).
Proof.
  intros Hm h. unfold tryCatch. destruct (Hm h) as (a & Ha & Hq).
  destruct (m h) as [[e | a'] es]; cbn in Ha; [discriminate |].
  injection Ha as ->. exists a. auto.
Qed.

End Succeeds.

Lemma succeeds_forEach {A} (body : A -> M unit) (xs : list A) :
  (forall x, In x xs -> succeeds anyValue (body x)) -> succeeds anyValue (forEach body xs).
Proof.
  induction xs as [| x rest IH]; intros Hb; cbn [forEach].
  - apply succeeds_ret; exact I.
  - apply succeeds_bind with (Q1 := anyValue); [apply Hb; left; reflexivity |].
    intros _ _. apply IH. intros y Hy. apply Hb. right; exact Hy.
Qed.

Lemma succeeds_mapAsync {A} (body : nat -> A -> M unit) (xs : list A) :
  forall start,
    (forall j x, nth_error xs j = Some x -> succeeds anyValue (body (start + j)%nat x)) ->
    succeeds (Forall (fun r => exists u, r = inr u)) (mapAsync body start xs).
Proof.
  induction xs as [| x rest IH]; intros start Hb; cbn [mapAsync].
  - apply succeeds_ret. constructor.
  - apply succeeds_bind with (Q1 := fun r => exists u, r = inr u).
    + intros h. unfold settle. specialize (Hb 0%nat x eq_refl). rewrite Nat.add_0_r in Hb.
      destruct (Hb h) as (u & Hu & _).
      destruct (body start x h) as [r es]; cbn in *. subst r. eauto.
    + intros r Hr.
      apply succeeds_bind with (Q1 := Forall (fun r => exists u, r = inr u)).
      * apply IH. intros j y Hj. specialize (Hb (S j) y Hj).
        rewrite Nat.add_succ_r in Hb. exact Hb.
      * intros rs Hrs. apply succeeds_ret. constructor; assumption.
Qed.

Lemma succeeds_promiseAll (rs : list (Error + unit)) :
  Forall (fun r => exists u, r = inr u) rs -> succeeds anyValue (promiseAll rs).
Proof.
  induction 1 as [| r rest (u & ->) _ IH]; cbn [promiseAll].
  - apply succeeds_ret; exact I.
  - exact IH.
Qed.

Section Cooperative.

Context (D : Deps) (w : World) (st : AppState) (A : Arrays).
Hypothesis plan : buildConsistentArrays D st (selectedTokens st) = inr A.
Hypothesis friendly : cooperative D w st A.

Lemma checkAllowance_value token owner :
  succeeds (fun v => exists h, v = allowanceSeen D w h token owner)
           (checkAllowance D w token owner).
Proof.
  intros h. unfold checkAllowance, allowanceSeen.
  destruct (hasPublicClient w); cbn; eexists; (split; [reflexivity |]); exists h; reflexivity.
Qed.

Lemma plan_lengths :
  List.length (tokenData A) = List.length (amounts A).
Proof.
  destruct (buildConsistentArrays_consistent D st _ A plan) as [(H1 & H2 & _) _]. lia.
Qed.

Lemma covered_entry index token v required :
  nth_error (tokenData A) index = Some token ->
  nth_error (amounts A) index = Some required ->
  (exists h, v = allowanceSeen D w h (address token) (walletAddress st)) ->
  (v <? required) = false.
Proof.
  intros Ht Hr (h & ->). apply Z.ltb_ge.
  destruct friendly as (_ & Hcov & _). eapply Hcov; eauto.
Qed.

Lemma amount_at index token :
  nth_error (tokenData A) index = Some token ->
  succeeds (fun r => nth_error (amounts A) index = Some r) (at_ (amounts A) index).
Proof.
  intros Ht. unfold at_.
  destruct (nth_error (amounts A) index) as [r |] eqn:Er; [apply succeeds_ret; reflexivity |].
  apply nth_error_None in Er.
  assert (index < List.length (tokenData A))%nat by (apply nth_error_Some; congruence).
  rewrite plan_lengths in *. lia.
Qed.

Lemma concurrentApprovals_succeeds : succeeds anyValue (concurrentApprovals D w st A).
Proof.
  unfold concurrentApprovals.
  eapply succeeds_bind; [| intros rs Hrs; apply succeeds_promiseAll; exact Hrs].
  apply succeeds_mapAsync. intros j t Hj. cbn [Nat.add]. unfold approvalCallback.
  eapply succeeds_bind; [apply checkAllowance_value |]. intros v Hv.
  eapply succeeds_bind; [apply (amount_at j t Hj) |]. intros required Hr. cbn beta in Hr.
  rewrite (covered_entry j t v required Hj Hr Hv). apply succeeds_ret; exact I.
Qed.

Lemma logAllowances_succeeds : succeeds anyValue (logAllowances D w st A).
Proof.
  unfold logAllowances. apply succeeds_forEach. intros t _.
  eapply succeeds_bind; [apply checkAllowance_value |].
  intros _ _. apply succeeds_ret; exact I.
Qed.

Lemma collectNeedingApproval_succeeds (tokens : list TokenRecord) :
  forall i,
    (forall j t, nth_error tokens j = Some t -> nth_error (tokenData A) (i + j) = Some t) ->
    succeeds (fun needing => needing = []) (collectNeedingApproval D w st A i tokens []).
Proof.
  induction tokens as [| token rest IH]; intros i Hsuf; cbn [collectNeedingApproval].
  - apply succeeds_ret; reflexivity.
  - assert (Ht : nth_error (tokenData A) i = Some token).
    { specialize (Hsuf 0%nat token eq_refl). rewrite Nat.add_0_r in Hsuf. exact Hsuf. }
    eapply succeeds_bind; [apply checkAllowance_value |]. intros v Hv.
    eapply succeeds_bind; [apply (amount_at i token Ht) |]. intros amount Ha.
    cbn beta in Ha. rewrite (covered_entry i token v amount Ht Ha Hv).
    apply IH. intros j t Hj. replace (S i + j)%nat with (i + S j)%nat by lia.
    apply Hsuf. exact Hj.
Qed.

Lemma sequentialApprovals_succeeds : succeeds anyValue (sequentialApprovals D w st A).
Proof.
  unfold sequentialApprovals.
  eapply succeeds_bind.
  - apply collectNeedingApproval_succeeds. intros j t Hj. exact Hj.
  - intros needing ->. apply succeeds_ret; exact I.
Qed.

Lemma individualQuotes_succeeds (tokens : list TokenRecord) :
  forall i,
    (forall j t, nth_error tokens j = Some t -> nth_error (tokenData A) (i + j) = Some t) ->
    succeeds anyValue (individualQuotes w (amounts A) i tokens).
Proof.
  destruct friendly as (Hc & _ & Hquote & _).
  induction tokens as [| token rest IH]; intros i Hsuf; cbn [individualQuotes].
  - apply succeeds_ret; exact I.
  - assert (Ht : nth_error (tokenData A) i = Some token).
    { specialize (Hsuf 0%nat token eq_refl). rewrite Nat.add_0_r in Hsuf. exact Hsuf. }
    apply succeeds_bind with (Q1 := anyValue).
    + unfold quoteToken. apply succeeds_tryCatch. rewrite Hc. cbn [negb].
      eapply succeeds_bind; [apply (amount_at i token Ht) |]. intros amount _.
      intros h. unfold bind, call.
      destruct (Hquote h (address token) amount) as (quote & Hq & Hnz).
      rewrite Hq. apply N.eqb_neq in Hnz. rewrite Hnz. cbn.
      exists quote. split; [reflexivity | exact I].
    + intros quote _.
      apply succeeds_bind with (Q1 := anyValue); [| intros; apply succeeds_ret; exact I].
      apply IH. intros j t Hj. replace (S i + j)%nat with (i + S j)%nat by lia.
      apply Hsuf. exact Hj.
Qed.

Lemma lastStage_succeeds :
  hasHigherToken D (addresses A) = false ->
  succeeds anyValue
    (totalQuote <- bulkQuote w (addresses A) (amounts A) ;;
     let minReceive := minReceiveWei totalQuote in
     if hasHigherToken D (addresses A) then throw HigherToHigher
     else
       estimateGas w (addresses A) (amounts A) minReceive ;;;
       submitSwap w (addresses A) (amounts A) minReceive).
Proof.
  intros Hh. destruct friendly as (Hc & _ & _ & Hbulk & Hgas & Hswap).
  rewrite Hh. intros h. unfold bind.
  rewrite bulkQuote_run, Hc.
  destruct (Hbulk h) as (total & quotes & Hb & Hnz). rewrite Hb.
  apply N.eqb_neq in Hnz. rewrite Hnz. cbn zeta.
  rewrite estimateGas_run, Hc.
  match goal with
  | |- context [estimateContractGas w ?hh (addresses A) (amounts A) ?mr] =>
      destruct (Hgas hh mr) as (gas & Hg)
  end.
  rewrite Hg. rewrite submitSwap_run.
  match goal with
  | |- context [executeBulkSwap w ?hh (addresses A) (amounts A) ?mr] =>
      destruct (Hswap hh mr) as (u & Hu)
  end.
  rewrite Hu. cbn. exists tt. split; [reflexivity | exact I].
Qed.

Lemma afterBuild_succeeds :
  (forall t balanceWei,
      In t (tokenData A) ->
      parseUnits D (balanceOrZero t) (decimals t) = Some balanceWei ->
      0 <= balanceWei) ->
  hasHigherToken D (addresses A) = false ->
  succeeds anyValue (afterBuild D w st A).
Proof.
  intros Hpos Hh. unfold afterBuild.
  destruct (buildConsistentArrays_consistent D st _ A plan) as [Hcons _].
  destruct (validateArrayConsistency_cases A) as [[Hv _] | (e & _ & _ & Hbad)];
    [| contradiction].
  rewrite Hv. cbn [liftE].
  apply succeeds_bind with (Q1 := anyValue); [apply succeeds_ret; exact I |]. intros _ _.
  assert (Hverify : verifyArrayConsistency "SAFE" (tokenData A) (addresses A) (amounts A)
                    = inr tt).
  { unfold verifyArrayConsistency. destruct Hcons as (H1 & H2 & Hal).
    destruct (checkAligned_cases (VerifyMismatch "SAFE") (tokenData A) (addresses A) 0%nat)
      as [[Hok _] | (k & t & a & _ & _ & Ht & Ha & Hs)]; [lia | exact Hok |].
    rewrite Nat.sub_0_r in Ht. destruct (Hal k t Ht) as (a' & Ha' & Hs'). congruence. }
  rewrite Hverify. cbn [liftE].
  apply succeeds_bind with (Q1 := anyValue); [apply succeeds_ret; exact I |]. intros _ _.
  apply succeeds_bind with (Q1 := anyValue); [apply concurrentApprovals_succeeds |].
  intros _ _.
  apply succeeds_bind with (Q1 := anyValue); [apply logAllowances_succeeds |].
  intros _ _.
  apply succeeds_bind with (Q1 := anyValue); [apply sequentialApprovals_succeeds |].
  intros _ _.
  apply succeeds_bind with (Q1 := fun amts => amts = amounts A).
  { intros h. rewrite recheckBalances_passes; [eexists; split; reflexivity | | exact Hpos].
    apply (plan_entries D st A _ plan). }
  intros ? ->.
  apply succeeds_bind with (Q1 := anyValue).
  { apply individualQuotes_succeeds. intros j t Hj. exact Hj. }
  intros _ _. apply lastStage_succeeds. exact Hh.
Qed.

End Cooperative.

(** X26: a run goes through when nothing stands in its way.  With a
    connected wallet, a non-empty selection whose plan builds on
    non-negative balances and does not hold the target token, and a chain
    and wallet that cooperate - allowances that already cover the amounts,
    quotes that are answered and not zero, an accepted gas estimate and an
    accepted submission - the run ends in [Submitted], and it sends no
    approval. *)
Theorem cooperative_run_is_submitted (D : Deps) (w : World) (st : AppState) (A : Arrays)
        (h : Trace) :
  isConnected st = true ->
  selectedTokens st <> [] ->
  SPLIT_ROUTER D <> "" ->
  walletAddress st <> "" ->
  buildConsistentArrays D st (selectedTokens st) = inr A ->
  (forall t balanceWei,
      In t (tokenData A) ->
      parseUnits D (balanceOrZero t) (decimals t) = Some balanceWei ->
      0 <= balanceWei) ->
  hasHigherToken D (selectedTokens st) = false ->
  cooperative D w st A ->
  fst (handleSwap D w st h) = Submitted /\
  Forall (fun ev => isApproval ev = false) (snd (handleSwap D w st h)).
Proof.
  intros Hconn Hsel Hrouter Hwallet HA Hpos Hh Hco. split.
  - unfold handleSwap. rewrite Hconn. cbn [negb orb].
    destruct (List.length (selectedTokens st) =? 0)%nat eqn:El.
    { apply Nat.eqb_eq in El. apply length_zero_iff_nil in El. contradiction. }
    unfold handleSwapBody, JsString.truthy.
    apply String.eqb_neq in Hrouter, Hwallet. rewrite Hrouter, Hwallet. cbn [negb orb].
    rewrite HA. cbn [liftE]. rewrite bind_ret_l.
    destruct (buildConsistentArrays_consistent D st _ A HA) as [_ Haddr].
    rewrite <- Haddr in Hh.
    destruct (afterBuild_succeeds D w st A HA Hco Hpos Hh (h ++ [])) as (u & Hu & _).
    destruct (afterBuild D w st A (h ++ [])) as [[e | u'] es]; cbn in Hu;
      [discriminate | reflexivity].
  - apply handleSwap_events.
    assert (Hbody : emits (fun ev => isApproval ev = false)
                          (fun _ => hasHigherToken D (selectedTokens st) = false)
                          (handleSwapBody D w st)).
    { apply handleSwapBody_emits; try (intros; reflexivity).
      intros A' token spender amt r HA' _ (i & t & required & h' & Ht & Haddr & Hr & Hlt).
      exfalso. assert (A' = A) by congruence. subst A'.
      destruct Hco as (_ & Hcov & _). specialize (Hcov h' i t required Ht Hr).
      rewrite Haddr in Hcov. lia. }
    apply (Hbody h).
Qed.

Lemma preApproved_cooperates :
  cooperative Reference.deps Reference.preApproved Reference.stateAB Reference.planAB.
Proof.
  split; [reflexivity |]. split.
  { intros h [| [| i]] t amt Ht Hm; cbn in Ht, Hm; try (destruct i; discriminate);
      injection Ht as <-; injection Hm as <-; vm_compute; discriminate. }
  split; [intros; eexists; split; [reflexivity | discriminate] |].
  split; [intros; eexists _, _; split; [reflexivity | discriminate] |].
  split; intros; eexists; reflexivity.
Qed.

Lemma cooperative_run_is_submitted_witness :
  fst (handleSwap Reference.deps Reference.preApproved Reference.stateAB []) = Submitted /\
  Forall (fun ev => isApproval ev = false)
         (snd (handleSwap Reference.deps Reference.preApproved Reference.stateAB [])).
Proof.
  apply (cooperative_run_is_submitted
           Reference.deps Reference.preApproved Reference.stateAB Reference.planAB []).
  - reflexivity.
  - discriminate.
  - discriminate.
  - discriminate.
  - exact plan_of_AB.
  - intros t b [<- | [<- | []]] Hb; vm_compute in Hb; injection Hb as <-; lia.
  - vm_compute. reflexivity.
  - exact preApproved_cooperates.
Defined.

(** ** How a run can fail *)

Section Raises.

Context {A B : Type}.
Variable N : Error -> Prop.

Lemma raises_ret (Q : A -> Prop) (a : A) : Q a -> raises N Q (ret a).
Proof. intros Ha h. exact Ha. Qed.

Lemma raises_throw (Q : A -> Prop) (e : Error) : N e -> raises N Q (throw e).
Proof. intros He h. exact He. Qed.

Lemma raises_bind (Q1 : A -> Prop) (Q : B -> Prop) (m : M A) (f : A -> M B) :
  raises N Q1 m -> (forall a, Q1 a -> raises N Q (f a)) -> raises N Q (bind m f).
Proof.
  intros Hm Hf h. unfold bind. specialize (Hm h).
  destruct (m h) as [[e | a] es]; cbn in *; [exact Hm |].
  specialize (Hf a Hm (h ++ es)). destruct (f a (h ++ es)) as [r es']. exact Hf.
Qed.

Lemma raises_tryCatch (N' : Error -> Prop) (Q : A -> Prop) (m : M A)
      (handler : Error -> M A) :
  raises N' Q m -> (forall e, N' e -> raises N Q (handler e)) ->
  raises N Q (tryCatch m handler).
Proof.
  intros Hm Hh h. unfold tryCatch. specialize (Hm h).
  destruct (m h) as [[e | a] es]; cbn in *; [| exact Hm].
  specialize (Hh e Hm (h ++ es)). destruct (handler e (h ++ es)) as [r es']. exact Hh.
Qed.

Lemma raises_liftE (Q : A -> Prop) (r : Error + A) :
  match r with inl e => N e | inr a => Q a end -> raises N Q (liftE r).
Proof. intros H h. destruct r; exact H. Qed.

End Raises.

Lemma raises_weaken {A} (N N' : Error -> Prop) (Q Q' : A -> Prop) (m : M A) :
  raises N Q m -> (forall e, N e -> N' e) -> (forall a, Q a -> Q' a) -> raises N' Q' m.
Proof.
  intros Hm HN HQ h. specialize (Hm h). destruct (fst (m h)); auto.
Qed.

Lemma raises_forEach {A} (N : Error -> Prop) (body : A -> M unit) (xs : list A) :
  (forall x, In x xs -> raises N anyValue (body x)) -> raises N anyValue (forEach body xs).
Proof.
  induction xs as [| x rest IH]; intros Hb; cbn [forEach].
  - apply raises_ret; exact I.
  - apply raises_bind with (Q1 := anyValue); [apply Hb; left; reflexivity |].
    intros _ _. apply IH. intros y Hy. apply Hb. right; exact Hy.
Qed.

Lemma raises_mapAsync {A} (N N0 : Error -> Prop) (body : nat -> A -> M unit)
      (xs : list A) :
  forall start,
    (forall j x, nth_error xs j = Some x -> raises N anyValue (body (start + j)%nat x)) ->
    raises N0 (Forall (fun r => match r with inl e => N e | inr _ => True end))
           (mapAsync body start xs).
Proof.
  induction xs as [| x rest IH]; intros start Hb; cbn [mapAsync].
  - apply raises_ret. constructor.
  - apply raises_bind
      with (Q1 := fun r => match r with inl e => N e | inr _ => True end).
    + intros h. unfold settle. specialize (Hb 0%nat x eq_refl). rewrite Nat.add_0_r in Hb.
      specialize (Hb h). destruct (body start x h) as [[e | u] es]; cbn in *; auto.
    + intros r Hr.
      apply raises_bind
        with (Q1 := Forall (fun r => match r with inl e => N e | inr _ => True end)).
      * apply IH. intros j y Hj. specialize (Hb (S j) y Hj).
        rewrite Nat.add_succ_r in Hb. exact Hb.
      * intros rs Hrs. apply raises_ret. constructor; assumption.
Qed.

Lemma raises_promiseAll (N : Error -> Prop) (rs : list (Error + unit)) :
  Forall (fun r => match r with inl e => N e | inr _ => True end) rs ->
  raises N anyValue (promiseAll rs).
Proof.
  induction 1 as [| [e | u] rest Hr _ IH]; cbn [promiseAll].
  - apply raises_ret; exact I.
  - apply raises_throw. exact Hr.
  - exact IH.
Qed.

Section RunErrors.

Context (D : Deps) (w : World) (st : AppState) (A : Arrays).
Hypothesis plan : buildConsistentArrays D st (selectedTokens st) = inr A.

Lemma checkAllowance_never_raises (N : Error -> Prop) token owner :
  raises N anyValue (checkAllowance D w token owner).
Proof.
  intros h. unfold checkAllowance. destruct (hasPublicClient w); cbn; exact I.
Qed.

Lemma approveToken_raises tokenAddress amount :
  raises (fun e => isPreflightError e = true) anyValue
         (approveToken D w st tokenAddress amount).
Proof.
  intros h.
  destruct (approveToken_run D w st tokenAddress amount h)
    as [(e & Hr & He) | (amt & reads & Hr & _)];
    rewrite Hr; cbn; [exact He | exact I].
Qed.

Lemma amount_at_plan (N : Error -> Prop) index token :
  nth_error (tokenData A) index = Some token ->
  raises N anyValue (at_ (amounts A) index).
Proof.
  intros Ht h. unfold at_.
  destruct (nth_error (amounts A) index) as [r |] eqn:Er; [exact I |].
  apply nth_error_None in Er.
  assert (index < List.length (tokenData A))%nat by (apply nth_error_Some; congruence).
  rewrite (plan_lengths D st A plan) in *. lia.
Qed.

Lemma wrapped_approval (sym : string) tokenAddress amount :
  raises (fun e => isRunError e = true) anyValue
         (tryCatch (approveToken D w st tokenAddress amount ;;; ret tt)
                   (fun approvalError => throw (FailedToApprove sym approvalError))).
Proof.
  apply raises_tryCatch with (N' := fun e => isPreflightError e = true).
  - apply raises_bind with (Q1 := anyValue); [apply approveToken_raises |].
    intros _ _. apply raises_ret; exact I.
  - intros e He. apply raises_throw. exact He.
Qed.

Lemma concurrentApprovals_raises :
  raises (fun e => isRunError e = true) anyValue (concurrentApprovals D w st A).
Proof.
  unfold concurrentApprovals.
  eapply raises_bind; [| intros rs Hrs; apply raises_promiseAll; exact Hrs].
  apply raises_mapAsync. intros j t Hj. cbn [Nat.add]. unfold approvalCallback.
  apply raises_bind with (Q1 := anyValue); [apply checkAllowance_never_raises |].
  intros v _.
  apply raises_bind with (Q1 := anyValue); [apply (amount_at_plan _ j t Hj) |].
  intros required _.
  destruct (v <? required); [apply wrapped_approval | apply raises_ret; exact I].
Qed.

Lemma logAllowances_raises :
  raises (fun e => isRunError e = true) anyValue (logAllowances D w st A).
Proof.
  unfold logAllowances. apply raises_forEach. intros t _.
  apply raises_bind with (Q1 := anyValue); [apply checkAllowance_never_raises |].
  intros _ _. apply raises_ret; exact I.
Qed.

Lemma collectNeedingApproval_raises (tokens : list TokenRecord) :
  forall i acc,
    (forall j t, nth_error tokens j = Some t -> nth_error (tokenData A) (i + j) = Some t) ->
    raises (fun e => isRunError e = true) anyValue
           (collectNeedingApproval D w st A i tokens acc).
Proof.
  induction tokens as [| token rest IH]; intros i acc Hsuf; cbn [collectNeedingApproval].
  - apply raises_ret; exact I.
  - assert (Ht : nth_error (tokenData A) i = Some token).
    { specialize (Hsuf 0%nat token eq_refl). rewrite Nat.add_0_r in Hsuf. exact Hsuf. }
    apply raises_bind with (Q1 := anyValue); [apply checkAllowance_never_raises |].
    intros v _.
    apply raises_bind with (Q1 := anyValue); [apply (amount_at_plan _ i token Ht) |].
    intros amount _. apply IH. intros j t Hj.
    replace (S i + j)%nat with (i + S j)%nat by lia. apply Hsuf. exact Hj.
Qed.

Lemma sequentialApprovals_raises :
  raises (fun e => isRunError e = true) anyValue (sequentialApprovals D w st A).
Proof.
  unfold sequentialApprovals.
  apply raises_bind with (Q1 := anyValue).
  - apply collectNeedingApproval_raises. intros j t Hj. exact Hj.
  - intros needing _. unfold approveOneByOne. apply raises_forEach.
    intros [token amount] _. apply wrapped_approval.
Qed.

Lemma recheckBalances_raises (tokens : list TokenRecord) :
  forall i,
    (forall j t, nth_error tokens j = Some t ->
                 exists amt, nth_error (amounts A) (i + j) = Some amt /\
                             safeAmountOf D t = inr amt) ->
    raises (fun e => isRunError e = true) (fun amts => amts = amounts A)
           (recheckBalances D i tokens (amounts A)).
Proof.
  induction tokens as [| token rest IH]; intros i Hplan; cbn [recheckBalances].
  - apply raises_ret. reflexivity.
  - destruct (Hplan 0%nat token eq_refl) as (amount & Hat & Hsafe).
    rewrite Nat.add_0_r in Hat.
    destruct (safeAmountOf_inr D token amount Hsafe) as (balanceWei & buffer & Hp & Hb & Ha).
    unfold at_. rewrite Hat, Hp. cbn [orThrow].
    apply raises_bind with (Q1 := fun a => a = amount); [apply raises_ret; reflexivity |].
    intros ? ->.
    apply raises_bind with (Q1 := fun b => b = balanceWei); [apply raises_ret; reflexivity |].
    intros ? ->. rewrite Hb. cbn [orThrow].
    apply raises_bind with (Q1 := fun g => g = buffer); [apply raises_ret; reflexivity |].
    intros ? ->. cbn zeta.
    assert (Hno : (amount >? balanceWei - buffer) = false).
    { rewrite Z.gtb_ltb. apply Z.ltb_ge. lia. }
    rewrite Hno.
    destruct (amount >? balanceWei); [apply raises_throw; reflexivity |].
    apply IH. intros j t Hj. destruct (Hplan (S j) t Hj) as (amt & Hamt & Hs).
    exists amt. split; [| exact Hs]. rewrite <- Hamt. f_equal. lia.
Qed.

Lemma individualQuotes_raises (tokens : list TokenRecord) :
  forall i,
    (forall j t, nth_error tokens j = Some t -> nth_error (tokenData A) (i + j) = Some t) ->
    raises (fun e => isRunError e = true) anyValue
           (individualQuotes w (amounts A) i tokens).
Proof.
  induction tokens as [| token rest IH]; intros i Hsuf; cbn [individualQuotes].
  - apply raises_ret; exact I.
  - assert (Ht : nth_error (tokenData A) i = Some token).
    { specialize (Hsuf 0%nat token eq_refl). rewrite Nat.add_0_r in Hsuf. exact Hsuf. }
    apply raises_bind with (Q1 := anyValue).
    + unfold quoteToken.
      apply raises_tryCatch with (N' := fun e => isQuoteError e = true).
      * destruct (negb (hasPublicClient w)); [apply raises_throw; reflexivity |].
        apply raises_bind with (Q1 := anyValue); [apply (amount_at_plan _ i token Ht) |].
        intros amount _.
        apply raises_bind with (Q1 := anyValue); [intros h; exact I |].
        intros [quote | msg] _; [| apply raises_throw; reflexivity].
        destruct (quote =? 0)%N; [apply raises_throw; reflexivity | apply raises_ret; exact I].
      * intros e He. apply raises_throw. exact He.
    + intros quote _.
      apply raises_bind with (Q1 := anyValue); [| intros; apply raises_ret; exact I].
      apply IH. intros j t Hj. replace (S i + j)%nat with (i + S j)%nat by lia.
      apply Hsuf. exact Hj.
Qed.

Lemma bulkQuote_raises addrs amts :
  raises (fun e => isRunError e = true) anyValue (bulkQuote w addrs amts).
Proof.
  intros h. rewrite bulkQuote_run.
  destruct (hasPublicClient w); [| reflexivity].
  destruct (getBulkSwapQuote w h addrs amts) as [[total quotes] | msg]; [| reflexivity].
  cbn. destruct (total =? 0)%N; [reflexivity | exact I].
Qed.

Lemma estimateGas_raises addrs amts minReceive :
  raises (fun e => isRunError e = true) anyValue (estimateGas w addrs amts minReceive).
Proof.
  intros h. rewrite estimateGas_run.
  destruct (hasPublicClient w); [| exact I].
  destruct (estimateContractGas w h addrs amts minReceive); [exact I | reflexivity].
Qed.

Lemma submitSwap_raises addrs amts minReceive :
  raises (fun e => isRunError e = true) anyValue (submitSwap w addrs amts minReceive).
Proof.
  intros h. rewrite submitSwap_run. exact I.
Qed.

Lemma afterBuild_raises :
  raises (fun e => isRunError e = true) anyValue (afterBuild D w st A).
Proof.
  unfold afterBuild. destruct (plan_checks_pass D st A plan) as [Hv Hverify].
  rewrite Hv, Hverify. cbn [liftE].
  apply raises_bind with (Q1 := anyValue); [apply raises_ret; exact I |]. intros _ _.
  apply raises_bind with (Q1 := anyValue); [apply raises_ret; exact I |]. intros _ _.
  apply raises_bind with (Q1 := anyValue); [apply concurrentApprovals_raises |].
  intros _ _.
  apply raises_bind with (Q1 := anyValue); [apply logAllowances_raises |].
  intros _ _.
  apply raises_bind with (Q1 := anyValue); [apply sequentialApprovals_raises |].
  intros _ _.
  apply raises_bind with (Q1 := fun amts => amts = amounts A).
  { apply recheckBalances_raises. apply (plan_entries D st A _ plan). }
  intros ? ->.
  apply raises_bind with (Q1 := anyValue).
  { apply individualQuotes_raises. intros j t Hj. exact Hj. }
  intros _ _.
  apply raises_bind with (Q1 := anyValue); [apply bulkQuote_raises |].
  intros totalQuote _. cbn zeta.
  destruct (hasHigherToken D (addresses A)); [apply raises_throw; reflexivity |].
  apply raises_bind with (Q1 := anyValue); [apply estimateGas_raises |].
  intros _ _. apply submitSwap_raises.
Qed.

End RunErrors.

Lemma buildLoop_raises (D : Deps) (st : AppState) (selected : list string) :
  forall acc index e,
    buildLoop D st acc index selected = inl e -> isRunError e = true.
Proof.
  induction selected as [| a rest IH]; intros acc index e Hb; cbn in Hb; [discriminate |].
  unfold buildStep in Hb.
  destruct (findToken a (selectedTokensData st)) as [t |].
  2:{ injection Hb as <-. reflexivity. }
  unfold safeAmountOf in Hb.
  destruct (JsNumber.isNaN (parseFloat D (balanceOrZero t))
            || JsNumber.leZero (parseFloat D (balanceOrZero t))).
  { injection Hb as <-. reflexivity. }
  destruct (parseUnits D (balanceOrZero t) (decimals t)) as [balanceWei |].
  2:{ injection Hb as <-. reflexivity. }
  destruct (dynamicBuffer balanceWei) as [buffer |].
  2:{ injection Hb as <-. reflexivity. }
  apply IH in Hb. exact Hb.
Qed.

(** X27: the array checks that follow the plan construction can never fail:
    on the arrays [buildConsistentArrays] returns, [validateArrayConsistency]
    and [verifyArrayConsistency] always pass.  So a run never ends in a
    length or address mismatch, nor in a TypeError of an index out of
    range; and the failures of an approval and of a quote never surface
    bare, only wrapped.  A run can only fail in the entry check, in the plan
    construction, with a wrapped pre-flight failure of an approval, in the
    balance re-check, with a wrapped quote failure, on the target token, or
    with a decoded failure of the gas estimate.  A refusal of an approval
    or of the swap by the wallet never fails the run. *)
Theorem a_run_fails_only_in_known_ways (D : Deps) (w : World) (st : AppState) (h : Trace)
        (e : Error) :
  fst (handleSwap D w st h) = Failed e ->
  isRunError e = true /\
  forall A,
    buildConsistentArrays D st (selectedTokens st) = inr A ->
    validateArrayConsistency (tokenData A) (addresses A) (amounts A) = inr tt /\
    verifyArrayConsistency "SAFE" (tokenData A) (addresses A) (amounts A) = inr tt.
Proof.
  intros Hf. split.
  - revert Hf. unfold handleSwap.
    destruct (negb (isConnected st) || (List.length (selectedTokens st) =? 0)%nat);
      [discriminate |].
    unfold handleSwapBody.
    destruct (negb (JsString.truthy (SPLIT_ROUTER D))
              || negb (JsString.truthy (walletAddress st))).
    { cbn. intros H; injection H as <-. reflexivity. }
    destruct (buildConsistentArrays D st (selectedTokens st)) as [e' | A] eqn:HA.
    { cbn. intros H; injection H as <-.
      unfold buildConsistentArrays in HA. apply buildLoop_raises in HA. exact HA. }
    cbn [liftE]. rewrite bind_ret_l.
    pose proof (afterBuild_raises D w st A HA (h ++ [])) as Hr.
    destruct (afterBuild D w st A (h ++ [])) as [[e' | u] es]; cbn in *.
    + intros H; injection H as <-. exact Hr.
    + discriminate.
  - intros A HA. destruct (plan_checks_pass D st A HA) as [Hv Hverify].
    split; [exact Hv | apply Hverify].
Qed.

Lemma a_run_fails_only_in_known_ways_witness :
  isRunError (QuoteValidationFailed "AAA" (SwapAmountTooSmall "AAA")) = true /\
  forall A,
    buildConsistentArrays Reference.deps Reference.stateA (selectedTokens Reference.stateA)
    = inr A ->
    validateArrayConsistency (tokenData A) (addresses A) (amounts A) = inr tt /\
    verifyArrayConsistency "SAFE" (tokenData A) (addresses A) (amounts A) = inr tt.
Proof.
  apply (a_run_fails_only_in_known_ways
           Reference.deps Reference.zeroQuote Reference.stateA []
           (QuoteValidationFailed "AAA" (SwapAmountTooSmall "AAA"))).
  vm_compute. reflexivity.
Defined.

(** ** Every uncovered entry gets its approval *)

Lemma bind_trace_prefix {A B} (m : M A) (f : A -> M B) (h : Trace) :
  exists rest, snd (bind m f h) = snd (m h) ++ rest.
Proof.
  unfold bind. destruct (m h) as [[e | a] es]; cbn.
  - exists []. rewrite app_nil_r. reflexivity.
  - destruct (f a (h ++ es)) as [r es']. exists es'. reflexivity.
Qed.

Lemma tryCatch_trace_prefix {A} (m : M A) (handler : Error -> M A) (h : Trace) :
  exists rest, snd (tryCatch m handler h) = snd (m h) ++ rest.
Proof.
  unfold tryCatch. destruct (m h) as [[e | a] es]; cbn.
  - destruct (handler e (h ++ es)) as [r es']. exists es'. reflexivity.
  - exists []. rewrite app_nil_r. reflexivity.
Qed.

(** Every callback of the concurrent pass runs, whatever the others do. *)
Lemma mapAsync_runs {A} (body : nat -> A -> M unit) (xs : list A) :
  forall start h j x,
    nth_error xs j = Some x ->
    exists h', incl (snd (body (start + j)%nat x h')) (snd (mapAsync body start xs h)).
Proof.
  induction xs as [| y rest IH]; intros start h j x Hj; [destruct j; discriminate |].
  cbn [mapAsync].
  destruct (body start y h) as [r es] eqn:Hy.
  assert (Hs : settle (body start y) h = (inr r, es)).
  { unfold settle. rewrite Hy. reflexivity. }
  rewrite (bind_trace_after _ _ h r es Hs).
  destruct j as [| j].
  - injection Hj as ->. exists h. rewrite Nat.add_0_r, Hy. cbn [snd].
    apply incl_appl, incl_refl.
  - cbn [nth_error] in Hj.
    destruct (IH (S start) (h ++ es) j x Hj) as (h' & Hincl).
    exists h'. rewrite Nat.add_succ_r.
    destruct (bind_trace_prefix (mapAsync body (S start) rest)
                                (fun rs => ret (r :: rs)) (h ++ es)) as (tl & ->).
    apply incl_appr, incl_appl. exact Hincl.
Qed.

Lemma approveToken_sends (D : Deps) (w : World) (st : AppState) (t : TokenRecord)
      (amount balanceWei : Z) (h : Trace) :
  findToken (address t) (dustTokens st) = Some t ->
  JsString.truthy (balanceFormatted t) = true ->
  JsNumber.eqZero (parseFloat D (balanceFormatted t)) = false ->
  parseUnits D (balanceOrZero t) (decimals t) = Some balanceWei ->
  JsString.truthy (walletAddress st) = true ->
  exists answer rest,
    snd (approveToken D w st (address t) amount h) =
    EvApprove (address t) (SPLIT_ROUTER D) (Z.quot (balanceWei * 1001) 1000) answer :: rest.
Proof.
  intros Hf Hb Hz Hp Hw.
  unfold approveToken. rewrite Hf, Hb, Hz, Hp, Hw.
  cbn [negb orb orThrow]. rewrite bind_ret_l. cbn zeta.
  erewrite bind_trace_after by (unfold call; reflexivity).
  cbn [app]. eauto.
Qed.

Lemma leZero_eqZero (x : spec_float) :
  JsNumber.leZero x = false -> JsNumber.eqZero x = false.
Proof.
  unfold JsNumber.leZero, JsNumber.eqZero, SFleb, SFeqb.
  destruct (SFcompare x (S754_zero false)) as [[| |] |]; congruence.
Qed.

Section Uncovered.

Context (D : Deps) (w : World) (st : AppState) (A : Arrays).
Hypothesis plan : buildConsistentArrays D st (selectedTokens st) = inr A.
Hypothesis walletSet : JsString.truthy (walletAddress st) = true.

Lemma plan_token_in_list (i : nat) (t : TokenRecord) :
  nth_error (tokenData A) i = Some t ->
  findToken (address t) (dustTokens st) = Some t.
Proof.
  intros Ht. destruct (buildConsistentArrays_spec D st _ A plan) as (_ & F1 & _).
  destruct (Forall2_nth_error_r _ _ _ F1 i t Ht) as (addr & Hs & Hf).
  pose proof (findToken_some _ _ _ Hf) as [Ha _]. rewrite Ha.
  rewrite <- (findToken_selected st addr); [exact Hf |].
  eapply nth_error_In; eauto.
Qed.

Lemma approvalCallback_sends (i : nat) (t : TokenRecord) (required : Z) (h : Trace) :
  nth_error (tokenData A) i = Some t ->
  nth_error (amounts A) i = Some required ->
  JsString.truthy (balanceFormatted t) = true ->
  allowanceSeen D w h (address t) (walletAddress st) < required ->
  exists amount answer,
    In (EvApprove (address t) (SPLIT_ROUTER D) amount answer)
       (snd (approvalCallback D w st A i t h)) /\
    approvalFromBalance D st (address t) (SPLIT_ROUTER D) amount.
Proof.
  intros Ht Hr Hb Hshort.
  destruct (plan_entries D st A _ plan i t Ht) as (amt & Hamt & Hsafe).
  cbn [Nat.add] in Hamt. assert (amt = required) by congruence. subst amt.
  destruct (safeAmountOf_inr D t required Hsafe) as (balanceWei & buffer & Hp & _ & _).
  assert (Hz : JsNumber.eqZero (parseFloat D (balanceFormatted t)) = false).
  { unfold safeAmountOf in Hsafe.
    destruct (JsNumber.isNaN (parseFloat D (balanceOrZero t))
              || JsNumber.leZero (parseFloat D (balanceOrZero t))) eqn:E; [discriminate |].
    apply Bool.orb_false_iff in E. destruct E as [_ E]. apply leZero_eqZero in E.
    unfold balanceOrZero, JsString.orElse in E. rewrite Hb in E. exact E. }
  pose proof (plan_token_in_list i t Ht) as Hf.
  assert (Hcheck : exists es,
             checkAllowance D w (address t) (walletAddress st) h =
             (inr (allowanceSeen D w h (address t) (walletAddress st)), es)).
  { unfold checkAllowance, allowanceSeen.
    destruct (hasPublicClient w); [| eexists; reflexivity].
    unfold bind, call, ret. cbn. eexists; reflexivity. }
  destruct Hcheck as (es & Hcheck).
  unfold approvalCallback. rewrite (bind_trace_after _ _ h _ es Hcheck).
  unfold at_. rewrite Hr. rewrite bind_ret_l.
  apply Z.ltb_lt in Hshort. rewrite Hshort.
  destruct (tryCatch_trace_prefix
              (approveToken D w st (address t) required ;;; ret tt)
              (fun approvalError => throw (FailedToApprove (symbol t) approvalError))
              ((h ++ es) ++ [])) as (tl & ->).
  destruct (bind_trace_prefix (approveToken D w st (address t) required)
                              (fun _ => ret tt) ((h ++ es) ++ [])) as (tl' & ->).
  destruct (approveToken_sends D w st t required balanceWei ((h ++ es) ++ [])
                               Hf Hb Hz Hp walletSet) as (answer & rest & ->).
  exists (Z.quot (balanceWei * 1001) 1000), answer. split.
  - apply in_or_app. right. apply in_or_app. left. apply in_or_app. left.
    left. reflexivity.
  - split; [reflexivity |]. exists t, balanceWei. auto.
Qed.

Lemma concurrentApprovals_sends (i : nat) (t : TokenRecord) (required : Z) (h : Trace) :
  nth_error (tokenData A) i = Some t ->
  nth_error (amounts A) i = Some required ->
  JsString.truthy (balanceFormatted t) = true ->
  (forall h', allowanceSeen D w h' (address t) (walletAddress st) < required) ->
  exists amount answer,
    In (EvApprove (address t) (SPLIT_ROUTER D) amount answer)
       (snd (concurrentApprovals D w st A h)) /\
    approvalFromBalance D st (address t) (SPLIT_ROUTER D) amount.
Proof.
  intros Ht Hr Hb Hshort.
  destruct (mapAsync_runs (approvalCallback D w st A) (tokenData A) 0%nat h i t Ht)
    as (h' & Hincl).
  cbn [Nat.add] in Hincl.
  destruct (approvalCallback_sends i t required h' Ht Hr Hb (Hshort h'))
    as (amount & answer & Hin & Hfrom).
  exists amount, answer. split; [| exact Hfrom].
  unfold concurrentApprovals.
  destruct (bind_trace_prefix (mapAsync (approvalCallback D w st A) 0%nat (tokenData A))
                              (fun rs => promiseAll rs) h) as (tl & ->).
  apply in_or_app. left. apply Hincl. exact Hin.
Qed.

End Uncovered.

(** X28: no uncovered entry is skipped.  In a run that has built its plan,
    every entry whose allowance reads stay below its amount gets an approval
    request in the concurrent pass, for the router and for the buffered
    balance of its token, whatever happens to the other entries: a failure
    on one token does not keep the callbacks of the others from sending
    theirs. *)
Theorem uncovered_entries_get_an_approval (D : Deps) (w : World) (st : AppState)
        (A : Arrays) (i : nat) (t : TokenRecord) (required : Z) (h : Trace) :
  isConnected st = true ->
  JsString.truthy (SPLIT_ROUTER D) = true ->
  JsString.truthy (walletAddress st) = true ->
  buildConsistentArrays D st (selectedTokens st) = inr A ->
  nth_error (tokenData A) i = Some t ->
  nth_error (amounts A) i = Some required ->
  JsString.truthy (balanceFormatted t) = true ->
  (forall h', allowanceSeen D w h' (address t) (walletAddress st) < required) ->
  exists amount answer,
    In (EvApprove (address t) (SPLIT_ROUTER D) amount answer)
       (snd (handleSwap D w st h)) /\
    approvalFromBalance D st (address t) (SPLIT_ROUTER D) amount.
Proof.
  intros Hc Hrouter Hw HA Ht Hr Hb Hshort.
  destruct (concurrentApprovals_sends D w st A HA Hw i t required (((h ++ []) ++ []) ++ [])
                                      Ht Hr Hb Hshort)
    as (amount & answer & Hin & Hfrom).
  exists amount, answer. split; [| exact Hfrom].
  assert (Hsel : (List.length (selectedTokens st) =? 0)%nat = false).
  { destruct (buildConsistentArrays_consistent D st _ A HA) as [(H1 & _) Haddr].
    rewrite <- Haddr, <- H1. apply Nat.eqb_neq.
    assert (i < List.length (tokenData A))%nat by (apply nth_error_Some; congruence). lia. }
  unfold handleSwap. rewrite Hc, Hsel. cbn [negb orb].
  unfold handleSwapBody. rewrite Hrouter, Hw, HA. cbn [negb orb liftE].
  rewrite bind_ret_l. unfold afterBuild.
  destruct (plan_checks_pass D st A HA) as [Hv Hverify].
  rewrite Hv, Hverify. cbn [liftE]. rewrite !bind_ret_l.
  match goal with
  | |- In _ (snd (match bind ?m ?f ?hh with _ => _ end)) =>
      destruct (bind_trace_prefix m f hh) as (tl & Hpre);
      destruct (bind m f hh) as [[e | u] es]; cbn [snd] in *; rewrite Hpre
  end; apply in_or_app; left; exact Hin.
Qed.

Lemma uncovered_entries_get_an_approval_witness :
  exists amount answer,
    In (EvApprove (address Reference.tokenB) (SPLIT_ROUTER Reference.deps) amount answer)
       (snd (handleSwap Reference.deps Reference.staleAllowance Reference.stateAB [])) /\
    approvalFromBalance Reference.deps Reference.stateAB (address Reference.tokenB)
                        (SPLIT_ROUTER Reference.deps) amount.
Proof.
  destruct (buildConsistentArrays Reference.deps Reference.stateAB
                                  (selectedTokens Reference.stateAB)) as [e | A] eqn:HA;
    [vm_compute in HA; discriminate |].
  assert (HA' := HA). vm_compute in HA'. injection HA' as <-.
  refine (uncovered_entries_get_an_approval
            Reference.deps Reference.staleAllowance Reference.stateAB _ 1%nat
            Reference.tokenB _ [] _ _ _ HA _ _ _ _);
    vm_compute; reflexivity.
Defined.

(** ** The properties on concrete inputs *)

Lemma addresses_of_AB_differ :
  NoDup (map address (dustTokens Reference.stateAB)).
Proof.
  cbn. constructor; [| constructor; [intros [] | constructor]].
  intros [H | []]. discriminate.
Qed.

Lemma clicks_keep_selection_wellformed_witness :
  NoDup (clicks [Reference.tokenA; Reference.tokenB]
                [ClickToken 0; ClickSelectAll; ClickToken 1]) /\
  incl (clicks [Reference.tokenA; Reference.tokenB]
               [ClickToken 0; ClickSelectAll; ClickToken 1])
       (map address [Reference.tokenA; Reference.tokenB]).
Proof.
  apply (clicks_keep_selection_wellformed
           [Reference.tokenA; Reference.tokenB]
           [ClickToken 0; ClickSelectAll; ClickToken 1]).
  exact addresses_of_AB_differ.
Defined.

Lemma select_all_is_exact_witness :
  (isAllSelected Reference.stateAB = true <->
   forall t, In t (dustTokens Reference.stateAB) ->
             In (address t) (selectedTokens Reference.stateAB)) /\
  (isAllSelected Reference.stateAB = true ->
   toggleSelectAll (dustTokens Reference.stateAB) (selectedTokens Reference.stateAB) = []) /\
  (isAllSelected Reference.stateAB = false ->
   toggleSelectAll (dustTokens Reference.stateAB) (selectedTokens Reference.stateAB)
   = map address (dustTokens Reference.stateAB) /\
   selectedTokensData
     (withSelection Reference.stateAB
        (toggleSelectAll (dustTokens Reference.stateAB)
                         (selectedTokens Reference.stateAB)))
   = dustTokens Reference.stateAB).
Proof.
  apply (select_all_is_exact Reference.stateAB).
  - exact addresses_of_AB_differ.
  - exact addresses_of_AB_differ.
  - apply incl_refl.
Defined.

Lemma clicked_selection_is_found_witness :
  buildConsistentArrays Reference.deps Reference.stateAB
                        (selectedTokens Reference.stateAB)
  <> inl (TokenNotFound (address Reference.tokenB)).
Proof.
  apply (clicked_selection_is_found
           Reference.deps Reference.stateAB [ClickToken 0; ClickToken 1]
           (address Reference.tokenB)).
  reflexivity.
Defined.

Lemma calculateMinReceive_validated_witness :
  (validateSwapInputs [Reference.tokenA; Reference.tokenB]
                      [999900; 1999800000000000000]
                      (calculateMinReceive [Reference.tokenA; Reference.tokenB]
                                           [999900; 1999800000000000000])
   = inr true <->
   2000 <= totalInput [999900; 1999800000000000000]) /\
  (totalInput [999900; 1999800000000000000] < 2000 ->
   validateSwapInputs [Reference.tokenA; Reference.tokenB]
                      [999900; 1999800000000000000]
                      (calculateMinReceive [Reference.tokenA; Reference.tokenB]
                                           [999900; 1999800000000000000])
   = inl (InvalidMinReceive 0)) /\
  calculateSafeMinReceive [Reference.tokenA; Reference.tokenB]
                          [999900; 1999800000000000000]
  = calculateMinReceive [Reference.tokenA; Reference.tokenB]
                        [999900; 1999800000000000000] /\
  tryProgressiveMinReceive [Reference.tokenA; Reference.tokenB]
                           [999900; 1999800000000000000]
                           [address Reference.tokenA; address Reference.tokenB]
  = calculateMinReceive [Reference.tokenA; Reference.tokenB]
                        [999900; 1999800000000000000].
Proof.
  apply (calculateMinReceive_validated
           [Reference.tokenA; Reference.tokenB] [999900; 1999800000000000000]
           [address Reference.tokenA; address Reference.tokenB]).
  repeat constructor; vm_compute; intros; discriminate.
Defined.

Lemma validateMinReceive_clamps_witness :
  exists answer,
    validateMinReceive 1000000 990000 = Some answer /\
    answer = (if 100 * 990000 <? 50 * 1000000
              then Z.quot (1000000 * 70) 100
              else if 96 * 1000000 <=? 100 * 990000
                   then Z.quot (1000000 * 90) 100
                   else 990000) /\
    100 * answer < 96 * 1000000 /\
    (5 <= 1000000 -> 50 * 1000000 <= 100 * answer).
Proof.
  apply (validateMinReceive_clamps 1000000 990000). lia.
Defined.

Lemma scaleDownAmounts_bounds_witness :
  (Forall (fun amount => 0 < amount) [999900; 5000000000000000000000] ->
   exists scaled,
     scaleDownAmounts [999900; 5000000000000000000000] defaultMaxAmountWei = Some scaled /\
     Forall2 (fun amount s =>
                (defaultMaxAmountWei < amount ->
                 defaultMaxAmountWei <= s < 2 * defaultMaxAmountWei /\ s <= amount) /\
                (amount <= defaultMaxAmountWei -> amount < 10 ^ 18 ->
                 10 ^ 18 < 2 * s /\ s <= 10 ^ 18 /\ amount <= s) /\
                (amount <= defaultMaxAmountWei -> 10 ^ 18 <= amount -> s = amount))
             [999900; 5000000000000000000000] scaled) /\
  (In 0 [999900; 5000000000000000000000] ->
   scaleDownAmounts [999900; 5000000000000000000000] defaultMaxAmountWei = None).
Proof.
  apply (scaleDownAmounts_bounds [999900; 5000000000000000000000] defaultMaxAmountWei).
  reflexivity.
Defined.

Lemma recheck_never_adjusts_the_plan_witness :
  (forall amts,
      fst (recheckBalances Reference.deps 0 (tokenData Reference.planAB)
                           (amounts Reference.planAB) []) = inr amts ->
      amts = amounts Reference.planAB) /\
  ((forall t balanceWei,
       In t (tokenData Reference.planAB) ->
       parseUnits Reference.deps (balanceOrZero t) (decimals t) = Some balanceWei ->
       0 <= balanceWei) ->
   recheckBalances Reference.deps 0 (tokenData Reference.planAB)
                   (amounts Reference.planAB) []
   = (inr (amounts Reference.planAB), [])).
Proof.
  apply (recheck_never_adjusts_the_plan Reference.deps Reference.stateAB Reference.planAB []).
  exact plan_of_AB.
Defined.

Lemma submitted_run_shape_witness :
  exists A pre total quotes gas answer,
    buildConsistentArrays Reference.deps Reference.stateA (selectedTokens Reference.stateA)
    = inr A /\
    snd (handleSwap Reference.deps Reference.preApproved Reference.stateA []) =
    pre ++ submissionTail (selectedTokens Reference.stateA) (amounts A) total quotes gas
                          answer /\
    Forall (fun ev => isPreparation ev = true) pre /\
    (0 < total)%N /\
    hasHigherToken Reference.deps (selectedTokens Reference.stateA) = false.
Proof.
  apply (submitted_run_shape Reference.deps Reference.preApproved Reference.stateA []).
  vm_compute. reflexivity.
Defined.

Lemma every_submission_ends_the_run_witness :
  exists A pre total quotes gas,
    buildConsistentArrays Reference.deps Reference.stateA (selectedTokens Reference.stateA)
    = inr A /\
    [address Reference.tokenA] = selectedTokens Reference.stateA /\
    [999900] = amounts A /\
    900000 = minReceiveWei (Z.of_N total) /\
    snd (handleSwap Reference.deps rejectingWallet Reference.stateA []) =
    pre ++ submissionTail [address Reference.tokenA] [999900] total quotes gas
                          (Rejects "User rejected the request.") /\
    Forall (fun ev => isPreparation ev = true) pre /\
    (0 < total)%N /\
    fst (handleSwap Reference.deps rejectingWallet Reference.stateA []) = Submitted.
Proof.
  apply (every_submission_ends_the_run
           Reference.deps rejectingWallet Reference.stateA []
           [address Reference.tokenA] [999900] 900000
           (Rejects "User rejected the request.")).
  vm_compute. repeat (first [left; reflexivity | right]).
Defined.

Lemma no_client_no_swap_witness :
  fst (handleSwap Reference.deps clientless Reference.stateA []) <> Submitted /\
  Forall (fun ev => isApproval ev = true)
         (snd (handleSwap Reference.deps clientless Reference.stateA [])) /\
  (isConnected Reference.stateA = true -> selectedTokens Reference.stateA <> [] ->
   exists e, fst (handleSwap Reference.deps clientless Reference.stateA []) = Failed e).
Proof.
  apply (no_client_no_swap Reference.deps clientless Reference.stateA []).
  reflexivity.
Defined.

Lemma one_bad_entry_blocks_the_run_witness :
  (exists e, buildConsistentArrays Reference.deps stateBlocked (selectedTokens stateBlocked)
             = inl e) /\
  snd (handleSwap Reference.deps Reference.preApproved stateBlocked []) = [] /\
  fst (handleSwap Reference.deps Reference.preApproved stateBlocked []) <> Submitted.
Proof.
  apply (one_bad_entry_blocks_the_run
           Reference.deps Reference.preApproved stateBlocked []
           (address Reference.tokenInfinite)).
  - right; left; reflexivity.
  - right. exists Reference.tokenInfinite, (InvalidDecimalNumber "Infinity").
    split; vm_compute; reflexivity.
Defined.

Lemma quotes_are_for_plan_entries_witness :
  exists A i t,
    buildConsistentArrays Reference.deps Reference.stateA (selectedTokens Reference.stateA)
    = inr A /\
    nth_error (tokenData A) i = Some t /\ address t = address Reference.tokenA /\
    nth_error (amounts A) i = Some 999900.
Proof.
  apply (quotes_are_for_plan_entries
           Reference.deps Reference.preApproved Reference.stateA []
           (address Reference.tokenA) 999900 (Returns 500000%N)).
  vm_compute. repeat (first [left; reflexivity | right]).
Defined.

Lemma checkAllAllowances_reads_every_token_witness :
  exists verdict,
    fst (checkAllAllowances Reference.deps Reference.staleAllowance Reference.stateAB
                            (addresses Reference.planAB) (amounts Reference.planAB) [])
    = inr verdict /\
    Forall (fun ev => isAllowanceRead ev = true)
           (snd (checkAllAllowances Reference.deps Reference.staleAllowance
                                    Reference.stateAB (addresses Reference.planAB)
                                    (amounts Reference.planAB) [])) /\
    List.length (snd (checkAllAllowances Reference.deps Reference.staleAllowance
                                         Reference.stateAB (addresses Reference.planAB)
                                         (amounts Reference.planAB) []))
    = List.length (addresses Reference.planAB) /\
    (verdict = inr tt <->
     Forall2 (fun ev amount => amount <= readValue ev)
             (snd (checkAllAllowances Reference.deps Reference.staleAllowance
                                      Reference.stateAB (addresses Reference.planAB)
                                      (amounts Reference.planAB) []))
             (firstn (List.length (addresses Reference.planAB))
                     (amounts Reference.planAB))).
Proof.
  apply (checkAllAllowances_reads_every_token
           Reference.deps Reference.staleAllowance Reference.stateAB
           (addresses Reference.planAB) (amounts Reference.planAB) []).
  - reflexivity.
  - cbn. lia.
Defined.

Lemma small_balances_give_negative_amounts_witness :
  (0 < -95000 <-> 10000 <= 5000) /\ (5000 < 10000 -> -95000 = 5000 - 100000).
Proof.
  apply (small_balances_give_negative_amounts Reference.deps tokenTiny (-95000) 5000).
  - vm_compute. reflexivity.
  - vm_compute. reflexivity.
  - lia.
Defined.
